(** * Job orchestration of the speech-to-text backend, embedded in Rocq

    A shallow embedding of the TypeScript backend:
    - [types/index.ts]                     : the data model;
    - [errors/AppError.ts]                 : the error classes;
    - [repositories/JobRepository.ts] and
      [models/Job.ts]                      : the Job Record Store (SQL table [jobs]);
    - [services/WhisperService.ts]         : the persistent transcription gateway;
    - [services/DockerWhisperService.ts]   : the on-demand container gateway;
    - [services/QueueService.ts]           : the BullMQ queue and its worker;
    - [services/JobService.ts]             : the facade.

    Dates are milliseconds in [Z]; an optional TypeScript field is an [option];
    asynchronous code that threads the database, the file system and the queue
    is written in a state-and-exception monad over [World]. *)

From Stdlib Require Import ZArith List String Ascii Bool Lia Arith.
From Stdlib Require Import Sorting.Sorted Sorting.Permutation DecimalString.
Import ListNotations.
Local Open Scope string_scope.
Local Open Scope Z_scope.

Set Implicit Arguments.

(* ===================================================================== *)
(** ** JavaScript values used by the code *)
(* ===================================================================== *)

(** [!s] on an optional string: [undefined], [null] and the empty string
    are falsy. *)
Definition truthy (s : option string) : bool :=
  match s with
  | Some v => negb (String.eqb v "")
  | None => false
  end.

(** [!s] on a string that is always present. *)
Definition truthy_str (s : string) : bool := negb (String.eqb s "").

(** [a || d] where [d] is a string literal. *)
Definition or_else (a : option string) (d : string) : string :=
  match a with
  | Some v => if String.eqb v "" then d else v
  | None => d
  end.

(** [a || undefined]. *)
Definition or_undefined (a : option string) : option string :=
  if truthy a then a else None.

(* ===================================================================== *)
(** ** types/index.ts *)
(* ===================================================================== *)

Inductive JobStatus := PENDING | PROCESSING | COMPLETED | FAILED.

Inductive FileType := AUDIO | VIDEO.

Definition JobStatus_eqb (a b : JobStatus) : bool :=
  match a, b with
  | PENDING, PENDING | PROCESSING, PROCESSING
  | COMPLETED, COMPLETED | FAILED, FAILED => true
  | _, _ => false
  end.

(** The string value of the enum, as stored in the [status] column. *)
Definition JobStatus_value (s : JobStatus) : string :=
  match s with
  | PENDING => "pending"
  | PROCESSING => "processing"
  | COMPLETED => "completed"
  | FAILED => "failed"
  end.

Definition FileType_value (t : FileType) : string :=
  match t with AUDIO => "audio" | VIDEO => "video" end.

Record Job := mkJob {
  id : string;
  originalFilename : string;
  filePath : string;
  fileType : FileType;
  fileSize : Z;
  status : JobStatus;
  transcriptionText : option string;
  transcriptionFilePath : option string;
  language : option string;
  model : string;
  createdAt : Z;
  updatedAt : Z;
  completedAt : option Z;
  errorMessage : option string
}.

Module CreateJobData.
Record t := mk {
  originalFilename : string;
  filePath : string;
  fileType : FileType;
  fileSize : Z;
  language : option string;
  model : string
}.
End CreateJobData.

Module UpdateJobData.
Record t := mk {
  status : option JobStatus;
  transcriptionText : option string;
  transcriptionFilePath : option string;
  errorMessage : option string;
  completedAt : option Z
}.
(** The object literal [{}]. *)
Definition empty : t := mk None None None None None.
End UpdateJobData.

Record QueueStatusResponse := mkQueueStatus {
  qs_waiting : nat;
  qs_active : nat;
  qs_completed : nat;
  qs_failed : nat
}.

Record WhisperServiceRequest := mkRequest {
  req_filePath : string;
  req_language : option string;
  req_model : string;
  req_jobId : string
}.

Record WhisperServiceResponse := mkResponse {
  success : bool;
  transcription : option string;
  transcriptionFile : option string;
  error : option string
}.

(* ===================================================================== *)
(** ** errors/AppError.ts *)
(* ===================================================================== *)

Inductive ErrorClass :=
| PlainError            (* [new Error(msg)] *)
| DatabaseError         (* thrown by the driver, [pool.query] *)
| AxiosErrorClass       (* [error instanceof AxiosError] *)
| NotAnError            (* a thrown value that is not an [Error] *)
| ValidationErrorClass
| NotFoundErrorClass
| InternalServerErrorClass.

Record Error := mkError {
  cls : ErrorClass;
  message : string;
  statusCode : option Z;
  code : option string;
  (* [error.response] of an AxiosError: status, data?.error, statusText *)
  response : option (Z * option string * string)
}.

Definition new_Error (msg : string) : Error :=
  mkError PlainError msg None None None.

Definition AppError (c : ErrorClass) (msg : string) (sc : Z) (cd : string) : Error :=
  mkError c msg (Some sc) (Some cd) None.

(** [constructor(field: string, message?: string)]:
    [super(message || `Invalid ${field}`, 400, 'VALIDATION_ERROR')]. *)
Definition ValidationError (field : string) (msg : option string) : Error :=
  AppError ValidationErrorClass (or_else msg ("Invalid " ++ field)) 400 "VALIDATION_ERROR".

(** [super(`${resource}${id ? ` with ID ${id}` : ''} not found`, 404, 'NOT_FOUND')]. *)
Definition NotFoundError (resource : string) (ident : option string) : Error :=
  AppError NotFoundErrorClass
    (resource ++ (if truthy ident then " with ID " ++ or_else ident "" else "") ++ " not found")
    404 "NOT_FOUND".

Definition InternalServerError (msg : string) : Error :=
  AppError InternalServerErrorClass msg 500 "INTERNAL_SERVER_ERROR".

(* ===================================================================== *)
(** ** The [jobs] table (config/init-db.ts) and the queries run on it *)
(* ===================================================================== *)

Record Row := mkRow {
  row_id : string;
  original_filename : string;
  file_path : string;
  file_type : FileType;
  file_size : Z;
  row_language : option string;
  row_model : string;
  row_status : JobStatus;
  transcription_text : option string;
  transcription_file_path : option string;
  error_message : option string;
  created_at : Z;
  updated_at : Z;
  completed_at : option Z
}.

Definition Table := list Row.

Inductive Column :=
| c_id | c_original_filename | c_file_path | c_file_type | c_file_size
| c_language | c_model | c_status | c_transcription_text
| c_transcription_file_path | c_error_message
| c_created_at | c_updated_at | c_completed_at.

Definition jobs_columns : list Column :=
  [ c_id; c_original_filename; c_file_path; c_file_type; c_file_size;
    c_language; c_model; c_status; c_transcription_text;
    c_transcription_file_path; c_error_message;
    c_created_at; c_updated_at; c_completed_at ].

Definition column_name (c : Column) : string :=
  match c with
  | c_id => "id"
  | c_original_filename => "original_filename"
  | c_file_path => "file_path"
  | c_file_type => "file_type"
  | c_file_size => "file_size"
  | c_language => "language"
  | c_model => "model"
  | c_status => "status"
  | c_transcription_text => "transcription_text"
  | c_transcription_file_path => "transcription_file_path"
  | c_error_message => "error_message"
  | c_created_at => "created_at"
  | c_updated_at => "updated_at"
  | c_completed_at => "completed_at"
  end.

(** PostgreSQL folds an unquoted identifier to lower case. *)
Definition lower_ascii (a : ascii) : ascii :=
  let n := nat_of_ascii a in
  if andb (Nat.leb 65 n) (Nat.leb n 90) then ascii_of_nat (n + 32) else a.

Fixpoint fold_identifier (s : string) : string :=
  match s with
  | EmptyString => EmptyString
  | String a r => String (lower_ascii a) (fold_identifier r)
  end.

(** Name resolution of an identifier of a query text against the table. *)
Definition resolve_column (ident : string) : option Column :=
  find (fun c => String.eqb (column_name c) (fold_identifier ident)) jobs_columns.

Inductive SqlValue :=
| VNull
| VInt (n : Z)
| VText (s : string).

Definition VOptText (o : option string) : SqlValue :=
  match o with Some s => VText s | None => VNull end.

Definition VOptInt (o : option Z) : SqlValue :=
  match o with Some n => VInt n | None => VNull end.

Definition column_value (c : Column) (r : Row) : SqlValue :=
  match c with
  | c_id => VText (row_id r)
  | c_original_filename => VText (original_filename r)
  | c_file_path => VText (file_path r)
  | c_file_type => VText (FileType_value (file_type r))
  | c_file_size => VInt (file_size r)
  | c_language => VOptText (row_language r)
  | c_model => VText (row_model r)
  | c_status => VText (JobStatus_value (row_status r))
  | c_transcription_text => VOptText (transcription_text r)
  | c_transcription_file_path => VOptText (transcription_file_path r)
  | c_error_message => VOptText (error_message r)
  | c_created_at => VInt (created_at r)
  | c_updated_at => VInt (updated_at r)
  | c_completed_at => VOptInt (completed_at r)
  end.

(** [a <= b] in ascending order; NULL sorts last when ascending. *)
Definition sql_leb (a b : SqlValue) : bool :=
  match a, b with
  | _, VNull => true
  | VNull, _ => false
  | VInt x, VInt y => Z.leb x y
  | VText x, VText y => String.leb x y
  | VInt _, VText _ => true
  | VText _, VInt _ => false
  end.

Inductive Direction := ASC | DESC.

Definition parse_direction (s : string) : option Direction :=
  if String.eqb (fold_identifier s) "asc" then Some ASC
  else if String.eqb (fold_identifier s) "desc" then Some DESC
  else None.

(** Does [a] come no later than [b] under [ORDER BY c d]? *)
Definition order_leb (c : Column) (d : Direction) (a b : Row) : bool :=
  match d with
  | ASC => sql_leb (column_value c a) (column_value c b)
  | DESC => sql_leb (column_value c b) (column_value c a)
  end.

Fixpoint insert_sorted (le : Row -> Row -> bool) (x : Row) (l : list Row) : list Row :=
  match l with
  | [] => [x]
  | y :: r => if le x y then x :: y :: r else y :: insert_sorted le x r
  end.

Definition order_by (c : Column) (d : Direction) (t : list Row) : list Row :=
  fold_right (insert_sorted (order_leb c d)) [] t.

(** One assignment [col = $n] of an UPDATE, with the value bound to [$n]. *)
Inductive SetPart :=
| set_status (v : JobStatus)
| set_transcription_text (v : string)
| set_transcription_file_path (v : string)
| set_error_message (v : string)
| set_completed_at (v : Z)
| set_updated_at (v : Z).

Definition apply_set (p : SetPart) (r : Row) : Row :=
  match p with
  | set_status v =>
      mkRow (row_id r) (original_filename r) (file_path r) (file_type r) (file_size r)
            (row_language r) (row_model r) v (transcription_text r)
            (transcription_file_path r) (error_message r)
            (created_at r) (updated_at r) (completed_at r)
  | set_transcription_text v =>
      mkRow (row_id r) (original_filename r) (file_path r) (file_type r) (file_size r)
            (row_language r) (row_model r) (row_status r) (Some v)
            (transcription_file_path r) (error_message r)
            (created_at r) (updated_at r) (completed_at r)
  | set_transcription_file_path v =>
      mkRow (row_id r) (original_filename r) (file_path r) (file_type r) (file_size r)
            (row_language r) (row_model r) (row_status r) (transcription_text r)
            (Some v) (error_message r)
            (created_at r) (updated_at r) (completed_at r)
  | set_error_message v =>
      mkRow (row_id r) (original_filename r) (file_path r) (file_type r) (file_size r)
            (row_language r) (row_model r) (row_status r) (transcription_text r)
            (transcription_file_path r) (Some v)
            (created_at r) (updated_at r) (completed_at r)
  | set_completed_at v =>
      mkRow (row_id r) (original_filename r) (file_path r) (file_type r) (file_size r)
            (row_language r) (row_model r) (row_status r) (transcription_text r)
            (transcription_file_path r) (error_message r)
            (created_at r) (updated_at r) (Some v)
  | set_updated_at v =>
      mkRow (row_id r) (original_filename r) (file_path r) (file_type r) (file_size r)
            (row_language r) (row_model r) (row_status r) (transcription_text r)
            (transcription_file_path r) (error_message r)
            (created_at r) v (completed_at r)
  end.

(** [SET p1, p2, ...]: the assignments of one UPDATE name distinct columns,
    so they are applied one after the other. *)
Definition apply_sets (ps : list SetPart) (r : Row) : Row :=
  fold_left (fun acc p => apply_set p acc) ps r.

(** The statements the repository and the model send to [pool.query]. *)
Inductive Query :=
| Q_insert (new_row : Row)
    (* INSERT INTO jobs (...) VALUES (...) RETURNING * *)
| Q_select_by_id (ident : string)
    (* SELECT * FROM jobs WHERE id = $1 *)
| Q_count (where_status : option string)
    (* SELECT COUNT( * ) FROM jobs [WHERE status = $1] *)
| Q_select (where_status : option string) (order_ident : string)
           (order_dir : string) (limit : option Z) (offset : option Z)
    (* SELECT * FROM jobs [WHERE status = $1] ORDER BY <ident> <dir>
       [LIMIT $n] [OFFSET $m] *)
| Q_update (sets : list SetPart) (ident : string)
    (* UPDATE jobs SET ... WHERE id = $n RETURNING * *)
| Q_delete (ident : string).
    (* DELETE FROM jobs WHERE id = $1 *)

Record QueryResult := mkResult {
  rows : list Row;
  rowCount : nat;
  count : Z          (* [rows[0].count] of a COUNT query *)
}.

Definition has_id (ident : string) (r : Row) : bool := String.eqb (row_id r) ident.

Definition has_status (w : option string) (r : Row) : bool :=
  match w with
  | Some s => String.eqb (JobStatus_value (row_status r)) s
  | None => true
  end.

Definition limit_rows (limit : option Z) (l : list Row) : list Row :=
  match limit with
  | Some n => firstn (Z.to_nat n) l
  | None => l
  end.

Definition offset_rows (offset : option Z) (l : list Row) : list Row :=
  match offset with
  | Some n => skipn (Z.to_nat n) l
  | None => l
  end.

Definition negative (o : option Z) : bool :=
  match o with Some n => Z.ltb n 0 | None => false end.

Definition db_error (msg : string) : Error :=
  mkError DatabaseError msg None None None.

(** Execution of one statement: the result and the new table, or the error
    the driver raises (the table is then unchanged). *)
Definition exec_query (q : Query) (t : Table) : (QueryResult + Error) * Table :=
  match q with
  | Q_insert r =>
      if existsb (has_id (row_id r)) t
      then (inr (db_error "duplicate key value violates unique constraint"), t)
      else (inl (mkResult [r] 1 0), (t ++ [r])%list)
  | Q_select_by_id i =>
      let found := filter (has_id i) t in
      (inl (mkResult found (List.length found) 0), t)
  | Q_count w =>
      (inl (mkResult [] 1 (Z.of_nat (List.length (filter (has_status w) t)))), t)
  | Q_select w ident dir limit offset =>
      match resolve_column ident, parse_direction dir with
      | None, _ =>
          (inr (db_error ("column " ++ fold_identifier ident ++ " does not exist")), t)
      | _, None => (inr (db_error "syntax error"), t)
      | Some c, Some d =>
          if negative limit then (inr (db_error "LIMIT must not be negative"), t)
          else if negative offset then (inr (db_error "OFFSET must not be negative"), t)
          else
            let found :=
              limit_rows limit (offset_rows offset
                (order_by c d (filter (has_status w) t))) in
            (inl (mkResult found (List.length found) 0), t)
      end
  | Q_update sets i =>
      let t' := map (fun r => if has_id i r then apply_sets sets r else r) t in
      let changed := filter (has_id i) t' in
      (inl (mkResult changed (List.length changed) 0), t')
  | Q_delete i =>
      let gone := filter (has_id i) t in
      (inl (mkResult [] (List.length gone) 0), filter (fun r => negb (has_id i r)) t)
  end.

(* ===================================================================== *)
(** ** The BullMQ queue as the code configures it (QueueService.ts, 24-35) *)
(* ===================================================================== *)

Module TranscriptionJobData.
Record t := mk {
  jobId : string;
  filePath : string;
  language : option string;
  model : string
}.
End TranscriptionJobData.

(** A queue entry ([BullJob<TranscriptionJobData>]). *)
Record BullJob := mkBullJob {
  bull_id : string;
  data : TranscriptionJobData.t;
  attemptsMade : nat;
  failedReason : option string
}.

(** The states a BullMQ entry is in; [delayed] entries carry the time at
    which they become ready again. The retained [completed] and [failed]
    entries are kept latest first. *)
Record BullQueue := mkQueue {
  waiting : list BullJob;
  delayed : list (Z * BullJob);
  active : list BullJob;
  completed : list BullJob;
  failed : list BullJob;
  added : nat
}.

Definition empty_queue : BullQueue := mkQueue [] [] [] [] [] 0.

(** [defaultJobOptions] of the constructor. *)
Definition removeOnComplete : nat := 10.
Definition removeOnFail : nat := 5.
Definition attempts : nat := 3.
Definition backoff_delay : Z := 5000.

(** BullMQ's built-in [exponential] strategy: the delay before the retry
    that follows the [n]-th failed attempt is [2^(n-1) * delay]. *)
Definition exponential_backoff (n : nat) : Z :=
  2 ^ (Z.of_nat n - 1) * backoff_delay.

(* ===================================================================== *)
(** ** The world the asynchronous code runs in *)
(* ===================================================================== *)

(** What [axios.post] to the transcription service does. *)
Inductive AxiosOutcome :=
| Responded (data_success : bool) (data_transcription : option string)
            (data_transcription_file : option string) (data_error : option string)
| AxiosError (err_code : option string)
             (err_response : option (Z * option string * string))
               (* status, data?.error, statusText *)
             (err_message : string)
| Thrown (err_message : option string).
    (* any other exception; [None] when it is not an [Error] instance *)

Record World := mkWorld {
  jobs : Table;                     (* the [jobs] table *)
  journal : list Table;             (* the table after each write, latest first *)
  clock : Z;                        (* [Date.now()], [CURRENT_TIMESTAMP] *)
  files : string -> bool;           (* [fs.existsSync] *)
  uuid : nat -> string;             (* what [uuidv4()] draws *)
  drawn : nat;                      (* number of draws so far *)
  network : nat -> AxiosOutcome;    (* outcome of the k-th POST /transcribe *)
  posts : nat;                      (* number of POSTs so far *)
  (* calls of [transcribe] with what they returned or threw, latest first *)
  invocations : list (WhisperServiceRequest * (WhisperServiceResponse + Error));
  queue : BullQueue
}.

Definition set_jobs (t : Table) (w : World) : World :=
  mkWorld t (journal w) (clock w) (files w) (uuid w) (drawn w)
          (network w) (posts w) (invocations w) (queue w).

Definition push_journal (t : Table) (w : World) : World :=
  mkWorld (jobs w) (t :: journal w) (clock w) (files w) (uuid w) (drawn w)
          (network w) (posts w) (invocations w) (queue w).

Definition set_drawn (n : nat) (w : World) : World :=
  mkWorld (jobs w) (journal w) (clock w) (files w) (uuid w) n
          (network w) (posts w) (invocations w) (queue w).

Definition set_posts (n : nat) (w : World) : World :=
  mkWorld (jobs w) (journal w) (clock w) (files w) (uuid w) (drawn w)
          (network w) n (invocations w) (queue w).

Definition set_invocations
    (l : list (WhisperServiceRequest * (WhisperServiceResponse + Error)))
    (w : World) : World :=
  mkWorld (jobs w) (journal w) (clock w) (files w) (uuid w) (drawn w)
          (network w) (posts w) l (queue w).

Definition set_queue (q : BullQueue) (w : World) : World :=
  mkWorld (jobs w) (journal w) (clock w) (files w) (uuid w) (drawn w)
          (network w) (posts w) (invocations w) q.

Definition set_clock (c : Z) (w : World) : World :=
  mkWorld (jobs w) (journal w) c (files w) (uuid w) (drawn w)
          (network w) (posts w) (invocations w) (queue w).

(** A promise: it resolves with a value or rejects with an error, and the
    effects done before a rejection stay done. *)
Definition M (A : Type) : Type := World -> (A + Error) * World.

Definition ret {A} (a : A) : M A := fun w => (inl a, w).

Definition throw {A} (e : Error) : M A := fun w => (inr e, w).

Definition bind {A B} (c : M A) (k : A -> M B) : M B :=
  fun w =>
    match c w with
    | (inl a, w') => k a w'
    | (inr e, w') => (inr e, w')
    end.

Definition try_catch {A} (c : M A) (h : Error -> M A) : M A :=
  fun w =>
    match c w with
    | (inl a, w') => (inl a, w')
    | (inr e, w') => h e w'
    end.

Declare Scope async_scope.
Delimit Scope async_scope with async.
Notation "x <- c ;; k" := (bind c (fun x => k))
  (at level 61, c at next level, right associativity) : async_scope.
Notation "c ;;; k" := (bind c (fun _ => k))
  (at level 61, right associativity) : async_scope.
Local Open Scope async_scope.

Definition is_write (q : Query) : bool :=
  match q with
  | Q_insert _ | Q_update _ _ | Q_delete _ => true
  | _ => false
  end.

(** [pool.query(text, values)]. *)
Definition pool_query (q : Query) : M QueryResult :=
  fun w =>
    let (r, t') := exec_query q (jobs w) in
    match r with
    | inl res =>
        (inl res, if is_write q then push_journal t' (set_jobs t' w) else w)
    | inr e => (inr e, w)
    end.

Definition uuidv4 : M string :=
  fun w => (inl (uuid w (drawn w)), set_drawn (S (drawn w)) w).

Definition new_Date : M Z := fun w => (inl (clock w), w).

Definition fs_existsSync (p : string) : M bool := fun w => (inl (files w p), w).

Definition set_files (f : string -> bool) (w : World) : World :=
  mkWorld (jobs w) (journal w) (clock w) f (uuid w) (drawn w)
          (network w) (posts w) (invocations w) (queue w).

(** The file system without the file [p]. *)
Definition removed (p : string) (f : string -> bool) : string -> bool :=
  fun q => if String.eqb q p then false else f q.

(** [fs.unlinkSync(p)]: it throws when there is no such file, or when the
    file system refuses to remove it ([denied p], e.g. EPERM or EBUSY);
    otherwise the file is gone. *)
Definition fs_unlinkSync (denied : string -> bool) (p : string) : M unit :=
  fun w =>
    if negb (files w p)
    then (inr (new_Error ("ENOENT: no such file or directory, unlink " ++ p)), w)
    else if denied p
    then (inr (new_Error ("EPERM: operation not permitted, unlink " ++ p)), w)
    else (inl tt, set_files (removed p (files w)) w).

(* ===================================================================== *)
(** ** repositories/JobRepository.ts *)
(* ===================================================================== *)

Inductive OrderByField := by_createdAt | by_updatedAt.

Definition OrderByField_text (f : OrderByField) : string :=
  match f with by_createdAt => "createdAt" | by_updatedAt => "updatedAt" end.

Definition Direction_text (d : Direction) : string :=
  match d with ASC => "ASC" | DESC => "DESC" end.

Module FindAllOptions.
Record t := mk {
  page : option Z;
  limit : option Z;
  status : option JobStatus;
  orderBy : option OrderByField;
  orderDirection : option Direction
}.
(** [options = {}]. *)
Definition default : t := mk None None None None None.
End FindAllOptions.

Definition default_to {A} (o : option A) (d : A) : A :=
  match o with Some v => v | None => d end.

Module JobRepository.

Definition mapRowToJob (row : Row) : Job :=
  {| id := row_id row;
     originalFilename := original_filename row;
     filePath := file_path row;
     fileType := file_type row;
     fileSize := file_size row;
     status := row_status row;
     transcriptionText := or_undefined (transcription_text row);
     transcriptionFilePath := or_undefined (transcription_file_path row);
     language := or_undefined (row_language row);
     model := row_model row;
     createdAt := created_at row;
     updatedAt := updated_at row;
     completedAt := completed_at row;
     errorMessage := or_undefined (error_message row) |}.

Definition create (d : CreateJobData.t) : M Job :=
  i <- uuidv4 ;;
  now <- new_Date ;;
  let values :=
    mkRow i (CreateJobData.originalFilename d) (CreateJobData.filePath d)
          (CreateJobData.fileType d) (CreateJobData.fileSize d)
          (CreateJobData.language d) (CreateJobData.model d) PENDING
          None None None now now None in
  try_catch
    (result <- pool_query (Q_insert values) ;;
     match rows result with
     | row :: _ => ret (mapRowToJob row)
     | [] => throw (new_Error "Cannot read properties of undefined")
     end)
    (fun e => throw e).

Definition findById (i : string) : M (option Job) :=
  try_catch
    (result <- pool_query (Q_select_by_id i) ;;
     match rows result with
     | [] => ret None
     | row :: _ => ret (Some (mapRowToJob row))
     end)
    (fun e => throw e).

Definition findAll (options : FindAllOptions.t) : M (list Job * Z) :=
  let page := default_to (FindAllOptions.page options) 1 in
  let limit := default_to (FindAllOptions.limit options) 10 in
  let status := FindAllOptions.status options in
  let orderBy := default_to (FindAllOptions.orderBy options) by_createdAt in
  let orderDirection := default_to (FindAllOptions.orderDirection options) DESC in
  let offset := (page - 1) * limit in
  let whereClause := option_map JobStatus_value status in
  (* Get total count *)
  countResult <- pool_query (Q_count whereClause) ;;
  let total := count countResult in
  (* Get paginated results *)
  try_catch
    (result <- pool_query
       (Q_select whereClause (OrderByField_text orderBy)
                 (Direction_text orderDirection) (Some limit) (Some offset)) ;;
     ret (map mapRowToJob (rows result), total))
    (fun e => throw e).

Definition update (i : string) (d : UpdateJobData.t) : M (option Job) :=
  let setParts : list SetPart := [] in
  (* Build dynamic UPDATE query *)
  let setParts :=
    match UpdateJobData.status d with
    | Some v => (setParts ++ [set_status v])%list | None => setParts end in
  let setParts :=
    match UpdateJobData.transcriptionText d with
    | Some v => (setParts ++ [set_transcription_text v])%list | None => setParts end in
  let setParts :=
    match UpdateJobData.transcriptionFilePath d with
    | Some v => (setParts ++ [set_transcription_file_path v])%list | None => setParts end in
  let setParts :=
    match UpdateJobData.errorMessage d with
    | Some v => (setParts ++ [set_error_message v])%list | None => setParts end in
  let setParts :=
    match UpdateJobData.completedAt d with
    | Some v => (setParts ++ [set_completed_at v])%list | None => setParts end in
  if Nat.eqb (List.length setParts) 0 then throw (new_Error "No fields to update")
  else
    (* Always update updated_at *)
    now <- new_Date ;;
    let setParts := (setParts ++ [set_updated_at now])%list in
    try_catch
      (result <- pool_query (Q_update setParts i) ;;
       match rows result with
       | [] => ret None
       | row :: _ => ret (Some (mapRowToJob row))
       end)
      (fun e => throw e).

Definition delete (i : string) : M bool :=
  try_catch
    (result <- pool_query (Q_delete i) ;;
     ret (Nat.ltb 0 (rowCount result)))
    (fun e => throw e).

Definition findByStatus (s : JobStatus) : M (list Job) :=
  try_catch
    (result <- pool_query
       (Q_select (Some (JobStatus_value s)) "created_at" "ASC" None None) ;;
     ret (map mapRowToJob (rows result)))
    (fun e => throw e).

End JobRepository.

(* ===================================================================== *)
(** ** models/Job.ts: the static model the queue worker writes through *)
(* ===================================================================== *)

Module JobModel.

Definition mapRowToJob (row : Row) : Job :=
  {| id := row_id row;
     originalFilename := original_filename row;
     filePath := file_path row;
     fileType := file_type row;
     fileSize := file_size row;
     status := row_status row;
     transcriptionText := transcription_text row;
     transcriptionFilePath := transcription_file_path row;
     language := row_language row;
     model := row_model row;
     createdAt := created_at row;
     updatedAt := updated_at row;
     completedAt := completed_at row;
     errorMessage := error_message row |}.

Definition create (d : CreateJobData.t) : M Job :=
  i <- uuidv4 ;;
  (* created_at and updated_at are CURRENT_TIMESTAMP *)
  now <- new_Date ;;
  let values :=
    mkRow i (CreateJobData.originalFilename d) (CreateJobData.filePath d)
          (CreateJobData.fileType d) (CreateJobData.fileSize d)
          (CreateJobData.language d) (CreateJobData.model d) PENDING
          None None None now now None in
  try_catch
    (result <- pool_query (Q_insert values) ;;
     match rows result with
     | row :: _ => ret (mapRowToJob row)
     | [] => throw (new_Error "Cannot read properties of undefined")
     end)
    (fun _ => throw (new_Error "Failed to create job")).

Definition findById (i : string) : M (option Job) :=
  try_catch
    (result <- pool_query (Q_select_by_id i) ;;
     match rows result with
     | row :: _ => ret (Some (mapRowToJob row))
     | [] => ret None
     end)
    (fun _ => throw (new_Error "Failed to find job")).

Definition delete (i : string) : M bool :=
  try_catch
    (result <- pool_query (Q_delete i) ;;
     ret (Nat.ltb 0 (rowCount result)))
    (fun _ => throw (new_Error "Failed to delete job")).

Definition findAll (limit : Z) : M (list Job) :=
  try_catch
    (result <- pool_query (Q_select None "created_at" "DESC" (Some limit) None) ;;
     ret (map mapRowToJob (rows result)))
    (fun _ => throw (new_Error "Failed to find jobs")).

Definition update (i : string) (d : UpdateJobData.t) : M (option Job) :=
  let setClauses : list SetPart := [] in
  let setClauses :=
    match UpdateJobData.status d with
    | Some v => (setClauses ++ [set_status v])%list | None => setClauses end in
  let setClauses :=
    match UpdateJobData.transcriptionText d with
    | Some v => (setClauses ++ [set_transcription_text v])%list | None => setClauses end in
  let setClauses :=
    match UpdateJobData.transcriptionFilePath d with
    | Some v => (setClauses ++ [set_transcription_file_path v])%list
    | None => setClauses end in
  let setClauses :=
    match UpdateJobData.errorMessage d with
    | Some v => (setClauses ++ [set_error_message v])%list | None => setClauses end in
  let setClauses :=
    match UpdateJobData.completedAt d with
    | Some v => (setClauses ++ [set_completed_at v])%list | None => setClauses end in
  if Nat.eqb (List.length setClauses) 0
  then throw (new_Error "No data provided for update")
  else
    (* updated_at = CURRENT_TIMESTAMP *)
    now <- new_Date ;;
    let setClauses := (setClauses ++ [set_updated_at now])%list in
    try_catch
      (result <- pool_query (Q_update setClauses i) ;;
       match rows result with
       | [] => ret None
       | row :: _ => ret (Some (mapRowToJob row))
       end)
      (fun _ => throw (new_Error "Failed to update job")).

End JobModel.

(* ===================================================================== *)
(** ** interfaces/IWhisperService.ts and services/WhisperService.ts *)
(* ===================================================================== *)

Class IWhisperService := {
  transcribe : WhisperServiceRequest -> M WhisperServiceResponse
}.

(** The number [n] as [`${n}`] prints it. *)
Definition show_Z (n : Z) : string :=
  NilZero.string_of_int (Z.to_int n).

(** [axios.post(url, formData, ...)]: resolves with [response.data] on a
    2xx answer and rejects otherwise. *)
Definition axios_post : M (bool * option string * option string * option string) :=
  fun w =>
    let w' := set_posts (S (posts w)) w in
    match network w (posts w) with
    | Responded ok text file err => (inl (ok, text, file, err), w')
    | AxiosError c r msg => (inr (mkError AxiosErrorClass msg None c r), w')
    | Thrown (Some msg) => (inr (new_Error msg), w')
    | Thrown None => (inr (mkError NotAnError "" None None None), w')
    end.

Definition code_is (e : Error) (c : string) : bool :=
  match code e with Some c' => String.eqb c' c | None => false end.

(** [error instanceof Error ? error.message : 'Unknown error occurred']. *)
Definition message_or_unknown (e : Error) : string :=
  match cls e with
  | NotAnError => "Unknown error occurred"
  | _ => message e
  end.

Definition failure (reason : string) : WhisperServiceResponse :=
  mkResponse false None None (Some reason).

Module WhisperService.

Definition transcribeStatic (request : WhisperServiceRequest)
  : M WhisperServiceResponse :=
  try_catch
    (let filePath := req_filePath request in
     (* Check if file exists *)
     found <- fs_existsSync filePath ;;
     if negb found then throw (new_Error ("File not found: " ++ filePath))
     else
       (* Make request to WhisperX service *)
       resp <- axios_post ;;
       let '(ok, text, file, err) := resp in
       if ok then ret (mkResponse true text file None)
       else ret (failure (or_else err "Unknown error from WhisperX service")))
    (fun e =>
       match cls e with
       | AxiosErrorClass =>
           if code_is e "ECONNREFUSED"
           then ret (failure "WhisperX service is not available")
           else
             match response e with
             | Some (st, data_error, statusText) =>
                 ret (failure ("WhisperX service error: " ++ show_Z st ++ " - "
                               ++ or_else data_error statusText))
             | None =>
                 if code_is e "ETIMEDOUT"
                 then ret (failure "WhisperX service request timeout")
                 else ret (failure (message_or_unknown e))
             end
       | _ => ret (failure (message_or_unknown e))
       end).

End WhisperService.

(** [transcribe(request) { return WhisperService.transcribeStatic(request) }]. *)
#[export] Instance WhisperService_instance : IWhisperService :=
  {| transcribe := WhisperService.transcribeStatic |}.

(** A call of the gateway through the interface; the call and its outcome
    are recorded in [invocations]. *)
Definition invoke {whisperService : IWhisperService}
    (request : WhisperServiceRequest) : M WhisperServiceResponse :=
  fun w =>
    let (r, w') := transcribe request w in
    (r, set_invocations ((request, r) :: invocations w') w').

(* ===================================================================== *)
(** ** services/QueueService.ts *)
(* ===================================================================== *)

Module QueueService.
Section WithGateway.

(** [this.whisperService], chosen by the constructor. *)
Context {whisperService : IWhisperService}.

(** [transcriptionQueue.add('transcribe', data, { priority: 1 })]: every
    entry has the same priority, so the wait list is first in, first out. *)
Definition addTranscriptionJob (d : TranscriptionJobData.t) : M string :=
  fun w =>
    let q := queue w in
    let j := mkBullJob (show_Z (Z.of_nat (S (added q)))) d 0 None in
    (inl (bull_id j),
     set_queue (mkQueue (waiting q ++ [j])%list (delayed q) (active q)
                        (completed q) (failed q) (S (added q))) w).

Definition processTranscriptionJob (job : BullJob) : M unit :=
  let jobId := TranscriptionJobData.jobId (data job) in
  let filePath := TranscriptionJobData.filePath (data job) in
  let language := TranscriptionJobData.language (data job) in
  let model := TranscriptionJobData.model (data job) in
  try_catch
    ((* Update job status to processing *)
     JobModel.update jobId
       (UpdateJobData.mk (Some PROCESSING) None None None None) ;;;
     (* Call WhisperX service *)
     result <- invoke (mkRequest filePath language model jobId) ;;
     if andb (success result) (truthy (transcription result)) then
       (* Update job with successful result *)
       now <- new_Date ;;
       JobModel.update jobId
         (UpdateJobData.mk (Some COMPLETED) (transcription result)
                           (transcriptionFile result) None (Some now)) ;;;
       ret tt
     else throw (new_Error (or_else (error result) "Transcription failed")))
    (fun e =>
       (* Update job with error *)
       JobModel.update jobId
         (UpdateJobData.mk (Some FAILED) None None
            (Some (or_else (Some (message e)) "Unknown error occurred")) None) ;;;
       throw e).

Definition getQueueStatus : M QueueStatusResponse :=
  fun w =>
    let q := queue w in
    (inl (mkQueueStatus (List.length (waiting q)) (List.length (active q))
                        (List.length (completed q)) (List.length (failed q))), w).

End WithGateway.
End QueueService.

(* ===================================================================== *)
(** ** The BullMQ worker that runs [processTranscriptionJob] *)
(* ===================================================================== *)

(** The queue library is not part of the repository; what it does with an
    entry is written here as its documentation states it for the options of
    the constructor: a processor that resolves completes the entry, one that
    throws fails the attempt; a failed attempt is retried after the backoff
    while fewer than [attempts] attempts were made; [removeOnComplete] and
    [removeOnFail] bound the finished entries that are kept. The worker is
    created with [concurrency: 2]; an attempt writes the record of its own
    job only, so the attempts are taken here one after the other. *)
Module Bull.

Definition same_entry (j k : BullJob) : bool := String.eqb (bull_id j) (bull_id k).

Definition without (j : BullJob) (l : list BullJob) : list BullJob :=
  filter (fun k => negb (same_entry j k)) l.

(** The processor resolved: the entry is kept among the latest
    [removeOnComplete] completed ones. *)
Definition moveToCompleted (j : BullJob) (q : BullQueue) : BullQueue :=
  mkQueue (waiting q) (delayed q) (without j (active q))
          (firstn removeOnComplete (j :: completed q)) (failed q) (added q).

(** The processor threw [e]: the attempt is counted; while attempts are
    left the entry is delayed by the backoff, otherwise it is kept among
    the latest [removeOnFail] failed ones. *)
Definition moveToFailed (j : BullJob) (e : Error) (now : Z) (q : BullQueue)
  : BullQueue :=
  let j' := mkBullJob (bull_id j) (data j) (S (attemptsMade j)) (Some (message e)) in
  if Nat.ltb (attemptsMade j') attempts
  then mkQueue (waiting q)
               (delayed q ++ [(now + exponential_backoff (attemptsMade j'), j')])%list
               (without j (active q)) (completed q) (failed q) (added q)
  else mkQueue (waiting q) (delayed q) (without j (active q))
               (completed q) (firstn removeOnFail (j' :: failed q)) (added q).

(** The delayed entry that becomes ready first (the earliest listed one
    among equals). *)
Fixpoint earliest (l : list (Z * BullJob)) : option (Z * BullJob) :=
  match l with
  | [] => None
  | (t, j) :: r =>
      match earliest r with
      | Some (t', j') => if Z.leb t t' then Some (t, j) else Some (t', j')
      | None => Some (t, j)
      end
  end.

Definition drop_delayed (j : BullJob) (l : list (Z * BullJob)) : list (Z * BullJob) :=
  filter (fun e => negb (same_entry j (snd e))) l.

(** The next entry a free worker takes: the head of the wait list, or,
    when nothing waits, the first delayed entry once its delay is over
    (the clock moves on to that time). *)
Definition take (w : World) : option (BullJob * World) :=
  let q := queue w in
  match waiting q with
  | j :: rest =>
      Some (j, set_queue (mkQueue rest (delayed q) (j :: active q)
                                  (completed q) (failed q) (added q)) w)
  | [] =>
      match earliest (delayed q) with
      | Some (t, j) =>
          Some (j, set_clock (Z.max (clock w) t)
                     (set_queue (mkQueue [] (drop_delayed j (delayed q))
                                         (j :: active q)
                                         (completed q) (failed q) (added q)) w))
      | None => None
      end
  end.

Section Worker.
Context {whisperService : IWhisperService}.

(** One attempt of an active entry. *)
Definition attempt (j : BullJob) (w : World) : World :=
  match QueueService.processTranscriptionJob j w with
  | (inl _, w') => set_queue (moveToCompleted j (queue w')) w'
  | (inr e, w') => set_queue (moveToFailed j e (clock w') (queue w')) w'
  end.

(** One turn of the worker loop; [None] when the queue is drained. *)
Definition worker_step (w : World) : option World :=
  match take w with
  | Some (j, w') => Some (attempt j w')
  | None => None
  end.

(** [n] turns of the worker loop (fewer if the queue drains before). *)
Fixpoint run (n : nat) (w : World) : World :=
  match n with
  | O => w
  | S k =>
      match worker_step w with
      | Some w' => run k w'
      | None => w
      end
  end.

End Worker.
End Bull.

(* ===================================================================== *)
(** ** services/JobService.ts, wired as in container/Container.ts *)
(* ===================================================================== *)

Module JobService.

Definition createJob (d : CreateJobData.t) : M Job :=
  try_catch
    ((* Validate required fields *)
     if orb (negb (truthy_str (CreateJobData.originalFilename d)))
            (orb (negb (truthy_str (CreateJobData.filePath d)))
                 (negb (truthy_str (CreateJobData.model d))))
     then throw (ValidationError
                   "Missing required fields: originalFilename, filePath, model" None)
     else
       (* Validate file exists *)
       found <- fs_existsSync (CreateJobData.filePath d) ;;
       if negb found then throw (ValidationError "File does not exist" None)
       else
         (* Create job in database *)
         job <- JobRepository.create d ;;
         (* Add to transcription queue *)
         queueJobId <- QueueService.addTranscriptionJob
           (TranscriptionJobData.mk (id job) (filePath job) (language job) (model job)) ;;
         ret job)
    (fun e => throw e).

Definition getJobById (i : string) : M Job :=
  if negb (truthy_str i) then throw (ValidationError "Job ID is required" None)
  else
    job <- JobRepository.findById i ;;
    match job with
    | None => throw (NotFoundError "Job" (Some i))
    | Some j => ret j
    end.

Definition getAllJobs (options : FindAllOptions.t) : M (list Job * Z) :=
  try_catch (JobRepository.findAll options)
    (fun _ => throw (InternalServerError "Failed to retrieve jobs")).

Definition downloadTranscription (i : string) : M (string * string) :=
  job <- getJobById i ;;
  if negb (JobStatus_eqb (status job) COMPLETED)
  then throw (ValidationError "Job is not completed yet" None)
  else
    match transcriptionFilePath job with
    | None => throw (NotFoundError "Transcription file" None)
    | Some p =>
        if negb (truthy_str p) then throw (NotFoundError "Transcription file" None)
        else
          found <- fs_existsSync p ;;
          if negb found then throw (NotFoundError "Transcription file" None)
          else ret (p, "transcription_" ++ originalFilename job ++ ".txt")
    end.

Definition getQueueStatus : M QueueStatusResponse :=
  try_catch QueueService.getQueueStatus
    (fun _ => throw (InternalServerError "Failed to retrieve queue status")).


(** [if (p && fs.existsSync(p)) { fs.unlinkSync(p) }]. *)
Definition unlink_if_exists (denied : string -> bool) (p : option string) : M unit :=
  match p with
  | Some path =>
      if truthy_str path then
        found <- fs_existsSync path ;;
        if found then fs_unlinkSync denied path else ret tt
      else ret tt
  | None => ret tt
  end.

Definition deleteJob (denied : string -> bool) (i : string) : M unit :=
  if negb (truthy_str i) then throw (ValidationError "Job ID is required" None)
  else
    job <- JobRepository.findById i ;;
    match job with
    | None => throw (NotFoundError "Job" (Some i))
    | Some job =>
        (* Delete associated files *)
        try_catch
          (unlink_if_exists denied (Some (filePath job)) ;;;
           unlink_if_exists denied (transcriptionFilePath job))
          (fun _ =>
             (* Continue with database deletion even if file deletion fails *)
             ret tt) ;;;
        deleted <- JobRepository.delete i ;;
        if negb deleted
        then throw (InternalServerError "Failed to delete job from database")
        else ret tt
    end.

Definition getJobsByStatus (s : JobStatus) : M (list Job) :=
  try_catch (JobRepository.findByStatus s)
    (fun _ => throw (InternalServerError "Failed to retrieve jobs by status")).

(** [Promise.all([p1, p2, ...])] on promises that are all started: every one
    runs; when some reject, the result rejects with the rejection that comes
    first, the promises being settled here in the order of the array. *)
Fixpoint Promise_all {A} (ps : list (M A)) : M (list A) :=
  match ps with
  | [] => ret []
  | p :: rest =>
      fun w =>
        match p w with
        | (inl a, w1) =>
            match Promise_all rest w1 with
            | (inl l, w2) => (inl (a :: l), w2)
            | (inr e, w2) => (inr e, w2)
            end
        | (inr e, w1) => (inr e, snd (Promise_all rest w1))
        end
  end.

(** [p.then(f)]. *)
Definition then_ {A B} (p : M A) (f : A -> B) : M B := x <- p ;; ret (f x).

Record JobStatistics := mkJobStatistics {
  stat_total : Z;
  stat_pending : Z;
  stat_processing : Z;
  stat_completed : Z;
  stat_failed : Z
}.

Definition count_of (l : list Job) : Z := Z.of_nat (List.length l).

Definition getJobStatistics : M JobStatistics :=
  try_catch
    (counts <- Promise_all
       [ then_ (JobRepository.findAll FindAllOptions.default) snd;
         then_ (JobRepository.findByStatus PENDING) count_of;
         then_ (JobRepository.findByStatus PROCESSING) count_of;
         then_ (JobRepository.findByStatus COMPLETED) count_of;
         then_ (JobRepository.findByStatus FAILED) count_of ] ;;
     match counts with
     | [total; pending; processing; completed; failed] =>
         ret (mkJobStatistics total pending processing completed failed)
     | _ => throw (new_Error "undefined is not iterable")
     end)
    (fun _ => throw (InternalServerError "Failed to retrieve job statistics")).

End JobService.

(* ===================================================================== *)
(** ** services/DockerWhisperService.ts: the on-demand container *)
(* ===================================================================== *)

(** Calls of [transcribeStatic] interleave at their [await]s, and the idle
    timer runs between them. The static fields and the container are the
    shared state; each call keeps the point at which it is suspended. An
    event resumes one call at its current [await], lets time pass, or runs
    the timer callback. *)
Module DockerWhisperService.

Definition REQUEST_TIMEOUT : Z := 600000.
Definition STARTUP_TIMEOUT : Z := 60000.
Definition IDLE_TIMEOUT : Z := 300000.

(** The container named [whisper-on-demand]: not there, or running with
    its service answering [/health] or not yet. *)
Inductive Container := Absent | Up (healthy : bool).

Definition running (c : Container) : bool :=
  match c with Absent => false | Up _ => true end.

Inductive Pc :=
| AwaitIsRunning            (* [await this.isContainerRunning()] *)
| AwaitRemove               (* startContainer: [docker stop], [docker rm] *)
| AwaitRun                  (* startContainer: [docker run -d ...] *)
| AwaitHealthy (since : Z)  (* startContainer: [await this.waitForHealthy()] *)
| AwaitPost (since : Z)     (* [await axios.post(.../transcribe)] *)
| Returned (ok : bool).     (* the response [{ success: ok, ... }] *)

Record Call := mkCall {
  pc : Pc;
  fileExists : bool;           (* [fs.existsSync(filePath)] *)
  acceptedAt : Z;              (* when [transcribeStatic] was entered *)
  isRunning : option bool;     (* what [isContainerRunning()] answered *)
  healthyAt : option Z;        (* when its own [waitForHealthy()] returned *)
  resetAt : option Z           (* when it ran [scheduleIdleStop()] *)
}.

Record State := mkState {
  container : Container;
  containerStartTime : option Z;
  whisperIdleTimeout : option Z;    (* when the pending timer is due *)
  now : Z;
  calls : list Call;
  starts : nat;                     (* entries of [startContainer] *)
  launched : nat;                   (* successful [docker run]s *)
  idleStops : nat                   (* containers stopped by the idle timer *)
}.

Definition init : State := mkState Absent None None 0 [] 0 0 0.

Inductive Event :=
| Invoke (file_exists : bool)       (* [transcribeStatic(request)] is entered *)
| IsRunningResolved (i : nat)
| RemoveResolved (i : nat)
| RunResolved (i : nat)
| HealthyResolved (i : nat) (ok : bool)
| PostResolved (i : nat) (ok : bool)
| ServiceUp                         (* the service in the container has loaded *)
| Elapse (d : Z)
| IdleTimerFires.

Fixpoint replace_at {A} (i : nat) (x : A) (l : list A) : list A :=
  match l, i with
  | [], _ => []
  | _ :: r, O => x :: r
  | y :: r, S k => y :: replace_at k x r
  end.

Definition set_call (i : nat) (c : Call) (st : State) : State :=
  mkState (container st) (containerStartTime st) (whisperIdleTimeout st) (now st)
          (replace_at i c (calls st)) (starts st) (launched st) (idleStops st).

(** [isContainerRunning()]: does [docker ps -q -f name=... -f status=running]
    list the container? *)
Definition isContainerRunning (st : State) : bool := running (container st).

(** [scheduleIdleStop()]: the pending timer, if any, is cleared and a new
    one is set to fire after [IDLE_TIMEOUT]. *)
Definition scheduleIdleStop (st : State) : State :=
  mkState (container st) (containerStartTime st) (Some (now st + IDLE_TIMEOUT))
          (now st) (calls st) (starts st) (launched st) (idleStops st).

(** [stopContainer()], as the timer callback runs it: [docker stop] and
    [docker rm], then [containerStartTime = null]; when there is no
    container [docker stop] fails and the error is only logged. *)
Definition stopContainer (st : State) : State :=
  match container st with
  | Up _ =>
      mkState Absent None (whisperIdleTimeout st) (now st) (calls st)
              (starts st) (launched st) (S (idleStops st))
  | Absent => st
  end.

(** What a call does, without suspending, once the container is ensured:
    [scheduleIdleStop()], then the file is checked and the request is
    sent. *)
Definition proceed (i : nat) (c : Call) (st : State) : State :=
  let c' := mkCall (if fileExists c then AwaitPost (now st) else Returned false)
                   (fileExists c) (acceptedAt c) (isRunning c) (healthyAt c)
                   (Some (now st)) in
  set_call i c' (scheduleIdleStop st).

Definition with_pc (p : Pc) (c : Call) : Call :=
  mkCall p (fileExists c) (acceptedAt c) (isRunning c) (healthyAt c) (resetAt c).

Definition exec (e : Event) (st : State) : option State :=
  match e with
  | Invoke f =>
      Some (mkState (container st) (containerStartTime st) (whisperIdleTimeout st)
                    (now st)
                    (calls st ++ [mkCall AwaitIsRunning f (now st) None None None])%list
                    (starts st) (launched st) (idleStops st))
  | IsRunningResolved i =>
      match nth_error (calls st) i with
      | Some c =>
          match pc c with
          | AwaitIsRunning =>
              let c' := mkCall (pc c) (fileExists c) (acceptedAt c)
                               (Some (isContainerRunning st))
                               (healthyAt c) (resetAt c) in
              if isContainerRunning st
              then Some (proceed i c' st)
              else
                (* [await this.startContainer()] *)
                Some (mkState (container st) (containerStartTime st)
                              (whisperIdleTimeout st) (now st)
                              (replace_at i (with_pc AwaitRemove c') (calls st))
                              (S (starts st)) (launched st) (idleStops st))
          | _ => None
          end
      | None => None
      end
  | RemoveResolved i =>
      match nth_error (calls st) i with
      | Some c =>
          match pc c with
          | AwaitRemove =>
              (* First, stop any existing container *)
              Some (mkState Absent (containerStartTime st) (whisperIdleTimeout st)
                            (now st) (replace_at i (with_pc AwaitRun c) (calls st))
                            (starts st) (launched st) (idleStops st))
          | _ => None
          end
      | None => None
      end
  | RunResolved i =>
      match nth_error (calls st) i with
      | Some c =>
          match pc c with
          | AwaitRun =>
              match container st with
              | Absent =>
                  Some (mkState (Up false) (Some (now st)) (whisperIdleTimeout st)
                                (now st)
                                (replace_at i (with_pc (AwaitHealthy (now st)) c)
                                            (calls st))
                                (starts st) (S (launched st)) (idleStops st))
              | Up _ =>
                  (* the name is taken: 'Failed to start Whisper service' *)
                  Some (set_call i (with_pc (Returned false) c) st)
              end
          | _ => None
          end
      | None => None
      end
  | HealthyResolved i ok =>
      match nth_error (calls st) i with
      | Some c =>
          match pc c with
          | AwaitHealthy since =>
              if ok then
                match container st with
                | Up true =>
                    Some (proceed i (mkCall (pc c) (fileExists c) (acceptedAt c)
                                            (isRunning c) (Some (now st)) (resetAt c))
                                  st)
                | _ => None
                end
              else if Z.leb STARTUP_TIMEOUT (now st - since)
                   then Some (set_call i (with_pc (Returned false) c) st)
                   else None
          | _ => None
          end
      | None => None
      end
  | PostResolved i ok =>
      match nth_error (calls st) i with
      | Some c =>
          match pc c with
          | AwaitPost since =>
              if andb ok (Z.ltb REQUEST_TIMEOUT (now st - since)) then None
              else Some (set_call i (with_pc (Returned ok) c) st)
          | _ => None
          end
      | None => None
      end
  | ServiceUp =>
      match container st with
      | Up _ =>
          Some (mkState (Up true) (containerStartTime st) (whisperIdleTimeout st)
                        (now st) (calls st) (starts st) (launched st) (idleStops st))
      | Absent => None
      end
  | Elapse d =>
      if Z.ltb d 0 then None
      else Some (mkState (container st) (containerStartTime st)
                         (whisperIdleTimeout st) (now st + d) (calls st)
                         (starts st) (launched st) (idleStops st))
  | IdleTimerFires =>
      match whisperIdleTimeout st with
      | Some due =>
          if Z.leb due (now st) then
            (* the timer is spent; its callback runs this.stopContainer() *)
            Some (stopContainer
                    (mkState (container st) (containerStartTime st) None (now st)
                             (calls st) (starts st) (launched st) (idleStops st)))
          else None
      | None => None
      end
  end.

(** A schedule, from the state [st]; [None] if one of its events cannot
    happen where it stands. *)
Fixpoint run (evs : list Event) (st : State) : option State :=
  match evs with
  | [] => Some st
  | e :: r =>
      match exec e st with
      | Some st' => run r st'
      | None => None
      end
  end.

(** A call is in flight from its entry until it returns. *)
Definition in_flight (c : Call) : bool :=
  match pc c with Returned _ => false | _ => true end.

(** Its request has been sent and the answer is awaited. *)
Definition awaiting_response (c : Call) : bool :=
  match pc c with AwaitPost _ => true | _ => false end.

Definition saw_stopped (c : Call) : bool :=
  match isRunning c with Some false => true | _ => false end.

End DockerWhisperService.

(* ===================================================================== *)
(** ** utils/responseWrapper.ts *)
(* ===================================================================== *)

(** The [data] the handlers send. *)
Inductive Payload :=
| data_absent
| data_null
| data_jobId (i : string)                 (* [{ jobId }] *)
| data_job (j : Job)
| data_jobs (l : list Job) (total : Z)    (* [{ jobs, total }] *)
| data_queue (q : QueueStatusResponse).

(** The [ValidationError] of types/index.ts, an entry of [errors]. *)
Record FieldIssue := mkIssue {
  issue_field : string;
  issue_message : string;
  issue_code : string
}.

(** [res.status(statusCode).json({ success, data, message, errors })]. *)
Record ApiResponse := mkApiResponse {
  http_status : Z;
  api_success : bool;
  api_data : Payload;
  api_message : string;
  api_errors : option (list FieldIssue)
}.

(** [error instanceof AppError]. *)
Definition instanceof_AppError (e : Error) : bool :=
  match cls e with
  | ValidationErrorClass | NotFoundErrorClass | InternalServerErrorClass => true
  | _ => false
  end.

Module ResponseWrapper.

Definition success (d : Payload) (msg : string) (code : Z) : ApiResponse :=
  mkApiResponse code true d msg None.

(** [statusCode: number = 500]: an undefined status is the default. *)
Definition error (msg : string) (code : option Z) (errors : option (list FieldIssue))
  : ApiResponse :=
  mkApiResponse (default_to code 500) false data_absent msg errors.

Definition handleError (e : Error) : ApiResponse :=
  if instanceof_AppError e then error (message e) (statusCode e) None
  else error "Internal server error" (Some 500) None.

Definition created (d : Payload) (msg : string) : ApiResponse := success d msg 201.

Definition badRequest (msg : string) (errors : option (list FieldIssue)) : ApiResponse :=
  error msg (Some 400) errors.

Definition notFound (msg : string) : ApiResponse := error msg (Some 404) None.

Definition conflict (msg : string) : ApiResponse := error msg (Some 409) None.

Definition serviceUnavailable (msg : string) : ApiResponse := error msg (Some 503) None.

End ResponseWrapper.

(* ===================================================================== *)
(** ** middleware/errorHandler.ts *)
(* ===================================================================== *)

(** What [next(error)] hands to the error middleware: an error of the
    code above, or a [MulterError] of the upload middleware. *)
Inductive Raised :=
| raised (e : Error)
| raised_by_multer (multer_code : string) (multer_message : string).

(** [s.includes(sub)]. *)
Fixpoint includes (s sub : string) : bool :=
  if String.prefix sub s then true
  else
    match s with
    | EmptyString => false
    | String _ r => includes r sub
    end.

(** [error.name]: the classes of AppError.ts do not set it. *)
Definition error_name (e : Error) : string :=
  match cls e with
  | DatabaseError => "error"
  | AxiosErrorClass => "AxiosError"
  | _ => "Error"
  end.

Definition dquote : string := String (ascii_of_nat 34) EmptyString.

(** [production] is [process.env.NODE_ENV === 'production']. The result is
    [None] when the handler itself throws: it reads [error.message.includes]
    of a value that is not an [Error]. *)
Definition errorHandler (production : bool) (error : Raised) : option ApiResponse :=
  match error with
  | raised e =>
      (* Handle custom application errors *)
      if instanceof_AppError e
      then Some (ResponseWrapper.error (message e) (statusCode e) None)
      else
        match cls e with
        | NotAnError => None
        | _ =>
            (* Handle specific error types *)
            if includes (message e) "Unsupported file type"
            then Some (ResponseWrapper.badRequest (message e) None)
            (* Handle database errors *)
            else if includes (message e) "duplicate key"
            then Some (ResponseWrapper.conflict "Resource already exists")
            (* Handle validation errors (fallback) *)
            else if String.eqb (error_name e) "ValidationError"
            then Some (ResponseWrapper.badRequest (message e) None)
            (* Don't leak error details in production *)
            else Some (ResponseWrapper.error
                         (if production then "Internal server error" else message e)
                         (Some 500) None)
        end
  | raised_by_multer c msg =>
      (* Handle Multer errors *)
      if String.eqb c "LIMIT_FILE_SIZE"
      then Some (ResponseWrapper.error "File too large. Maximum size is 500MB."
                   (Some 413) None)
      else if String.eqb c "LIMIT_FILE_COUNT"
      then Some (ResponseWrapper.error "Too many files. Only one file is allowed."
                   (Some 400) None)
      else if String.eqb c "LIMIT_UNEXPECTED_FILE"
      then Some (ResponseWrapper.error
                   ("Unexpected field name. Use " ++ dquote ++ "file" ++ dquote
                    ++ " field name.") (Some 400) None)
      else Some (ResponseWrapper.error ("Upload error: " ++ msg) (Some 400) None)
  end.

(* ===================================================================== *)
(** ** middleware/upload.ts and middleware/validation.ts *)
(* ===================================================================== *)

(** [Express.Multer.File], the fields the code reads. *)
Module MulterFile.
Record t := mk {
  originalname : string;
  mimetype : string;
  path : string;
  size : Z
}.
End MulterFile.

(** The parts of an Express request the handlers read. *)
Module Request.
Record t := mk {
  file : option MulterFile.t;       (* [req.file] *)
  body_language : option string;    (* [req.body.language] *)
  body_model : option string;       (* [req.body.model] *)
  params_id : string;               (* [req.params.id] *)
  query_page : option Z;            (* [req.query.page] *)
  query_limit : option Z;
  query_status : option JobStatus
}.
End Request.

(** [list.includes(s)]. *)
Definition list_includes (l : list string) (s : string) : bool :=
  existsb (String.eqb s) l.

Definition allowedMimes : list string :=
  [ (* Audio *)
    "audio/mpeg"; "audio/wav"; "audio/mp4"; "audio/ogg"; "audio/webm"; "audio/x-m4a";
    (* Video *)
    "video/mp4"; "video/mpeg"; "video/quicktime"; "video/x-msvideo"; "video/webm";
    "video/x-ms-wmv" ].

(** [fileFilter(req, file, cb)]: [cb(null, true)] is [inl true], [cb(error)]
    is [inr error]. *)
Definition fileFilter (file : MulterFile.t) : bool + Error :=
  if list_includes allowedMimes (MulterFile.mimetype file) then inl true
  else inr (new_Error ("Unsupported file type: " ++ MulterFile.mimetype file)).

Definition maxSize : Z := 500 * 1024 * 1024.

Definition allowedMimeTypes : list string :=
  [ "audio/mpeg"; "audio/wav"; "audio/mp4"; "audio/ogg";
    "video/mp4"; "video/mpeg"; "video/quicktime"; "video/x-msvideo" ].

(** [validateFileUpload(req, res, next)]: the answer it sends, or [None]
    when it calls [next()]. *)
Definition validateFileUpload (req : Request.t) : option ApiResponse :=
  match Request.file req with
  | None => Some (ResponseWrapper.badRequest "No file provided" None)
  | Some file =>
      (* Check file size (500MB) *)
      if Z.ltb maxSize (MulterFile.size file)
      then Some (ResponseWrapper.badRequest "File too large. Maximum size is 500MB" None)
      (* Check file type *)
      else if negb (list_includes allowedMimeTypes (MulterFile.mimetype file))
      then Some (ResponseWrapper.badRequest
                   "Invalid file type. Supported formats: MP3, WAV, MP4, MOV, AVI, OGG"
                   None)
      else None
  end.

(* ===================================================================== *)
(** ** controllers/JobController.ts *)
(* ===================================================================== *)

(** What goes out on [res]: a JSON body, or a file streamed as an
    attachment. *)
Inductive Reply :=
| json (r : ApiResponse)
| attachment (file_path : string) (file_name : string).

(** A handler answers, or hands an error to [next]. *)
Inductive Handled :=
| sent (r : Reply)
| next_error (e : Error).

(** [try { ... } catch (error) { next(error) }]. *)
Definition or_next (c : M Reply) : World -> Handled * World :=
  fun w =>
    match c w with
    | (inl r, w') => (sent r, w')
    | (inr e, w') => (next_error e, w')
    end.

Module JobController.

Definition uploadFile (req : Request.t) : World -> Handled * World :=
  or_next
    match Request.file req with
    | None => ret (json (ResponseWrapper.badRequest "No file provided" None))
    | Some file =>
        let language := Request.body_language req in
        let model := default_to (Request.body_model req) "base" in
        (* Determine file type *)
        let fileType :=
          if String.prefix "video/" (MulterFile.mimetype file) then VIDEO else AUDIO in
        (* Create job using service *)
        job <- JobService.createJob
          (CreateJobData.mk (MulterFile.originalname file) (MulterFile.path file)
             fileType (MulterFile.size file)
             (match language with
              | Some l => if String.eqb l "auto" then None else language
              | None => language
              end)
             model) ;;
        ret (json (ResponseWrapper.created (data_jobId (id job))
                     "File uploaded successfully and added to transcription queue"))
    end.


Definition getAllJobs (req : Request.t) : World -> Handled * World :=
  or_next
    (result <- JobService.getAllJobs
       (FindAllOptions.mk (Request.query_page req) (Request.query_limit req)
                          (Request.query_status req) None None) ;;
     ret (json (ResponseWrapper.success (data_jobs (fst result) (snd result))
                  "Jobs retrieved successfully" 200))).

Definition deleteJob (denied : string -> bool) (req : Request.t)
  : World -> Handled * World :=
  or_next
    (JobService.deleteJob denied (Request.params_id req) ;;;
     ret (json (ResponseWrapper.success data_null "Job deleted successfully" 200))).

Definition downloadTranscription (req : Request.t) : World -> Handled * World :=
  or_next
    (found <- JobService.downloadTranscription (Request.params_id req) ;;
     ret (attachment (fst found) (snd found))).

Definition getQueueStatus (req : Request.t) : World -> Handled * World :=
  or_next
    (status <- JobService.getQueueStatus ;;
     ret (json (ResponseWrapper.success (data_queue status)
                  "Queue status retrieved successfully" 200))).

End JobController.

(** A handler followed by the error middleware of the server
    ([app.use(errorHandler)]); [None] when the error middleware throws. *)
Definition answered (production : bool) (h : World -> Handled * World)
  : World -> option Reply * World :=
  fun w =>
    match h w with
    | (sent r, w') => (Some r, w')
    | (next_error e, w') => (option_map json (errorHandler production (raised e)), w')
    end.

(** [validateFileUpload, JobController.uploadFile] of the upload route
    (routes/jobs.ts, 11), once the upload middleware has stored the file. *)
Definition upload_route (production : bool) (req : Request.t)
  : World -> option Reply * World :=
  fun w =>
    match validateFileUpload req with
    | Some r => (Some (json r), w)
    | None => answered production (JobController.uploadFile req) w
    end.

(* ===================================================================== *)
(** ** Vocabulary of the properties *)
(* ===================================================================== *)

(** The assignments an update with the fields [d] sends, before the one of
    [updated_at]. *)
Definition set_parts (d : UpdateJobData.t) : list SetPart :=
  ((match UpdateJobData.status d with Some v => [set_status v] | None => [] end)
   ++ (match UpdateJobData.transcriptionText d with
       | Some v => [set_transcription_text v] | None => [] end)
   ++ (match UpdateJobData.transcriptionFilePath d with
       | Some v => [set_transcription_file_path v] | None => [] end)
   ++ (match UpdateJobData.errorMessage d with
       | Some v => [set_error_message v] | None => [] end)
   ++ (match UpdateJobData.completedAt d with
       | Some v => [set_completed_at v] | None => [] end))%list.

(** The table after [UPDATE jobs SET ... WHERE id = i]. *)
Definition update_table (sets : list SetPart) (i : string) (t : Table) : Table :=
  map (fun r => if has_id i r then apply_sets sets r else r) t.

(** The supplied value of a field, or else the stored one. *)
Definition supplied_or {A} (o : option A) (old : option A) : option A :=
  match o with Some v => Some v | None => old end.

(** [r'] is [r] with exactly the supplied fields of [d] replaced and
    [updated_at] set to [now]. *)
Definition updated_as (d : UpdateJobData.t) (now : Z) (r r' : Row) : Prop :=
  row_id r' = row_id r /\
  original_filename r' = original_filename r /\
  file_path r' = file_path r /\
  file_type r' = file_type r /\
  file_size r' = file_size r /\
  row_language r' = row_language r /\
  row_model r' = row_model r /\
  created_at r' = created_at r /\
  row_status r' = default_to (UpdateJobData.status d) (row_status r) /\
  transcription_text r' =
    supplied_or (UpdateJobData.transcriptionText d) (transcription_text r) /\
  transcription_file_path r' =
    supplied_or (UpdateJobData.transcriptionFilePath d) (transcription_file_path r) /\
  error_message r' = supplied_or (UpdateJobData.errorMessage d) (error_message r) /\
  completed_at r' = supplied_or (UpdateJobData.completedAt d) (completed_at r) /\
  updated_at r' = now.

(** The stored record of the job [i], if any. *)
Definition record_of (i : string) (t : Table) : option Row := find (has_id i) t.

Definition status_of (i : string) (t : Table) : option JobStatus :=
  option_map row_status (record_of i t).


(** Every step of the list is a step of [R]. *)
Fixpoint chain {A} (R : A -> A -> Prop) (l : list A) : Prop :=
  match l with
  | a :: r => match r with b :: _ => R a b | [] => True end /\ chain R r
  | [] => True
  end.



(** What a gateway may touch: not the store, its journal, the queue, the
    record of the calls, the files or the behaviour of the network. *)
Class GatewayFrame (svc : IWhisperService) : Prop := {
  frame_jobs : forall r w, jobs (snd (transcribe r w)) = jobs w;
  frame_journal : forall r w, journal (snd (transcribe r w)) = journal w;
  frame_queue : forall r w, queue (snd (transcribe r w)) = queue w;
  frame_invocations : forall r w, invocations (snd (transcribe r w)) = invocations w;
  frame_files : forall r w, files (snd (transcribe r w)) = files w;
  frame_network : forall r w, network (snd (transcribe r w)) = network w
}.

(** The message the worker stores with the status Failed. *)
Definition stored_message (e : Error) : string :=
  or_else (Some (message e)) "Unknown error occurred".

(** The three writes of the worker. *)
Definition d_processing : UpdateJobData.t :=
  UpdateJobData.mk (Some PROCESSING) None None None None.

Definition d_completed (result : WhisperServiceResponse) (now : Z) : UpdateJobData.t :=
  UpdateJobData.mk (Some COMPLETED) (transcription result)
                   (transcriptionFile result) None (Some now).

Definition d_failed (e : Error) : UpdateJobData.t :=
  UpdateJobData.mk (Some FAILED) None None
                   (Some (stored_message e)) None.

(** The world after the update [d] of the job [i] through the model. *)
Definition mark (i : string) (d : UpdateJobData.t) (w : World) : World :=
  let t' := update_table (set_parts d ++ [set_updated_at (clock w)]) i (jobs w) in
  push_journal t' (set_jobs t' w).

(** Did the gateway deliver a transcription, as the worker reads its result? *)
Definition delivered (result : WhisperServiceResponse) : bool :=
  andb (success result) (truthy (transcription result)).

(** The reason the worker stores for a result that is no transcription. *)
Definition reason_of (result : WhisperServiceResponse) : string :=
  or_else (error result) "Transcription failed".

(** The error the worker catches for the outcome [out] of the gateway call,
    if any: what the gateway threw, or the error the worker throws itself
    for a result that is no transcription. *)
Definition failure_of (out : WhisperServiceResponse + Error) : option Error :=
  match out with
  | inl result =>
      if delivered result then None else Some (new_Error (reason_of result))
  | inr e => Some e
  end.

(** The request of a queue entry. *)
Definition request_of (j : BullJob) : WhisperServiceRequest :=
  mkRequest (TranscriptionJobData.filePath (data j))
            (TranscriptionJobData.language (data j))
            (TranscriptionJobData.model (data j))
            (TranscriptionJobData.jobId (data j)).

(** The identifier of the job a queue entry is for. *)
Definition job_of (j : BullJob) : string := TranscriptionJobData.jobId (data j).

(** The outcome of the gateway call of an attempt of [j] begun in [w], and
    the world in which the call, now recorded, has returned. *)
Definition gateway_outcome {svc : IWhisperService} (j : BullJob) (w : World)
  : WhisperServiceResponse + Error :=
  fst (transcribe (request_of j) (mark (job_of j) d_processing w)).

Definition after_gateway {svc : IWhisperService} (j : BullJob) (w : World) : World :=
  let w1 := mark (job_of j) d_processing w in
  set_invocations ((request_of j, gateway_outcome j w) :: invocations w1)
                  (snd (transcribe (request_of j) w1)).


(** A world with one Pending job, stored and enqueued, whose file system
    and network behave as [fs] and [net]. *)
Definition demo_row : Row :=
  mkRow "job-1" "talk.mp3" "/app/uploads/talk.mp3" AUDIO 1024 (Some "en") "base"
        PENDING None None None 0 0 None.

Definition demo_entry : BullJob :=
  mkBullJob "1"
    (TranscriptionJobData.mk "job-1" "/app/uploads/talk.mp3" (Some "en") "base")
    0 None.

Definition demo_world (fs : string -> bool) (net : nat -> AxiosOutcome) : World :=
  mkWorld [demo_row] [] 0 fs (fun n => "job-" ++ show_Z (Z.of_nat n + 2)) 0 net 0 []
          (mkQueue [demo_entry] [] [] [] [] 1).


(** The uploaded file is gone. *)
Definition missing_file_world : World :=
  demo_world (fun _ => false) (fun _ => Responded true (Some "never reached") None None).


(** The service transcribes. *)
Definition working_world : World :=
  demo_world (fun _ => true)
    (fun _ => Responded true (Some "hello world") (Some "/app/temp/job-1.txt") None).

(** The upload of the stored job. *)
Definition demo_upload : CreateJobData.t :=
  CreateJobData.mk "talk.mp3" "/app/uploads/talk.mp3" AUDIO 1024 (Some "en") "base".

(** A world whose only job is Completed, with its artifact on disk. *)
Definition completed_row : Row :=
  mkRow "job-1" "talk.mp3" "/app/uploads/talk.mp3" AUDIO 1024 (Some "en") "base"
        COMPLETED (Some "hello world") (Some "/app/temp/job-1.txt") None 0 60 (Some 60).

Definition completed_world : World :=
  mkWorld [completed_row] [] 100 (fun _ => true)
          (fun n => "job-" ++ show_Z (Z.of_nat n + 2)) 0
          (fun _ => Responded true (Some "hello world") None None) 0 [] empty_queue.

(** A world with [n] Pending jobs, stored and enqueued in order. *)
Definition nth_row (k : nat) : Row :=
  mkRow ("job-" ++ show_Z (Z.of_nat k)) "talk.mp3" "/app/uploads/talk.mp3" AUDIO 1024
        None "base" PENDING None None None (Z.of_nat k) (Z.of_nat k) None.

Definition nth_entry (k : nat) : BullJob :=
  mkBullJob (show_Z (Z.of_nat k))
    (TranscriptionJobData.mk ("job-" ++ show_Z (Z.of_nat k)) "/app/uploads/talk.mp3"
                             None "base")
    0 None.

Definition busy_world (n : nat) (fs : string -> bool) (net : nat -> AxiosOutcome)
  : World :=
  mkWorld (map nth_row (seq 1 n)) [] 0 fs (fun k => "new-" ++ show_Z (Z.of_nat k)) 0
          net 0 []
          (mkQueue (map nth_entry (seq 1 n)) [] [] [] [] n).

(** Eleven jobs and a service that transcribes each of them. *)
Definition eleven_done : World :=
  busy_world 11 (fun _ => true)
    (fun _ => Responded true (Some "hello world") (Some "/app/temp/out.txt") None).

(** Six jobs whose files are gone. *)
Definition six_lost : World :=
  busy_world 6 (fun _ => false)
    (fun _ => Responded true (Some "never reached") None None).


(** The stored records with the status [s]. *)
Definition with_status (s : JobStatus) (t : Table) : list Row :=
  filter (fun r => JobStatus_eqb (row_status r) s) t.

(** A job as the repository maps it: an empty text is read as
    [undefined]. *)
Definition blank_to_undefined (j : Job) : Job :=
  {| id := id j;
     originalFilename := originalFilename j;
     filePath := filePath j;
     fileType := fileType j;
     fileSize := fileSize j;
     status := status j;
     transcriptionText := or_undefined (transcriptionText j);
     transcriptionFilePath := or_undefined (transcriptionFilePath j);
     language := or_undefined (language j);
     model := model j;
     createdAt := createdAt j;
     updatedAt := updatedAt j;
     completedAt := completedAt j;
     errorMessage := or_undefined (errorMessage j) |}.

(** Two outcomes agree: both are errors, or both are results and the
    second is the first seen through [f]. *)
Definition agree {A} (f : A -> A) (m r : A + Error) : Prop :=
  match m, r with
  | inl a, inl b => b = f a
  | inr _, inr _ => True
  | _, _ => False
  end.

(** The write that ends an attempt whose gateway call had the outcome
    [out]: the result at the time [now], or the failure. *)
Definition final_write (out : WhisperServiceResponse + Error) (now : Z)
  : UpdateJobData.t :=
  match out with
  | inl result =>
      if delivered result then d_completed result now
      else d_failed (new_Error (reason_of result))
  | inr e => d_failed e
  end.

(** The record [r] after an attempt begun at [t1] whose gateway call had
    the outcome [out] and returned at [t2]. *)
Definition attempted (out : WhisperServiceResponse + Error) (t1 t2 : Z) (r : Row) : Row :=
  apply_sets (set_parts (final_write out t2) ++ [set_updated_at t2])
    (apply_sets (set_parts d_processing ++ [set_updated_at t1]) r).

(** The fields of a record that come from the submission. *)
Definition submission (r : Row)
  : string * string * string * FileType * Z * option string * string * Z :=
  (row_id r, original_filename r, file_path r, file_type r, file_size r,
   row_language r, row_model r, created_at r).

(** A world whose only job is Completed and has a second queue entry,
    while its upload is gone. *)
Definition redone_world : World :=
  mkWorld [completed_row] [] 100 (fun _ => false)
          (fun n => "job-" ++ show_Z (Z.of_nat n + 2)) 0
          (fun _ => Responded true (Some "never reached") None None) 0 []
          (mkQueue [demo_entry] [] [] [] [] 1).

(** A result that reports success and gives the worker nothing to store. *)
Definition blank_success (r : WhisperServiceResponse) : Prop :=
  success r = true /\ delivered r = false /\ reason_of r = "Transcription failed".

(** The service answers with success and an empty transcription. *)
Definition blank_world : World :=
  demo_world (fun _ => true) (fun _ => Responded true (Some "") None None).

(** The service refuses the first connection and transcribes afterwards. *)
Definition recovering_world : World :=
  demo_world (fun _ => true)
    (fun k =>
       match k with
       | O => AxiosError (Some "ECONNREFUSED") None "connect ECONNREFUSED 127.0.0.1:8000"
       | S _ => Responded true (Some "hello world") (Some "/app/temp/job-1.txt") None
       end).




(** A WebM recording. *)
Definition webm_file : MulterFile.t :=
  MulterFile.mk "voice.webm" "audio/webm" "/app/uploads/voice.webm" 2048.


(** The queue has nothing left for a worker to take. *)
Definition Drained (w : World) : Prop :=
  waiting (queue w) = [] /\ delayed (queue w) = [].

(** The entry [j] is the only one a worker can take. *)
Definition Next (j : BullJob) (w : World) : Prop :=
  (waiting (queue w) = [j] /\ delayed (queue w) = []) \/
  (waiting (queue w) = [] /\ exists t, delayed (queue w) = [(t, j)]).

(** The entry [j] after [n] counted failures. *)
Definition retried (n : nat) (e : Error) (j : BullJob) : BullJob :=
  mkBullJob (bull_id j) (data j) n (Some (message e)).

(** The entry [j], fresh, is all the queue holds for a worker, and its job
    is stored with the status [s]. *)
Definition fresh_entry (j : BullJob) (s : JobStatus) (w : World) : Prop :=
  status_of (job_of j) (jobs w) = Some s /\
  waiting (queue w) = [j] /\ delayed (queue w) = [] /\ attemptsMade j = 0%nat.

(** Three attempts of the entry [j] from the world [w], whose gateway calls
    returned [r1], [r2] and [r3], none a transcription: each attempt calls
    the gateway once and stores Failed at once; the first two are followed
    by a retry delayed by the backoff; after the third the entry is failed
    for good, whatever number [n >= attempts] of turns the worker takes. *)
Definition exhausts_attempts {svc : IWhisperService} (j : BullJob) (w : World)
    (r1 r2 r3 : WhisperServiceResponse) : Prop :=
  (invocations (Bull.run 1 w) = (request_of j, inl r1) :: invocations w /\
   status_of (job_of j) (jobs (Bull.run 1 w)) = Some FAILED /\
   waiting (queue (Bull.run 1 w)) = [] /\
   delayed (queue (Bull.run 1 w)) =
     [(clock (Bull.run 1 w) + exponential_backoff 1,
       retried 1 (new_Error (reason_of r1)) j)]) /\
  (invocations (Bull.run 2 w) =
     (request_of j, inl r2) :: (request_of j, inl r1) :: invocations w /\
   status_of (job_of j) (jobs (Bull.run 2 w)) = Some FAILED /\
   waiting (queue (Bull.run 2 w)) = [] /\
   delayed (queue (Bull.run 2 w)) =
     [(clock (Bull.run 2 w) + exponential_backoff 2,
       retried 2 (new_Error (reason_of r2)) j)]) /\
  (forall n, (attempts <= n)%nat ->
     invocations (Bull.run n w) =
       (request_of j, inl r3) :: (request_of j, inl r2)
         :: (request_of j, inl r1) :: invocations w /\
     Drained (Bull.run n w) /\
     status_of (job_of j) (jobs (Bull.run n w)) = Some FAILED /\
     option_map error_message (record_of (job_of j) (jobs (Bull.run n w))) =
       Some (Some (reason_of r3)) /\
     failed (queue (Bull.run n w)) =
       firstn removeOnFail
              (retried 3 (new_Error (reason_of r3)) j :: failed (queue w)) /\
     map (status_of (job_of j)) (journal (Bull.run n w)) =
       Some FAILED :: Some PROCESSING :: Some FAILED :: Some PROCESSING
         :: Some FAILED :: Some PROCESSING
         :: map (status_of (job_of j)) (journal w)).

(** The queue retains no more finished entries than it is configured to. *)
Definition within_retention (q : BullQueue) : Prop :=
  (List.length (completed q) <= removeOnComplete)%nat /\
  (List.length (failed q) <= removeOnFail)%nat.

(** The counts of the entries the queue holds. *)
Definition queue_counts (q : BullQueue) : QueueStatusResponse :=
  mkQueueStatus (List.length (waiting q)) (List.length (active q))
                (List.length (completed q)) (List.length (failed q)).

(** *** The on-demand container *)

Module DockerFacts.
Import DockerWhisperService.

Definition count_calls (f : Call -> bool) (l : list Call) : nat :=
  List.length (filter f l).

(** The call ran [docker run] itself, with or without success. *)
Definition past_run (c : Call) : bool :=
  andb (saw_stopped c)
       (match pc c with
        | AwaitHealthy _ | AwaitPost _ | Returned _ => true
        | _ => false
        end).

(** What a call knows at each of its suspension points. *)
Definition call_ok (c : Call) : Prop :=
  match pc c with
  | AwaitIsRunning => isRunning c = None
  | AwaitRemove | AwaitRun | AwaitHealthy _ => isRunning c = Some false
  | AwaitPost _ =>
      isRunning c = Some true \/ (isRunning c = Some false /\ healthyAt c <> None)
  | Returned _ => isRunning c <> None
  end.

(** A call that sends its request has found the container running, or has
    started it and seen its own health wait return. *)
Definition ensured (c : Call) : Prop :=
  forall since, pc c = AwaitPost since ->
    isRunning c = Some true \/ (isRunning c = Some false /\ healthyAt c <> None).

(** The call restarted the idle timer when it sent its request; so has
    every call that was served. *)
Definition reset_on_post (c : Call) : Prop :=
  match pc c with
  | AwaitPost since => resetAt c = Some since
  | Returned true => resetAt c <> None
  | _ => True
  end.

(** The idle timeout has run out since the call restarted the timer. *)
Definition idle_since (t : Z) (c : Call) : Prop :=
  forall r, resetAt c = Some r -> r + IDLE_TIMEOUT <= t.

Definition start_inv (st : State) : Prop :=
  Forall call_ok (calls st) /\
  starts st = count_calls saw_stopped (calls st) /\
  (launched st <= count_calls past_run (calls st))%nat.

(** No call has restarted the timer later than the time [t]. *)
Definition reset_by (t : Z) (c : Call) : Prop :=
  forall r, resetAt c = Some r -> r <= t.

(** At the time [t], with the timer due at [due] if one is pending. *)
Definition timer_ok (t : Z) (due : option Z) (l : list Call) : Prop :=
  Forall reset_on_post l /\
  Forall (reset_by t) l /\
  (forall d, due = Some d -> Forall (idle_since d) l).

Definition timer_inv (st : State) : Prop :=
  timer_ok (now st) (whisperIdleTimeout st) (calls st).

(** The call that has gone through a cold start at the time [t]. *)
Definition started_call (t : Z) : Call :=
  mkCall (AwaitPost t) true t (Some false) (Some t) (Some t).

(** The events of a call that finds the container stopped, alone, up to
    its request. *)
Definition cold_start (i : nat) : list Event :=
  [Invoke true; IsRunningResolved i; RemoveResolved i; RunResolved i;
   ServiceUp; HealthyResolved i true].

(** The state a schedule leads to from the initial one. *)
Definition outcome (evs : list Event) : State :=
  match run evs init with Some st => st | None => init end.

(** Two calls arrive while the container is stopped; both find it stopped
    before either has started it. *)
Definition race_schedule : list Event :=
  [Invoke true; Invoke true; IsRunningResolved 0; IsRunningResolved 1;
   RemoveResolved 0; RunResolved 0; RemoveResolved 1; RunResolved 1].

(** The second call arrives while the first still waits for the service
    of the container it has launched. *)
Definition early_post_schedule : list Event :=
  [Invoke true; IsRunningResolved 0; RemoveResolved 0; RunResolved 0;
   Invoke true; IsRunningResolved 1].

(** One call whose request is still unanswered when the idle timeout,
    half the request timeout, has passed. *)
Definition long_request_schedule : list Event :=
  (cold_start 0 ++ [Elapse IDLE_TIMEOUT; IdleTimerFires])%list.

(** A first call is served; a second one is entered just before the idle
    timer fires and is still checking the container when it does. *)
Definition late_arrival_schedule : list Event :=
  (cold_start 0 ++ [PostResolved 0 true; Elapse (IDLE_TIMEOUT - 1); Invoke true;
                    Elapse 1; IdleTimerFires])%list.

End DockerFacts.

(** *** The on-demand container: its books and the calls without a file *)

Module DockerBooks.
Import DockerWhisperService.

(** A call whose file does not exist has sent no request and has not been
    served. *)
Definition unsent_without_file (c : Call) : Prop :=
  fileExists c = false ->
  match pc c with
  | AwaitPost _ | Returned true => False
  | _ => True
  end.

(** The call was entered at a time that has come. *)
Definition accepted_by (t : Z) (c : Call) : Prop := 0 <= acceptedAt c <= t.

(** The container that runs, if one does, as a count. *)
Definition containers_up (st : State) : nat :=
  if running (container st) then 1%nat else 0%nat.

Definition books_inv (st : State) : Prop :=
  (idleStops st + containers_up st <= launched st)%nat /\
  0 <= now st /\
  (running (container st) = true ->
     exists t, containerStartTime st = Some t /\ 0 <= t <= now st) /\
  Forall unsent_without_file (calls st) /\
  Forall (accepted_by (now st)) (calls st).

(** The events of a call for a file that does not exist, alone, which
    finds the container stopped. *)
Definition cold_start_without_file (i : nat) : list Event :=
  [Invoke false; IsRunningResolved i; RemoveResolved i; RunResolved i;
   ServiceUp; HealthyResolved i true].

(** The call that has gone through a cold start at the time [t] and found
    no file. *)
Definition refused_call (t : Z) : Call :=
  mkCall (Returned false) false t (Some false) (Some t) (Some t).

End DockerBooks.

(** Number of stored records with the status [s]. *)
Definition count_status (s : JobStatus) (t : Table) : nat :=
  List.length (filter (fun r => JobStatus_eqb (row_status r) s) t).

(* ===================================================================== *)
(** * Properties *)
(* ===================================================================== *)

(** ** The Job Record Store: [update] *)

Lemma apply_set_id (p : SetPart) (r : Row) : row_id (apply_set p r) = row_id r.
Proof. destruct p; reflexivity. Qed.

Lemma apply_sets_id (ps : list SetPart) (r : Row) :
  row_id (apply_sets ps r) = row_id r.
Proof.
  unfold apply_sets. revert r.
  induction ps as [|p ps IH]; intro r; simpl; [reflexivity|].
  rewrite IH. apply apply_set_id.
Qed.

Lemma has_id_apply_sets (i : string) (ps : list SetPart) (r : Row) :
  has_id i (apply_sets ps r) = has_id i r.
Proof. unfold has_id. now rewrite apply_sets_id. Qed.

(** The assignments of an update do what [updated_as] says. *)
Lemma apply_sets_updated_as (d : UpdateJobData.t) (now : Z) (r : Row) :
  updated_as d now r (apply_sets (set_parts d ++ [set_updated_at now]) r).
Proof.
  destruct d as [[s|] [t|] [p|] [e|] [c|]];
    unfold updated_as, set_parts; simpl; repeat split; reflexivity.
Qed.

Lemma filter_update_table (sets : list SetPart) (i : string) (t : Table) :
  filter (has_id i) (update_table sets i t) = map (apply_sets sets) (filter (has_id i) t).
Proof.
  unfold update_table.
  induction t as [|r t IH]; simpl; [reflexivity|].
  destruct (has_id i r) eqn:E.
  - rewrite has_id_apply_sets, E. simpl. now rewrite IH.
  - rewrite E. exact IH.
Qed.

Lemma filter_head_find {A} (f : A -> bool) (l : list A) :
  match filter f l with [] => None | x :: _ => Some x end = find f l.
Proof.
  induction l as [|a l IH]; simpl; [reflexivity|].
  destruct (f a); [reflexivity | exact IH].
Qed.

Lemma record_of_update_table (sets : list SetPart) (i : string) (t : Table) :
  record_of i (update_table sets i t) = option_map (apply_sets sets) (record_of i t).
Proof.
  unfold record_of, update_table.
  induction t as [|r t IH]; simpl; [reflexivity|].
  destruct (has_id i r) eqn:E.
  - now rewrite has_id_apply_sets, E.
  - rewrite E. exact IH.
Qed.

Lemma record_of_update_other (sets : list SetPart) (i k : string) (t : Table) :
  k <> i -> record_of k (update_table sets i t) = record_of k t.
Proof.
  intro Hne. unfold record_of, update_table.
  induction t as [|r t IH]; simpl; [reflexivity|].
  destruct (has_id i r) eqn:E.
  - rewrite has_id_apply_sets.
    assert (has_id k r = false) as ->.
    { unfold has_id in *. apply String.eqb_eq in E. apply String.eqb_neq. congruence. }
    exact IH.
  - destruct (has_id k r); [reflexivity | exact IH].
Qed.


(** What [JobRepository.update] evaluates to once a field is supplied. *)
Lemma JobRepository_update_eval (i : string) (d : UpdateJobData.t) (w : World) :
  d <> UpdateJobData.empty ->
  let t' := update_table (set_parts d ++ [set_updated_at (clock w)]) i (jobs w) in
  JobRepository.update i d w =
    (inl (option_map JobRepository.mapRowToJob (record_of i t')),
     push_journal t' (set_jobs t' w)).
Proof.
  intros Hne t'. subst t'.
  unfold record_of. rewrite <- filter_head_find.
  destruct d as [[s|] [t|] [p|] [e|] [c|]];
    try (exfalso; apply Hne; reflexivity);
    unfold JobRepository.update, set_parts, update_table;
    cbn [UpdateJobData.status UpdateJobData.transcriptionText
         UpdateJobData.transcriptionFilePath UpdateJobData.errorMessage
         UpdateJobData.completedAt app List.length Nat.eqb];
    unfold bind, try_catch, new_Date, pool_query, ret; cbn [exec_query is_write rows];
    match goal with
    | |- context [filter ?f ?l] => destruct (filter f l)
    end; reflexivity.
Qed.

(** What [JobModel.update] evaluates to once a field is supplied. *)
Lemma JobModel_update_eval (i : string) (d : UpdateJobData.t) (w : World) :
  d <> UpdateJobData.empty ->
  let t' := update_table (set_parts d ++ [set_updated_at (clock w)]) i (jobs w) in
  JobModel.update i d w =
    (inl (option_map JobModel.mapRowToJob (record_of i t')),
     push_journal t' (set_jobs t' w)).
Proof.
  intros Hne t'. subst t'.
  unfold record_of. rewrite <- filter_head_find.
  destruct d as [[s|] [t|] [p|] [e|] [c|]];
    try (exfalso; apply Hne; reflexivity);
    unfold JobModel.update, set_parts, update_table;
    cbn [UpdateJobData.status UpdateJobData.transcriptionText
         UpdateJobData.transcriptionFilePath UpdateJobData.errorMessage
         UpdateJobData.completedAt app List.length Nat.eqb];
    unfold bind, try_catch, new_Date, pool_query, ret; cbn [exec_query is_write rows];
    match goal with
    | |- context [filter ?f ?l] => destruct (filter f l)
    end; reflexivity.
Qed.



(** ** The Job Record Store: [findAll] *)

Lemma createdAt_is_no_column : resolve_column (OrderByField_text by_createdAt) = None.
Proof. reflexivity. Qed.

Lemma created_at_is_a_column : resolve_column "created_at" = Some c_created_at.
Proof. reflexivity. Qed.

(** C6 (the code fails the claim). With no ordering option the statement
    sent is [ORDER BY createdAt DESC]; the table has no such column (it is
    [created_at]), so the driver rejects it and [findAll] throws, whatever
    the page, the limit, the status filter and the stored jobs are. *)
Theorem findAll_default_order_throws
    (page limit : option Z) (st : option JobStatus) (w : World) :
  JobRepository.findAll (FindAllOptions.mk page limit st None None) w =
    (inr (db_error "column createdat does not exist"), w).
Proof.
  unfold JobRepository.findAll, bind, try_catch, pool_query, throw.
  cbn [FindAllOptions.page FindAllOptions.limit FindAllOptions.status
       FindAllOptions.orderBy FindAllOptions.orderDirection default_to].
  cbn [exec_query is_write].
  rewrite createdAt_is_no_column. reflexivity.
Qed.

(** The facade turns it into the internal server error of [getAllJobs]. *)
Lemma getAllJobs_default_order_throws
    (page limit : option Z) (st : option JobStatus) (w : World) :
  JobService.getAllJobs (FindAllOptions.mk page limit st None None) w =
    (inr (InternalServerError "Failed to retrieve jobs"), w).
Proof.
  unfold JobService.getAllJobs, JobRepository.findAll, bind, try_catch, pool_query, throw.
  cbn [FindAllOptions.page FindAllOptions.limit FindAllOptions.status
       FindAllOptions.orderBy FindAllOptions.orderDirection default_to].
  cbn [exec_query is_write].
  rewrite createdAt_is_no_column. reflexivity.
Qed.

(** The sibling [JobModel.findAll] names the column as the table does and
    returns the jobs newest first. *)
Lemma chain_insert_sorted (le : Row -> Row -> bool) (x : Row) (l : list Row) :
  (forall a b, le a b = false -> le b a = true) ->
  chain (fun a b => le a b = true) l ->
  chain (fun a b => le a b = true) (insert_sorted le x l).
Proof.
  intros Htot. induction l as [|y r IH]; intro Hc; simpl.
  - split; exact I.
  - destruct (le x y) eqn:E.
    + split; [exact E | exact Hc].
    + destruct Hc as [Hy Hr]. specialize (IH Hr).
      split; [|exact IH].
      destruct r as [|z r']; simpl.
      * apply Htot, E.
      * destruct (le x z); [apply Htot, E | exact Hy].
Qed.

Lemma chain_order_by_created_at_desc (t : Table) :
  chain (fun a b => order_leb c_created_at DESC a b = true)
        (order_by c_created_at DESC t).
Proof.
  unfold order_by. induction t as [|r t IH]; simpl; [exact I|].
  apply chain_insert_sorted; [|exact IH].
  intros a b. unfold order_leb, column_value, sql_leb. rewrite !Z.leb_gt, Z.leb_le. lia.
Qed.

Lemma chain_firstn {A} (R : A -> A -> Prop) (n : nat) (l : list A) :
  chain R l -> chain R (firstn n l).
Proof.
  revert l. induction n as [|n IH]; intros [|a l] Hc; simpl; try exact I.
  destruct Hc as [Ha Hl]. split; [|apply IH, Hl].
  destruct l as [|b l]; [destruct n; exact I|].
  destruct n; simpl; [exact I | exact Ha].
Qed.

Lemma chain_map {A B} (f : A -> B) (R : A -> A -> Prop) (S : B -> B -> Prop) (l : list A) :
  (forall a b, R a b -> S (f a) (f b)) -> chain R l -> chain S (map f l).
Proof.
  intro H. induction l as [|a l IH]; simpl; [trivial|].
  intros [Ha Hl]. split; [|apply IH, Hl].
  destruct l as [|b l]; simpl; [exact I | apply H, Ha].
Qed.

Lemma JobModel_findAll_newest_first (limit : Z) (w : World) :
  0 <= limit ->
  exists js,
    JobModel.findAll limit w = (inl js, w) /\
    chain (fun a b => createdAt b <= createdAt a) js.
Proof.
  intro Hl.
  unfold JobModel.findAll, try_catch, bind, pool_query, ret.
  cbn [exec_query is_write]. rewrite created_at_is_a_column.
  cbn [parse_direction fold_identifier lower_ascii]. simpl parse_direction.
  unfold negative. destruct (Z.ltb_spec limit 0) as [Hneg|_]; [lia|].
  cbn [rows offset_rows limit_rows filter has_status].
  eexists; split; [reflexivity|].
  apply chain_map with (R := fun a b => order_leb c_created_at DESC a b = true).
  - intros a b. unfold order_leb, column_value, sql_leb. simpl. apply Z.leb_le.
  - apply chain_firstn.
    replace (filter (has_status None) (jobs w)) with (jobs w).
    + apply chain_order_by_created_at_desc.
    + induction (jobs w) as [|r t IH]; simpl; [reflexivity | now rewrite <- IH].
Qed.

(** ** The facade: [createJob] and [downloadTranscription] *)

Lemma truthy_str_empty (s : string) : truthy_str s = false <-> s = "".
Proof.
  unfold truthy_str. rewrite negb_false_iff. apply String.eqb_eq.
Qed.

(** C9. Submission fails with a validation error (status 400, code
    VALIDATION_ERROR) when a required field is missing and also when the
    file at [filePath] does not exist; the world is then unchanged: no
    record is created and nothing is enqueued. *)
Theorem createJob_requires_existing_file (d : CreateJobData.t) (w : World) :
  CreateJobData.originalFilename d = "" \/ CreateJobData.filePath d = "" \/
  CreateJobData.model d = "" \/ files w (CreateJobData.filePath d) = false ->
  exists e,
    JobService.createJob d w = (inr e, w) /\
    cls e = ValidationErrorClass /\
    statusCode e = Some 400 /\ code e = Some "VALIDATION_ERROR".
Proof.
  intro H.
  unfold JobService.createJob, try_catch, bind, throw, fs_existsSync.
  destruct (truthy_str (CreateJobData.originalFilename d)) eqn:E1;
    [|eexists; split; [reflexivity | repeat split]].
  destruct (truthy_str (CreateJobData.filePath d)) eqn:E2;
    [|eexists; split; [reflexivity | repeat split]].
  destruct (truthy_str (CreateJobData.model d)) eqn:E3;
    [|eexists; split; [reflexivity | repeat split]].
  cbn [negb orb].
  destruct (files w (CreateJobData.filePath d)) eqn:E4;
    [|eexists; split; [reflexivity | repeat split]].
  exfalso.
  destruct H as [H|[H|[H|H]]]; try discriminate;
    apply truthy_str_empty in H; congruence.
Qed.

Lemma createJob_requires_existing_file_witness :
  files missing_file_world (CreateJobData.filePath demo_upload) = false /\
  exists e,
    JobService.createJob demo_upload missing_file_world = (inr e, missing_file_world) /\
    cls e = ValidationErrorClass.
Proof.
  split; [reflexivity|].
  destruct (@createJob_requires_existing_file demo_upload missing_file_world
              (or_intror (or_intror (or_intror eq_refl))))
    as (e & H1 & H2 & _).
  exists e. split; [exact H1 | exact H2].
Defined.

(** A submission that passes the checks stores a Pending record and
    enqueues one entry for it. *)
Lemma createJob_accepts (d : CreateJobData.t) (w : World) :
  truthy_str (CreateJobData.originalFilename d) = true ->
  truthy_str (CreateJobData.filePath d) = true ->
  truthy_str (CreateJobData.model d) = true ->
  files w (CreateJobData.filePath d) = true ->
  existsb (has_id (uuid w (drawn w))) (jobs w) = false ->
  exists job w',
    JobService.createJob d w = (inl job, w') /\
    id job = uuid w (drawn w) /\ status job = PENDING /\
    List.length (jobs w') = S (List.length (jobs w)) /\
    List.length (waiting (queue w')) = S (List.length (waiting (queue w))).
Proof.
  intros E1 E2 E3 E4 E5.
  unfold JobService.createJob, try_catch, bind, throw, fs_existsSync.
  rewrite E1, E2, E3. cbn [negb orb]. rewrite E4. cbn [negb].
  unfold JobRepository.create, bind, try_catch, uuidv4, new_Date, pool_query.
  cbn [exec_query jobs set_drawn clock row_id]. rewrite E5.
  cbn [is_write rows ret QueueService.addTranscriptionJob].
  unfold ret, QueueService.addTranscriptionJob.
  eexists; eexists; split; [reflexivity|].
  cbn. rewrite !length_app. simpl. repeat split; lia.
Qed.

Lemma findById_eval (i : string) (w : World) :
  JobRepository.findById i w =
    (inl (option_map JobRepository.mapRowToJob (record_of i (jobs w))), w).
Proof.
  unfold JobRepository.findById, try_catch, bind, pool_query, record_of.
  cbn [exec_query is_write rows]. rewrite <- filter_head_find.
  destruct (filter (has_id i) (jobs w)); reflexivity.
Qed.

Lemma or_undefined_some (o : option string) (p : string) :
  or_undefined o = Some p <-> o = Some p /\ p <> "".
Proof.
  unfold or_undefined, truthy. destruct o as [v|]; [|split; [discriminate | intros [? _]; discriminate]].
  destruct (String.eqb_spec v ""); simpl; split.
  - discriminate.
  - intros [H1 H2]. congruence.
  - intro H. injection H as ->. now split.
  - intros [H _]. exact H.
Qed.

(** C10. For a stored job: the download fails with a validation error when
    its status is not Completed; it fails with NotFound when the status is
    Completed and the artifact path is unset (or empty) or names no
    existing file; and it returns the artifact path with the file name
    [transcription_<originalFilename>.txt] exactly when the job is
    Completed and the artifact exists. The world is never changed. *)
Theorem downloadTranscription_cases (i : string) (r : Row) (w : World) :
  i <> "" ->
  record_of i (jobs w) = Some r ->
  (row_status r <> COMPLETED ->
     exists e, JobService.downloadTranscription i w = (inr e, w) /\
               cls e = ValidationErrorClass) /\
  (row_status r = COMPLETED ->
     (or_undefined (transcription_file_path r) = None \/
      exists p, transcription_file_path r = Some p /\ files w p = false) ->
     exists e, JobService.downloadTranscription i w = (inr e, w) /\
               cls e = NotFoundErrorClass) /\
  (forall p name w',
     JobService.downloadTranscription i w = (inl (p, name), w') <->
     (row_status r = COMPLETED /\ transcription_file_path r = Some p /\ p <> "" /\
      files w p = true /\
      name = "transcription_" ++ original_filename r ++ ".txt" /\ w' = w)).
Proof.
  intros Hi Hr.
  assert (Hget : JobService.getJobById i w = (inl (JobRepository.mapRowToJob r), w)).
  { unfold JobService.getJobById. apply String.eqb_neq in Hi.
    unfold truthy_str. rewrite Hi. cbn [negb].
    unfold bind. rewrite findById_eval, Hr. reflexivity. }
  unfold JobService.downloadTranscription, bind. rewrite Hget.
  cbn [status originalFilename transcriptionFilePath JobRepository.mapRowToJob].
  destruct (row_status r) eqn:Es; cbn [JobStatus_eqb negb];
    try (split; [intros _; eexists; split; reflexivity
                |split; [discriminate
                        |intros p name w'; split;
                         [discriminate | intros [H _]; discriminate]]]).
  split; [intro H; exfalso; apply H; reflexivity|].
  destruct (or_undefined (transcription_file_path r)) as [q|] eqn:Eq.
  - apply or_undefined_some in Eq. destruct Eq as [Eq Hq].
    apply String.eqb_neq in Hq. unfold truthy_str. rewrite Hq. cbn [negb].
    unfold fs_existsSync. destruct (files w q) eqn:Ef; cbn [negb].
    + split.
      * intros _ [H|[p [Hp Hf]]]; [discriminate|]. congruence.
      * intros p name w'. unfold ret. split.
        -- intro H. injection H as <- <- <-. apply String.eqb_neq in Hq. tauto.
        -- intros (_ & Hp & _ & _ & -> & ->). congruence.
    + split.
      * intros _ _. eexists; split; reflexivity.
      * intros p name w'. split; [discriminate|].
        intros (_ & Hp & _ & Hf & _). congruence.
  - split.
    + intros _ _. eexists; split; reflexivity.
    + intros p name w'. split; [discriminate|].
      intros (_ & Hp & Hne & _).
      assert (or_undefined (transcription_file_path r) = Some p)
        by (apply or_undefined_some; now split).
      congruence.
Qed.

Lemma downloadTranscription_cases_witness :
  record_of "job-1" (jobs completed_world) = Some completed_row /\
  JobService.downloadTranscription "job-1" completed_world =
    (inl ("/app/temp/job-1.txt", "transcription_talk.mp3.txt"), completed_world).
Proof.
  assert (Hn : "job-1" <> "") by (intro H; discriminate H).
  assert (Hr : record_of "job-1" (jobs completed_world) = Some completed_row)
    by reflexivity.
  split; [exact Hr|].
  destruct (@downloadTranscription_cases "job-1" completed_row completed_world Hn Hr)
    as (_ & _ & H).
  apply H. repeat split; try reflexivity. intro E; discriminate E.
Defined.

(** ** The worker: one attempt *)

Lemma JobModel_update_mark (i : string) (d : UpdateJobData.t) (w : World) :
  d <> UpdateJobData.empty ->
  exists res, JobModel.update i d w = (inl res, mark i d w).
Proof.
  intro Hne. eexists. rewrite (JobModel_update_eval i w Hne). reflexivity.
Qed.

Lemma status_of_mark (i : string) (d : UpdateJobData.t) (w : World) :
  status_of i (jobs (mark i d w)) =
    option_map (fun s => default_to (UpdateJobData.status d) s) (status_of i (jobs w)).
Proof.
  unfold mark, status_of. cbn [jobs push_journal set_jobs].
  rewrite record_of_update_table.
  destruct (record_of i (jobs w)) as [r|]; [|reflexivity].
  simpl. f_equal.
  apply (apply_sets_updated_as d (clock w) r).
Qed.

Lemma error_message_mark (i : string) (d : UpdateJobData.t) (w : World) :
  option_map error_message (record_of i (jobs (mark i d w))) =
    option_map (fun r => supplied_or (UpdateJobData.errorMessage d) (error_message r))
               (record_of i (jobs w)).
Proof.
  unfold mark. cbn [jobs push_journal set_jobs].
  rewrite record_of_update_table.
  destruct (record_of i (jobs w)) as [r|]; [|reflexivity].
  simpl. f_equal.
  apply (apply_sets_updated_as d (clock w) r).
Qed.

Lemma status_of_mark_other (i k : string) (d : UpdateJobData.t) (w : World) :
  k <> i -> status_of k (jobs (mark i d w)) = status_of k (jobs w).
Proof.
  intro H. unfold mark, status_of. cbn [jobs push_journal set_jobs].
  now rewrite record_of_update_other.
Qed.

Section OneAttempt.
Context {svc : IWhisperService} {frame : GatewayFrame svc}.

Lemma invoke_eval (r : WhisperServiceRequest) (w : World) :
  invoke r w =
    (fst (transcribe r w),
     set_invocations ((r, fst (transcribe r w)) :: invocations w)
                     (snd (transcribe r w))).
Proof.
  unfold invoke. pose proof (frame_invocations r w) as Hi.
  destruct (transcribe r w) as [out w']. simpl in *. now rewrite Hi.
Qed.

Lemma process_eval (j : BullJob) (w : World) :
  QueueService.processTranscriptionJob j w =
    match gateway_outcome j w with
    | inl result =>
        if delivered result
        then (inl tt, mark (job_of j) (d_completed result (clock (after_gateway j w)))
                           (after_gateway j w))
        else (inr (new_Error (reason_of result)),
              mark (job_of j) (d_failed (new_Error (reason_of result)))
                   (after_gateway j w))
    | inr e => (inr e, mark (job_of j) (d_failed e) (after_gateway j w))
    end.
Proof.
  unfold QueueService.processTranscriptionJob, try_catch, bind.
  change (mkRequest _ _ _ _) with (request_of j).
  change (TranscriptionJobData.jobId (data j)) with (job_of j).
  change (UpdateJobData.mk (Some PROCESSING) None None None None) with d_processing.
  destruct (@JobModel_update_mark (job_of j) d_processing w) as [res1 H1];
    [discriminate|].
  rewrite H1, invoke_eval.
  change (fst (transcribe (request_of j) (mark (job_of j) d_processing w)))
    with (gateway_outcome j w).
  change (set_invocations _ _) with (after_gateway j w).
  destruct (gateway_outcome j w) as [result|e].
  - change (success result && truthy (transcription result))%bool
      with (delivered result).
    destruct (delivered result).
    + unfold new_Date.
      change (UpdateJobData.mk (Some COMPLETED) _ _ None _)
        with (d_completed result (clock (after_gateway j w))).
      destruct (@JobModel_update_mark (job_of j)
                  (d_completed result (clock (after_gateway j w))) (after_gateway j w))
        as [res2 H2]; [discriminate|].
      rewrite H2. reflexivity.
    + unfold throw. change (or_else (error result) "Transcription failed")
        with (reason_of result).
      change (UpdateJobData.mk (Some FAILED) None None _ None)
        with (d_failed (new_Error (reason_of result))).
      destruct (@JobModel_update_mark (job_of j)
                  (d_failed (new_Error (reason_of result))) (after_gateway j w))
        as [res2 H2]; [discriminate|].
      rewrite H2. reflexivity.
  - change (UpdateJobData.mk (Some FAILED) None None _ None) with (d_failed e).
    destruct (@JobModel_update_mark (job_of j) (d_failed e) (after_gateway j w))
      as [res2 H2]; [discriminate|].
    rewrite H2. reflexivity.
Qed.

Lemma after_gateway_jobs (j : BullJob) (w : World) :
  jobs (after_gateway j w) = jobs (mark (job_of j) d_processing w).
Proof. unfold after_gateway. cbn [jobs set_invocations]. apply frame_jobs. Qed.

Lemma after_gateway_journal (j : BullJob) (w : World) :
  journal (after_gateway j w) =
    jobs (mark (job_of j) d_processing w) :: journal w.
Proof.
  unfold after_gateway. cbn [journal set_invocations]. rewrite frame_journal.
  reflexivity.
Qed.

Lemma after_gateway_queue (j : BullJob) (w : World) :
  queue (after_gateway j w) = queue w.
Proof.
  unfold after_gateway. cbn [queue set_invocations]. rewrite frame_queue.
  reflexivity.
Qed.

Lemma after_gateway_files (j : BullJob) (w : World) :
  files (after_gateway j w) = files w.
Proof.
  unfold after_gateway. cbn [files set_invocations]. rewrite frame_files.
  reflexivity.
Qed.

Lemma after_gateway_network (j : BullJob) (w : World) :
  network (after_gateway j w) = network w.
Proof.
  unfold after_gateway. cbn [network set_invocations]. rewrite frame_network.
  reflexivity.
Qed.

Lemma after_gateway_invocations (j : BullJob) (w : World) :
  invocations (after_gateway j w) =
    (request_of j, gateway_outcome j w) :: invocations w.
Proof. reflexivity. Qed.

Lemma after_gateway_status (j : BullJob) (w : World) (s : JobStatus) :
  status_of (job_of j) (jobs w) = Some s ->
  status_of (job_of j) (jobs (after_gateway j w)) = Some PROCESSING.
Proof.
  intro H. rewrite after_gateway_jobs, status_of_mark, H. reflexivity.
Qed.

(** One attempt of the entry [j] on a stored job: the gateway is called
    once; the store goes to Processing and then to Completed or Failed;
    the entry is settled by the queue accordingly. *)
Lemma attempt_facts (j : BullJob) (w : World) (s : JobStatus) :
  status_of (job_of j) (jobs w) = Some s ->
  let w' := Bull.attempt j w in
  invocations w' = (request_of j, gateway_outcome j w) :: invocations w /\
  files w' = files w /\ network w' = network w /\
  match failure_of (gateway_outcome j w) with
  | None =>
      map (status_of (job_of j)) (journal w') =
        Some COMPLETED :: Some PROCESSING :: map (status_of (job_of j)) (journal w) /\
      status_of (job_of j) (jobs w') = Some COMPLETED /\
      queue w' = Bull.moveToCompleted j (queue w)
  | Some e =>
      map (status_of (job_of j)) (journal w') =
        Some FAILED :: Some PROCESSING :: map (status_of (job_of j)) (journal w) /\
      status_of (job_of j) (jobs w') = Some FAILED /\
      option_map error_message (record_of (job_of j) (jobs w')) =
        Some (Some (stored_message e)) /\
      queue w' = Bull.moveToFailed j e (clock w') (queue w)
  end.
Proof.
  intros Hs w'. subst w'. unfold Bull.attempt. rewrite process_eval.
  pose proof (after_gateway_status j w Hs) as Hp.
  assert (Hrec : exists r, record_of (job_of j) (jobs (after_gateway j w)) = Some r).
  { unfold status_of in Hp. 
    destruct (record_of (job_of j) (jobs (after_gateway j w))) as [r|]; [eauto | discriminate]. }
  destruct Hrec as [r0 Hrec].
  assert (Hj : forall d,
             map (status_of (job_of j)) (journal (mark (job_of j) d (after_gateway j w))) =
             option_map (fun s => default_to (UpdateJobData.status d) s)
                        (Some PROCESSING)
             :: Some PROCESSING :: map (status_of (job_of j)) (journal w)).
  { intro d. unfold mark at 1. cbn [journal push_journal set_jobs map].
    rewrite after_gateway_journal. cbn [map].
    fold (mark (job_of j) d (after_gateway j w)).
    change (update_table _ (job_of j) (jobs (after_gateway j w)))
      with (jobs (mark (job_of j) d (after_gateway j w))).
    rewrite status_of_mark.  rewrite Hp.
    rewrite <- after_gateway_jobs. rewrite Hp. reflexivity. }
  assert (Hst : forall d,
             status_of (job_of j) (jobs (mark (job_of j) d (after_gateway j w))) =
             Some (default_to (UpdateJobData.status d) PROCESSING)).
  { intro d. rewrite status_of_mark.  rewrite Hp. reflexivity. }
  assert (Hfr : forall d q,
             let w3 := set_queue q (mark (job_of j) d (after_gateway j w)) in
             invocations w3 = (request_of j, gateway_outcome j w) :: invocations w /\
             files w3 = files w /\ network w3 = network w /\
             journal w3 = journal (mark (job_of j) d (after_gateway j w)) /\
             jobs w3 = jobs (mark (job_of j) d (after_gateway j w)) /\
             queue w3 = q /\ clock w3 = clock (after_gateway j w)).
  { intros d q. cbv zeta. unfold mark at 1 2 3 7.
    cbn [invocations files network journal jobs queue clock set_queue
         push_journal set_jobs].
    rewrite after_gateway_files, after_gateway_network, after_gateway_invocations.
    repeat split; reflexivity. }
  assert (Hq : forall d, queue (mark (job_of j) d (after_gateway j w)) = queue w).
  { intro d. unfold mark. cbn [queue push_journal set_jobs].
    apply after_gateway_queue. }
  assert (Hc : forall d, clock (mark (job_of j) d (after_gateway j w)) = clock (after_gateway j w)).
  { intro d. reflexivity. }
  unfold failure_of.
  destruct (gateway_outcome j w) as [result|e] eqn:Eo.
  - destruct (delivered result) eqn:Ed.
    + destruct (Hfr (d_completed result (clock (after_gateway j w)))
                    (Bull.moveToCompleted j
                       (queue (mark (job_of j) (d_completed result (clock (after_gateway j w)))
                                    (after_gateway j w)))))
        as (H1 & H2 & H3 & H4 & H5 & H6 & H7).
      rewrite H1, H2, H3, H4, H5, H6, Hq, Hj, Hst.
      repeat split; reflexivity.
    + destruct (Hfr (d_failed (new_Error (reason_of result)))
                    (Bull.moveToFailed j (new_Error (reason_of result))
                       (clock (mark (job_of j) (d_failed (new_Error (reason_of result)))
                                    (after_gateway j w)))
                       (queue (mark (job_of j) (d_failed (new_Error (reason_of result)))
                                    (after_gateway j w)))))
        as (H1 & H2 & H3 & H4 & H5 & H6 & H7).
      rewrite H1, H2, H3, H4, H5, H6, H7, Hq, Hc, Hj, Hst.
      rewrite error_message_mark, Hrec.
      repeat split; reflexivity.
  - destruct (Hfr (d_failed e)
                  (Bull.moveToFailed j e
                     (clock (mark (job_of j) (d_failed e) (after_gateway j w)))
                     (queue (mark (job_of j) (d_failed e) (after_gateway j w)))))
      as (H1 & H2 & H3 & H4 & H5 & H6 & H7).
    rewrite H1, H2, H3, H4, H5, H6, H7, Hq, Hc, Hj, Hst.
    rewrite error_message_mark, Hrec.
    repeat split; reflexivity.
Qed.

End OneAttempt.

(** ** The worker loop on one entry *)

Section OneEntry.
Context {svc : IWhisperService} {frame : GatewayFrame svc}.

Lemma worker_step_Drained (w : World) : Drained w -> Bull.worker_step w = None.
Proof.
  intros [Hw Hd]. unfold Bull.worker_step, Bull.take. now rewrite Hw, Hd.
Qed.

Lemma run_Drained (n : nat) (w : World) : Drained w -> Bull.run n w = w.
Proof.
  intro H. destruct n; simpl; [reflexivity|].
  now rewrite worker_step_Drained.
Qed.

Lemma same_entry_refl (j : BullJob) : Bull.same_entry j j = true.
Proof. apply String.eqb_refl. Qed.

(** Taking the only entry leaves nothing to take. *)
Lemma take_Next (j : BullJob) (w : World) :
  Next j w ->
  exists wa,
    Bull.take w = Some (j, wa) /\
    jobs wa = jobs w /\ journal wa = journal w /\
    invocations wa = invocations w /\
    files wa = files w /\ network wa = network w /\
    waiting (queue wa) = [] /\ delayed (queue wa) = [] /\
    completed (queue wa) = completed (queue w) /\
    failed (queue wa) = failed (queue w) /\
    clock wa = match delayed (queue w) with
               | [] => clock w
               | (t, _) :: _ => Z.max (clock w) t
               end.
Proof.
  intros [[Hw Hd]|[Hw [t Hd]]]; unfold Bull.take; rewrite Hw, Hd.
  - eexists; split; [reflexivity|]. cbn. repeat split; reflexivity.
  - cbn [Bull.earliest Bull.drop_delayed filter snd].
    rewrite same_entry_refl. cbn [negb].
    eexists; split; [reflexivity|]. cbn. repeat split; reflexivity.
Qed.

(** One turn of the worker loop when [j] is the only entry to take, for a
    stored job. *)
Lemma worker_step_Next (j : BullJob) (w : World) (s : JobStatus) :
  Next j w ->
  status_of (job_of j) (jobs w) = Some s ->
  exists w' out wg,
    Bull.worker_step w = Some w' /\
    out = fst (transcribe (request_of j) wg) /\
    files wg = files w /\ network wg = network w /\
    invocations w' = (request_of j, out) :: invocations w /\
    files w' = files w /\ network w' = network w /\
    match failure_of out with
    | None =>
        map (status_of (job_of j)) (journal w') =
          Some COMPLETED :: Some PROCESSING :: map (status_of (job_of j)) (journal w) /\
        status_of (job_of j) (jobs w') = Some COMPLETED /\
        Drained w' /\
        completed (queue w') = firstn removeOnComplete (j :: completed (queue w)) /\
        failed (queue w') = failed (queue w)
    | Some e =>
        map (status_of (job_of j)) (journal w') =
          Some FAILED :: Some PROCESSING :: map (status_of (job_of j)) (journal w) /\
        status_of (job_of j) (jobs w') = Some FAILED /\
        option_map error_message (record_of (job_of j) (jobs w')) =
          Some (Some (stored_message e)) /\
        completed (queue w') = completed (queue w) /\
        if Nat.ltb (S (attemptsMade j)) attempts
        then waiting (queue w') = [] /\
             delayed (queue w') =
               [(clock w' + exponential_backoff (S (attemptsMade j)),
                 retried (S (attemptsMade j)) e j)] /\
             failed (queue w') = failed (queue w)
        else Drained w' /\
             failed (queue w') =
               firstn removeOnFail (retried (S (attemptsMade j)) e j :: failed (queue w))
    end.
Proof.
  intros Hn Hs.
  destruct (take_Next Hn)
    as (wa & Ht & Hjobs & Hjour & Hinv & Hfiles & Hnet & Hw & Hd & Hc & Hf & _).
  rewrite <- Hjobs in Hs.
  destruct (attempt_facts j wa Hs) as (A1 & A2 & A3 & A4).
  exists (Bull.attempt j wa), (gateway_outcome j wa), (mark (job_of j) d_processing wa).
  split; [unfold Bull.worker_step; now rewrite Ht|].
  split; [reflexivity|].
  split; [exact Hfiles|]. split; [exact Hnet|].
  rewrite A1, A2, A3, Hinv, Hfiles, Hnet.
  split; [reflexivity|]. split; [reflexivity|]. split; [reflexivity|].
  destruct (failure_of (gateway_outcome j wa)) as [e|].
  - destruct A4 as (B1 & B2 & B3 & B4).
    rewrite B1, B2, B3, Hjour.
    split; [reflexivity|]. split; [reflexivity|]. split; [reflexivity|].
    unfold Drained. rewrite B4. unfold Bull.moveToFailed.
    cbn [attemptsMade]. fold (retried (S (attemptsMade j)) e j).
    destruct (Nat.ltb (S (attemptsMade j)) attempts);
      cbn [completed waiting delayed failed]; rewrite ?Hw, ?Hd, ?Hc, ?Hf;
      repeat split; reflexivity.
  - destruct A4 as (B1 & B2 & B4).
    rewrite B1, B2, Hjour.
    split; [reflexivity|]. split; [reflexivity|].
    unfold Drained. rewrite B4. unfold Bull.moveToCompleted.
    cbn [completed waiting delayed failed]. rewrite ?Hw, ?Hd, ?Hc, ?Hf.
    repeat split; reflexivity.
Qed.

Lemma Next_delayed (j : BullJob) (t : Z) (w : World) :
  waiting (queue w) = [] -> delayed (queue w) = [(t, j)] -> Next j w.
Proof. intros H1 H2. right. split; [exact H1 | now exists t]. Qed.



Lemma run_step (n : nat) (w w' : World) :
  Bull.worker_step w = Some w' -> Bull.run (S n) w = Bull.run n w'.
Proof. intro H. simpl. now rewrite H. Qed.

Lemma reason_of_stored (result : WhisperServiceResponse) :
  stored_message (new_Error (reason_of result)) = reason_of result.
Proof.
  unfold stored_message, reason_of, or_else, new_Error. cbn [message].
  destruct (error result) as [v|]; [|reflexivity].
  destruct (String.eqb v "") eqn:E; [reflexivity | now rewrite E].
Qed.

(** A fresh entry whose every gateway call returns a result that is no
    transcription: three attempts, each stored as Failed at once and, but
    for the last, followed by a delayed retry. [P] is whatever is known of
    the results. *)
Lemma failing_lifecycle (P : WhisperServiceResponse -> Prop)
      (j : BullJob) (w : World) (s : JobStatus) :
  (forall wg, files wg = files w -> network wg = network w ->
     exists result,
       fst (transcribe (request_of j) wg) = inl result /\
       delivered result = false /\ P result) ->
  status_of (job_of j) (jobs w) = Some s ->
  waiting (queue w) = [j] -> delayed (queue w) = [] -> attemptsMade j = 0%nat ->
  exists r1 r2 r3,
    (P r1 /\ P r2 /\ P r3) /\
    (invocations (Bull.run 1 w) = (request_of j, inl r1) :: invocations w /\
     status_of (job_of j) (jobs (Bull.run 1 w)) = Some FAILED /\
     waiting (queue (Bull.run 1 w)) = [] /\
     delayed (queue (Bull.run 1 w)) =
       [(clock (Bull.run 1 w) + exponential_backoff 1,
         retried 1 (new_Error (reason_of r1)) j)]) /\
    (invocations (Bull.run 2 w) =
       (request_of j, inl r2) :: (request_of j, inl r1) :: invocations w /\
     status_of (job_of j) (jobs (Bull.run 2 w)) = Some FAILED /\
     waiting (queue (Bull.run 2 w)) = [] /\
     delayed (queue (Bull.run 2 w)) =
       [(clock (Bull.run 2 w) + exponential_backoff 2,
         retried 2 (new_Error (reason_of r2)) j)]) /\
    (forall n, (attempts <= n)%nat ->
       invocations (Bull.run n w) =
         (request_of j, inl r3) :: (request_of j, inl r2)
           :: (request_of j, inl r1) :: invocations w /\
       Drained (Bull.run n w) /\
       status_of (job_of j) (jobs (Bull.run n w)) = Some FAILED /\
       option_map error_message (record_of (job_of j) (jobs (Bull.run n w))) =
         Some (Some (reason_of r3)) /\
       failed (queue (Bull.run n w)) =
         firstn removeOnFail
                (retried 3 (new_Error (reason_of r3)) j :: failed (queue w)) /\
       map (status_of (job_of j)) (journal (Bull.run n w)) =
         Some FAILED :: Some PROCESSING :: Some FAILED :: Some PROCESSING
           :: Some FAILED :: Some PROCESSING
           :: map (status_of (job_of j)) (journal w)).
Proof.
  intros Href Hs Hw Hd Ha.
  assert (Hn : Next j w) by (left; now split).
  (* first attempt *)
  destruct (worker_step_Next Hn Hs)
    as (w1 & o1 & g1 & S1 & O1 & F1 & N1 & I1 & Fw1 & Nw1 & R1).
  destruct (Href g1 F1 N1) as (r1 & E1 & D1 & P1).
  rewrite <- O1 in E1. rewrite E1 in R1, I1. clear O1 E1.
  unfold failure_of in R1. rewrite D1 in R1.
  destruct R1 as (J1 & T1 & _ & C1 & Q1).
  rewrite Ha in Q1. cbn [Nat.ltb Nat.leb attempts] in Q1.
  destruct Q1 as (W1 & De1 & Fq1).
  pose proof (Next_delayed _ W1 De1) as Nx1.
  (* second attempt *)
  destruct (@worker_step_Next _ w1 FAILED Nx1 T1)
    as (w2 & o2 & g2 & S2 & O2 & F2 & N2 & I2 & Fw2 & Nw2 & R2).
  change (job_of (retried 1 (new_Error (reason_of r1)) j)) with (job_of j) in *.
  change (request_of (retried 1 (new_Error (reason_of r1)) j))
    with (request_of j) in *.
  rewrite Fw1 in F2. rewrite Nw1 in N2.
  destruct (Href g2 F2 N2) as (r2 & E2 & D2 & P2).
  rewrite <- O2 in E2. rewrite E2 in R2, I2. clear O2 E2.
  unfold failure_of in R2. rewrite D2 in R2.
  destruct R2 as (J2 & T2 & _ & C2 & Q2).
  cbn [attemptsMade retried Nat.ltb Nat.leb attempts] in Q2.
  destruct Q2 as (W2 & De2 & Fq2).
  change (retried 2 (new_Error (reason_of r2)) (retried 1 (new_Error (reason_of r1)) j))
    with (retried 2 (new_Error (reason_of r2)) j) in *.
  pose proof (Next_delayed _ W2 De2) as Nx2.
  (* third attempt *)
  destruct (@worker_step_Next _ w2 FAILED Nx2 T2)
    as (w3 & o3 & g3 & S3 & O3 & F3 & N3 & I3 & Fw3 & Nw3 & R3).
  change (job_of (retried 2 (new_Error (reason_of r2)) j)) with (job_of j) in *.
  change (request_of (retried 2 (new_Error (reason_of r2)) j))
    with (request_of j) in *.
  rewrite Fw2, Fw1 in F3. rewrite Nw2, Nw1 in N3.
  destruct (Href g3 F3 N3) as (r3 & E3 & D3 & P3).
  rewrite <- O3 in E3. rewrite E3 in R3, I3. clear O3 E3.
  unfold failure_of in R3. rewrite D3 in R3.
  destruct R3 as (J3 & T3 & M3 & C3 & Q3).
  cbn [attemptsMade retried Nat.ltb Nat.leb attempts] in Q3.
  destruct Q3 as (Dr3 & Fq3).
  change (retried 3 (new_Error (reason_of r3)) (retried 2 (new_Error (reason_of r2)) j))
    with (retried 3 (new_Error (reason_of r3)) j) in *.
  exists r1, r2, r3.
  split; [tauto|].
  assert (X1 : Bull.run 1 w = w1) by (simpl; now rewrite S1).
  assert (X2 : Bull.run 2 w = w2) by (simpl; now rewrite S1, S2).
  rewrite X1, X2.
  split; [now rewrite I1|].
  split; [now rewrite I2, I1|].
  intros n Hle. unfold attempts in Hle.
  destruct n as [|[|[|n]]]; try lia.
  rewrite (@run_step _ w w1 S1), (@run_step _ w1 w2 S2), (@run_step _ w2 w3 S3).
  rewrite (@run_Drained n w3 Dr3).
  rewrite I3, I2, I1, T3, M3, reason_of_stored, Fq3, Fq2, Fq1, J3, J2, J1.
  repeat split; try reflexivity; apply Dr3.
Qed.

End OneEntry.

(** ** The persistent gateway *)

Lemma transcribeStatic_world (r : WhisperServiceRequest) (w : World) :
  snd (WhisperService.transcribeStatic r w) = w \/
  snd (WhisperService.transcribeStatic r w) = set_posts (S (posts w)) w.
Proof.
  unfold WhisperService.transcribeStatic, try_catch, bind, fs_existsSync, axios_post.
  destruct (files w (req_filePath r)); cbn [negb].
  - right.
    destruct (network w (posts w)) as [ok t f e|c [[[st de] stx]|] m|[m|]]; cbn.
    + destruct ok; reflexivity.
    + destruct (code_is _ _); reflexivity.
    + destruct (code_is _ _); [reflexivity|]. destruct (code_is _ _); reflexivity.
    + reflexivity.
    + reflexivity.
  - left. reflexivity.
Qed.

#[export] Instance WhisperService_frame : GatewayFrame WhisperService_instance.
Proof.
  split; intros r w; cbn [transcribe WhisperService_instance];
    destruct (transcribeStatic_world r w) as [-> | ->]; reflexivity.
Qed.


(** BackendUnavailable: the connection is refused. *)
Lemma transcribeStatic_refused (r : WhisperServiceRequest) (w : World)
      (resp : option (Z * option string * string)) (msg : string) :
  files w (req_filePath r) = true ->
  network w (posts w) = AxiosError (Some "ECONNREFUSED") resp msg ->
  WhisperService.transcribeStatic r w =
    (inl (failure "WhisperX service is not available"), set_posts (S (posts w)) w).
Proof.
  intros Hf Hn.
  unfold WhisperService.transcribeStatic, try_catch, bind, fs_existsSync, axios_post.
  rewrite Hf. cbn [negb]. rewrite Hn. reflexivity.
Qed.


Lemma failure_not_delivered (reason : string) : delivered (failure reason) = false.
Proof. reflexivity. Qed.

Lemma reason_of_failure (reason : string) :
  reason <> "" -> reason_of (failure reason) = reason.
Proof.
  intro H. unfold reason_of, failure, or_else. cbn [error].
  apply String.eqb_neq in H. now rewrite H.
Qed.

(** ** The status of a job under the worker loop *)




(** ** Failures of the gateway and the retries of the queue *)

Lemma exponential_backoff_values :
  exponential_backoff 1 = backoff_delay /\ exponential_backoff 2 = 2 * backoff_delay.
Proof. split; reflexivity. Qed.






(** ** The queue status *)

Section Retention.
Context {svc : IWhisperService} {frame : GatewayFrame svc}.

Lemma attempt_queue (j : BullJob) (w : World) :
  queue (Bull.attempt j w) = Bull.moveToCompleted j (queue w) \/
  exists e now, queue (Bull.attempt j w) = Bull.moveToFailed j e now (queue w).
Proof.
  unfold Bull.attempt. rewrite process_eval.
  assert (Hq : forall d, queue (mark (job_of j) d (after_gateway j w)) = queue w).
  { intro d. unfold mark. cbn [queue push_journal set_jobs].
    apply after_gateway_queue. }
  destruct (gateway_outcome j w) as [result|e].
  - destruct (delivered result); cbn [queue set_queue]; rewrite Hq.
    + now left.
    + right. eauto.
  - cbn [queue set_queue]. rewrite Hq. right. eauto.
Qed.

Lemma firstn_within {A} (n : nat) (l : list A) : (List.length (firstn n l) <= n)%nat.
Proof. rewrite length_firstn. lia. Qed.

Lemma moveToCompleted_within (j : BullJob) (q : BullQueue) :
  within_retention q -> within_retention (Bull.moveToCompleted j q).
Proof.
  intros [_ Hf]. split; cbn [Bull.moveToCompleted completed failed];
    [apply firstn_within | exact Hf].
Qed.

Lemma moveToFailed_within (j : BullJob) (e : Error) (now : Z) (q : BullQueue) :
  within_retention q -> within_retention (Bull.moveToFailed j e now q).
Proof.
  intros [Hc Hf]. unfold Bull.moveToFailed.
  destruct (Nat.ltb _ _); split; cbn [completed failed];
    try assumption; apply firstn_within.
Qed.

Lemma take_within (j : BullJob) (w w' : World) :
  Bull.take w = Some (j, w') ->
  within_retention (queue w) -> within_retention (queue w').
Proof.
  unfold Bull.take. intros H Hq.
  destruct (waiting (queue w)) as [|k rest].
  - destruct (Bull.earliest (delayed (queue w))) as [[t k]|]; [|discriminate].
    injection H as _ <-. exact Hq.
  - injection H as _ <-. exact Hq.
Qed.

Lemma worker_step_within (w w' : World) :
  Bull.worker_step w = Some w' ->
  within_retention (queue w) -> within_retention (queue w').
Proof.
  unfold Bull.worker_step. intros H Hq.
  destruct (Bull.take w) as [[j wa]|] eqn:Et; [|discriminate].
  injection H as <-.
  pose proof (@take_within j w wa Et Hq) as Ha.
  destruct (attempt_queue j wa) as [-> | (e & now & ->)].
  - now apply moveToCompleted_within.
  - now apply moveToFailed_within.
Qed.

Lemma run_within (n : nat) (w : World) :
  within_retention (queue w) -> within_retention (queue (Bull.run n w)).
Proof.
  revert w. induction n as [|n IH]; intros w Hq; simpl; [exact Hq|].
  destruct (Bull.worker_step w) as [w'|] eqn:Es; [|exact Hq].
  apply IH. exact (@worker_step_within w w' Es Hq).
Qed.

End Retention.

(** C7 (as the code has it). [queueStatus] returns the four counts of the
    entries the queue holds and changes nothing; the Job Record Store is not
    consulted, so the answer is the same whatever the store holds; and as
    the queue retains at most [removeOnComplete] = 10 completed and
    [removeOnFail] = 5 failed entries, however long the worker has run, the
    completed and failed counts never exceed 10 and 5. *)
Theorem queue_status_counts_retained_entries
    {svc : IWhisperService} {frame : GatewayFrame svc} (w : World) (n : nat) :
  QueueService.getQueueStatus w = (inl (queue_counts (queue w)), w) /\
  (forall t, fst (QueueService.getQueueStatus (set_jobs t w)) =
             fst (QueueService.getQueueStatus w)) /\
  (within_retention (queue w) ->
   exists c, fst (QueueService.getQueueStatus (Bull.run n w)) = inl c /\
             (qs_completed c <= 10)%nat /\ (qs_failed c <= 5)%nat).
Proof.
  split; [reflexivity|]. split; [reflexivity|].
  intro Hq. eexists. split; [reflexivity|].
  apply (run_within n) in Hq. exact Hq.
Qed.

Lemma queue_status_counts_retained_entries_witness :
  within_retention (queue eleven_done) /\
  exists c, fst (QueueService.getQueueStatus (Bull.run 11 eleven_done)) = inl c /\
            (qs_completed c <= 10)%nat /\ (qs_failed c <= 5)%nat.
Proof.
  assert (Hq : within_retention (queue eleven_done))
    by (split; cbn; lia).
  split; [exact Hq|].
  exact (proj2 (proj2 (@queue_status_counts_retained_entries
                         _ WhisperService_frame eleven_done 11)) Hq).
Defined.

(** C7 (as the claim states it) fails: after eleven jobs have completed the
    store holds eleven Completed records and the status reports ten; after
    six jobs have failed for good the store holds six Failed records and
    the status reports five. *)
Lemma queue_status_is_truncated :
  (count_status COMPLETED (jobs (Bull.run 11 eleven_done)) = 11%nat /\
   fst (QueueService.getQueueStatus (Bull.run 11 eleven_done)) =
     inl (mkQueueStatus 0 0 10 0)) /\
  (count_status FAILED (jobs (Bull.run 18 six_lost)) = 6%nat /\
   fst (QueueService.getQueueStatus (Bull.run 18 six_lost)) =
     inl (mkQueueStatus 0 0 0 5)).
Proof. repeat split; vm_compute; reflexivity. Qed.

(** ** The on-demand container: starts *)

Module DockerProofs.
Import DockerWhisperService DockerFacts.

Lemma count_replace (f : Call -> bool) (i : nat) (c c' : Call) (l : list Call) :
  nth_error l i = Some c ->
  (count_calls f (replace_at i c' l) + (if f c then 1 else 0) =
   count_calls f l + (if f c' then 1 else 0))%nat.
Proof.
  unfold count_calls. revert i.
  induction l as [|a l IH]; intros [|i] H; simpl in H; try discriminate.
  - injection H as ->. simpl. destruct (f c), (f c'); simpl; lia.
  - simpl. specialize (IH i H). destruct (f a); simpl; lia.
Qed.
Arguments count_replace f i {c} c' {l} _.

Lemma count_app_one (f : Call -> bool) (l : list Call) (c : Call) :
  count_calls f (l ++ [c]) = (count_calls f l + (if f c then 1 else 0))%nat.
Proof.
  unfold count_calls. rewrite filter_app, length_app. simpl.
  destruct (f c); reflexivity.
Qed.

Lemma Forall_replace (P : Call -> Prop) (i : nat) (c' : Call) (l : list Call) :
  Forall P l -> P c' -> Forall P (replace_at i c' l).
Proof.
  intros Hl Hc. revert i.
  induction Hl as [|a l Ha Hl IH]; intros [|i]; simpl; constructor; auto.
Qed.

Lemma Forall_nth (P : Call -> Prop) (i : nat) (c : Call) (l : list Call) :
  Forall P l -> nth_error l i = Some c -> P c.
Proof.
  intros Hl Hn. rewrite Forall_forall in Hl. apply Hl.
  eapply nth_error_In. exact Hn.
Qed.
Arguments Forall_nth P {i c l} _ _.

Lemma past_run_le (l : list Call) :
  (count_calls past_run l <= count_calls saw_stopped l)%nat.
Proof.
  unfold count_calls. induction l as [|c l IH]; simpl; [lia|].
  unfold past_run at 1. destruct (saw_stopped c); simpl.
  - destruct (pc c); simpl; lia.
  - exact IH.
Qed.

Lemma start_inv_init : start_inv init.
Proof. repeat split; simpl; auto. Qed.

Lemma saw_stopped_eq (c : Call) :
  saw_stopped c = match isRunning c with Some false => true | _ => false end.
Proof. reflexivity. Qed.

Lemma past_run_eq (c : Call) :
  past_run c =
    andb (match isRunning c with Some false => true | _ => false end)
         (match pc c with
          | AwaitHealthy _ | AwaitPost _ | Returned _ => true
          | _ => false
          end).
Proof. reflexivity. Qed.

Ltac norm :=
  unfold proceed in *; unfold set_call, with_pc, scheduleIdleStop in *;
  cbn [calls starts launched container now whisperIdleTimeout
       containerStartTime idleStops
       pc fileExists acceptedAt isRunning healthyAt resetAt] in *.

(** The two counts after the call [i] has been replaced. *)
Ltac counts i c En H1 H2 :=
  match goal with
  | |- context [replace_at i ?c' _] =>
      pose proof (count_replace saw_stopped i c' En) as H1;
      pose proof (count_replace past_run i c' En) as H2
  end;
  match goal with
  | |- context [replace_at i ?c' _] =>
      rewrite (saw_stopped_eq c), (saw_stopped_eq c') in H1;
      rewrite (past_run_eq c), (past_run_eq c') in H2
  end;
  cbn [pc isRunning] in H1, H2.

(** What is known of the replaced call is used everywhere. *)
Ltac known Hc Ep H1 H2 :=
  rewrite ?Hc; rewrite ?Hc in H1; rewrite ?Hc in H2;
  rewrite ?Ep in H1; rewrite ?Ep in H2;
  cbn [andb Nat.add] in H1, H2.

Ltac call_is_ok Hok :=
  apply Forall_replace; [exact Hok|]; unfold call_ok; norm;
  first [ reflexivity | discriminate | left; reflexivity
        | right; split; [reflexivity | discriminate] ].

Lemma start_inv_exec (e : Event) (st st' : State) :
  exec e st = Some st' -> start_inv st -> start_inv st'.
Proof.
  intros He (Hok & Hs & Hl). unfold start_inv.
  destruct e as [f|i|i|i|i ok|i ok| |d|];
    unfold exec, stopContainer, isContainerRunning in He; simpl in He.
  - (* Invoke *)
    injection He as <-. norm.
    split; [|split].
    + apply Forall_app. split; [exact Hok|]. repeat constructor.
    + rewrite count_app_one. simpl. lia.
    + rewrite count_app_one. simpl. lia.
  - (* IsRunningResolved *)
    destruct (nth_error (calls st) i) as [c|] eqn:En; [|discriminate].
    destruct (pc c) eqn:Ep; try discriminate.
    pose proof (Forall_nth call_ok Hok En) as Hc. unfold call_ok in Hc.
    rewrite Ep in Hc.
    destruct (running (container st)) eqn:Er; injection He as <-; norm;
      destruct (fileExists c); counts i c En H1 H2; known Hc Ep H1 H2;
      (split; [call_is_ok Hok | split; lia]).
  - (* RemoveResolved *)
    destruct (nth_error (calls st) i) as [c|] eqn:En; [|discriminate].
    destruct (pc c) eqn:Ep; try discriminate.
    pose proof (Forall_nth call_ok Hok En) as Hc. unfold call_ok in Hc.
    rewrite Ep in Hc.
    injection He as <-. norm. counts i c En H1 H2. known Hc Ep H1 H2.
    split; [call_is_ok Hok | split; lia].
  - (* RunResolved *)
    destruct (nth_error (calls st) i) as [c|] eqn:En; [|discriminate].
    destruct (pc c) eqn:Ep; try discriminate.
    pose proof (Forall_nth call_ok Hok En) as Hc. unfold call_ok in Hc.
    rewrite Ep in Hc.
    destruct (container st); injection He as <-; norm; counts i c En H1 H2;
      known Hc Ep H1 H2; (split; [call_is_ok Hok | split; lia]).
  - (* HealthyResolved *)
    destruct (nth_error (calls st) i) as [c|] eqn:En; [|discriminate].
    destruct (pc c) eqn:Ep; try discriminate.
    pose proof (Forall_nth call_ok Hok En) as Hc. unfold call_ok in Hc.
    rewrite Ep in Hc.
    destruct ok.
    + destruct (container st) as [|[|]]; try discriminate.
      injection He as <-. norm.
      destruct (fileExists c); counts i c En H1 H2; known Hc Ep H1 H2;
        (split; [call_is_ok Hok | split; lia]).
    + destruct (Z.leb STARTUP_TIMEOUT (now st - since)); [|discriminate].
      injection He as <-. norm. counts i c En H1 H2. known Hc Ep H1 H2.
      split; [call_is_ok Hok | split; lia].
  - (* PostResolved *)
    destruct (nth_error (calls st) i) as [c|] eqn:En; [|discriminate].
    destruct (pc c) eqn:Ep; try discriminate.
    pose proof (Forall_nth call_ok Hok En) as Hc. unfold call_ok in Hc.
    rewrite Ep in Hc.
    destruct (andb ok (Z.ltb REQUEST_TIMEOUT (now st - since))); [discriminate|].
    injection He as <-. norm.
    destruct Hc as [Hc | [Hc _]]; counts i c En H1 H2; known Hc Ep H1 H2;
      (split; [call_is_ok Hok | split; lia]).
  - (* ServiceUp *)
    destruct (container st); [discriminate|]. injection He as <-.
    repeat split; assumption.
  - (* Elapse *)
    destruct (Z.ltb d 0); [discriminate|]. injection He as <-.
    repeat split; assumption.
  - (* IdleTimerFires *)
    destruct (whisperIdleTimeout st) as [due|]; [|discriminate].
    destruct (Z.leb due (now st)); [|discriminate].
    destruct (container st); injection He as <-; repeat split; assumption.
Qed.

Lemma start_inv_run (evs : list Event) (st st' : State) :
  run evs st = Some st' -> start_inv st -> start_inv st'.
Proof.
  revert st. induction evs as [|e evs IH]; intros st Hr Hi; simpl in Hr.
  - injection Hr as <-. exact Hi.
  - destruct (exec e st) as [st1|] eqn:Ee; [|discriminate].
    apply (IH st1 Hr). exact (@start_inv_exec e st st1 Ee Hi).
Qed.

(** ** The on-demand container: the idle timer *)

Lemma timer_ok_invoke (t : Z) (due : option Z) (l : list Call) (f : bool) :
  timer_ok t due l ->
  timer_ok t due (l ++ [mkCall AwaitIsRunning f t None None None]).
Proof.
  intros (H1 & H2 & H3). split; [|split].
  - apply Forall_app. split; [exact H1|]. constructor; [exact I | constructor].
  - apply Forall_app. split; [exact H2|]. constructor; [|constructor].
    intros r Hr. discriminate.
  - intros d Hd. apply Forall_app. split; [exact (H3 d Hd)|].
    constructor; [|constructor]. intros r Hr. discriminate.
Qed.

Lemma timer_ok_keep (t : Z) (due : option Z) (l : list Call)
      (i : nat) (c c' : Call) :
  nth_error l i = Some c ->
  resetAt c' = resetAt c ->
  reset_on_post c' ->
  timer_ok t due l -> timer_ok t due (replace_at i c' l).
Proof.
  intros Hn Hr Hp (H1 & H2 & H3). split; [|split].
  - apply Forall_replace; [exact H1 | exact Hp].
  - apply Forall_replace; [exact H2|]. unfold reset_by. rewrite Hr.
    exact (Forall_nth (reset_by t) H2 Hn).
  - intros d Hd. apply Forall_replace; [exact (H3 d Hd)|].
    unfold idle_since. rewrite Hr.
    exact (Forall_nth (idle_since d) (H3 d Hd) Hn).
Qed.

Lemma timer_ok_proceed (t : Z) (due : option Z) (l : list Call)
      (i : nat) (c' : Call) :
  resetAt c' = Some t ->
  reset_on_post c' ->
  timer_ok t due l ->
  timer_ok t (Some (t + IDLE_TIMEOUT)) (replace_at i c' l).
Proof.
  intros Hr Hp (H1 & H2 & H3). split; [|split].
  - apply Forall_replace; [exact H1 | exact Hp].
  - apply Forall_replace; [exact H2|]. intros r Hr'. rewrite Hr in Hr'.
    injection Hr' as <-. lia.
  - intros d Hd. injection Hd as <-. apply Forall_replace.
    + eapply Forall_impl; [|exact H2]. intros a Ha r Hr'.
      specialize (Ha r Hr'). lia.
    + intros r Hr'. rewrite Hr in Hr'. injection Hr' as <-. lia.
Qed.

Lemma timer_ok_elapse (t d : Z) (due : option Z) (l : list Call) :
  0 <= d -> timer_ok t due l -> timer_ok (t + d) due l.
Proof.
  intros Hd (H1 & H2 & H3). split; [exact H1|]. split; [|exact H3].
  eapply Forall_impl; [|exact H2]. intros a Ha r Hr. specialize (Ha r Hr). lia.
Qed.

Lemma timer_ok_cleared (t : Z) (due : option Z) (l : list Call) :
  timer_ok t due l -> timer_ok t None l.
Proof.
  intros (H1 & H2 & _). split; [exact H1|]. split; [exact H2|]. discriminate.
Qed.

Lemma timer_inv_init : timer_inv init.
Proof. split; [|split]; constructor. Qed.

Ltac keeps c En Hi :=
  apply timer_ok_keep with (c := c);
  [exact En | reflexivity | unfold reset_on_post; norm; exact I | exact Hi].

Ltac proceeds c Hi st :=
  apply timer_ok_proceed with (due := whisperIdleTimeout st);
  [ reflexivity
  | unfold reset_on_post; norm; destruct (fileExists c); [reflexivity | exact I]
  | exact Hi ].

Lemma timer_inv_exec (e : Event) (st st' : State) :
  exec e st = Some st' -> timer_inv st -> timer_inv st'.
Proof.
  unfold timer_inv. intros He Hi.
  destruct e as [f|i|i|i|i ok|i ok| |d|];
    unfold exec, stopContainer, isContainerRunning in He; simpl in He.
  - injection He as <-. norm. now apply timer_ok_invoke.
  - destruct (nth_error (calls st) i) as [c|] eqn:En; [|discriminate].
    destruct (pc c) eqn:Ep; try discriminate.
    destruct (running (container st)); injection He as <-; norm;
      [proceeds c Hi st | keeps c En Hi].
  - destruct (nth_error (calls st) i) as [c|] eqn:En; [|discriminate].
    destruct (pc c) eqn:Ep; try discriminate.
    injection He as <-. norm. keeps c En Hi.
  - destruct (nth_error (calls st) i) as [c|] eqn:En; [|discriminate].
    destruct (pc c) eqn:Ep; try discriminate.
    destruct (container st); injection He as <-; norm; keeps c En Hi.
  - destruct (nth_error (calls st) i) as [c|] eqn:En; [|discriminate].
    destruct (pc c) eqn:Ep; try discriminate.
    destruct ok.
    + destruct (container st) as [|[|]]; try discriminate.
      injection He as <-. norm. proceeds c Hi st.
    + destruct (Z.leb STARTUP_TIMEOUT (now st - since)); [|discriminate].
      injection He as <-. norm. keeps c En Hi.
  - destruct (nth_error (calls st) i) as [c|] eqn:En; [|discriminate].
    destruct (pc c) eqn:Ep; try discriminate.
    destruct (andb ok (Z.ltb REQUEST_TIMEOUT (now st - since))); [discriminate|].
    injection He as <-. norm.
    apply timer_ok_keep with (c := c); [exact En | reflexivity | | exact Hi].
    pose proof (Forall_nth reset_on_post (proj1 Hi) En) as Hc.
    unfold reset_on_post in *. norm. rewrite Ep in Hc.
    destruct ok; [rewrite Hc; discriminate | exact I].
  - destruct (container st); [discriminate|]. injection He as <-. exact Hi.
  - destruct (Z.ltb_spec d 0) as [|Hd]; [discriminate|]. injection He as <-. norm.
    now apply timer_ok_elapse.
  - destruct (whisperIdleTimeout st) as [due|]; [|discriminate].
    destruct (Z.leb due (now st)); [|discriminate].
    destruct (container st); injection He as <-; norm;
      exact (timer_ok_cleared Hi).
Qed.

Lemma timer_inv_run (evs : list Event) (st st' : State) :
  run evs st = Some st' -> timer_inv st -> timer_inv st'.
Proof.
  revert st. induction evs as [|e evs IH]; intros st Hr Hi; simpl in Hr.
  - injection Hr as <-. exact Hi.
  - destruct (exec e st) as [st1|] eqn:Ee; [|discriminate].
    apply (IH st1 Hr). exact (@timer_inv_exec e st st1 Ee Hi).
Qed.

Lemma nth_last (l : list Call) (c : Call) :
  nth_error (l ++ [c]) (List.length l) = Some c.
Proof. induction l as [|a l IH]; simpl; [reflexivity | exact IH]. Qed.

Lemma replace_last (l : list Call) (c x : Call) :
  replace_at (List.length l) x (l ++ [c]) = (l ++ [x])%list.
Proof. induction l as [|a l IH]; simpl; [reflexivity | now rewrite IH]. Qed.

Ltac step :=
  cbn -[nth_error replace_at app List.length Z.add Z.sub Z.leb Z.ltb];
  rewrite ?nth_last;
  cbn -[nth_error replace_at app List.length Z.add Z.sub Z.leb Z.ltb];
  rewrite ?replace_last.

(** A call that finds the container stopped, alone: it removes what is
    left, runs the container, waits until the service is healthy, restarts
    the idle timer and sends its request. *)
Lemma cold_start_runs (st : State) :
  container st = Absent ->
  run (cold_start (List.length (calls st))) st =
    Some (mkState (Up true) (Some (now st)) (Some (now st + IDLE_TIMEOUT)) (now st)
                  (calls st ++ [started_call (now st)])
                  (S (starts st)) (S (launched st)) (idleStops st)).
Proof.
  intro Hc. unfold cold_start.
  step. rewrite Hc. do 6 step.
  unfold proceed, set_call, scheduleIdleStop. step. reflexivity.
Qed.

End DockerProofs.

Import DockerWhisperService DockerFacts.

(** C4 (as the claim states it) fails. Two calls that arrive while the
    container is stopped both find it stopped, both enter [startContainer]
    and both launch a container, the second after removing the one of the
    first. And a call that arrives while another one still waits for the
    service of the container it has launched finds the container running
    and sends its request at once, although the service is not ready. *)
Lemma concurrent_calls_start_twice :
  (option_map starts (run race_schedule init) = Some 2%nat /\
   option_map launched (run race_schedule init) = Some 2%nat) /\
  (option_map container (run early_post_schedule init) = Some (Up false) /\
   option_map (fun st => map pc (calls st)) (run early_post_schedule init) =
     Some [AwaitHealthy 0; AwaitPost 0]).
Proof. repeat split; vm_compute; reflexivity. Qed.

(** C4 (as the code has it). Whatever the interleaving of the calls: every
    call that found the container stopped has entered [startContainer]
    itself, once, so that there are as many start sequences as such calls
    (no call waits for the start of another one), each launching at most one
    container; and a call sends its request only after it has found the
    container running or after its own wait for the health of the service
    has returned. *)
Theorem every_caller_starts_the_container (evs : list Event) (st : State) :
  run evs init = Some st ->
  starts st = count_calls saw_stopped (calls st) /\
  (launched st <= starts st)%nat /\
  (starts st <= List.length (calls st))%nat /\
  Forall ensured (calls st).
Proof.
  intro Hr.
  destruct (@DockerProofs.start_inv_run evs init st Hr DockerProofs.start_inv_init)
    as (Hok & Hs & Hl).
  split; [exact Hs|]. split; [|split].
  - rewrite Hs. pose proof (DockerProofs.past_run_le (calls st)). lia.
  - rewrite Hs. unfold count_calls. apply filter_length_le.
  - eapply Forall_impl; [|exact Hok].
    intros c Hc since Hp. unfold call_ok in Hc. now rewrite Hp in Hc.
Qed.

Lemma every_caller_starts_the_container_witness :
  run race_schedule init = Some (outcome race_schedule) /\
  starts (outcome race_schedule) =
    count_calls saw_stopped (calls (outcome race_schedule)) /\
  (launched (outcome race_schedule) <= starts (outcome race_schedule))%nat /\
  (starts (outcome race_schedule) <= List.length (calls (outcome race_schedule)))%nat /\
  Forall ensured (calls (outcome race_schedule)).
Proof.
  assert (E : run race_schedule init = Some (outcome race_schedule))
    by (vm_compute; reflexivity).
  split; [exact E|].
  exact (@every_caller_starts_the_container race_schedule (outcome race_schedule) E).
Defined.

(** C8 (as the claim states it) fails. A request that is still unanswered
    when the idle timeout has passed, half of the time the request may
    take, has its container stopped under it; and a call that is entered
    after the last restart of the timer and is still checking the container
    when the timer fires loses the container as well. *)
Lemma container_is_reclaimed_in_flight :
  (IDLE_TIMEOUT < REQUEST_TIMEOUT /\
   option_map container (run long_request_schedule init) = Some Absent /\
   option_map idleStops (run long_request_schedule init) = Some 1%nat /\
   option_map (fun st => map awaiting_response (calls st))
              (run long_request_schedule init) = Some [true] /\
   option_map (fun st => map resetAt (calls st))
              (run long_request_schedule init) = Some [Some 0]) /\
  (option_map container (run late_arrival_schedule init) = Some Absent /\
   option_map (fun st => map in_flight (calls st))
              (run late_arrival_schedule init) = Some [false; true] /\
   option_map (fun st => map acceptedAt (calls st))
              (run late_arrival_schedule init) = Some [0; 299999] /\
   option_map (fun st => map resetAt (calls st))
              (run late_arrival_schedule init) = Some [Some 0; None]).
Proof. repeat split; vm_compute; reflexivity. Qed.

(** C8 (as the code has it). Whatever the interleaving: every call that has
    sent its request, and so every call that was served, restarted the idle
    timer when it sent it; when the idle timer fires the container is
    stopped, and the idle timeout has then passed since the timer was last
    restarted by any call; and a call that finds the container stopped
    brings it back: it runs the container, waits until the service is
    healthy, restarts the timer and sends its request. *)
Theorem idle_timer_runs_from_the_last_request (evs : list Event) (st : State) :
  run evs init = Some st ->
  Forall reset_on_post (calls st) /\
  (forall st', exec IdleTimerFires st = Some st' ->
     container st' = Absent /\ Forall (idle_since (now st)) (calls st)) /\
  (container st = Absent ->
   exists st',
     run (cold_start (List.length (calls st))) st = Some st' /\
     container st' = Up true /\
     whisperIdleTimeout st' = Some (now st' + IDLE_TIMEOUT) /\
     nth_error (calls st') (List.length (calls st)) = Some (started_call (now st'))).
Proof.
  intro Hr.
  destruct (@DockerProofs.timer_inv_run evs init st Hr DockerProofs.timer_inv_init)
    as (H1 & H2 & H3).
  split; [exact H1|]. split.
  - intros st' He. unfold exec, stopContainer in He. simpl in He.
    destruct (whisperIdleTimeout st) as [due|] eqn:Ed; [|discriminate].
    destruct (Z.leb_spec due (now st)) as [Hle|]; [|discriminate].
    split.
    + destruct (container st); injection He as <-; reflexivity.
    + eapply Forall_impl; [|exact (H3 due eq_refl)].
      intros c Hc r Hrc. specialize (Hc r Hrc). lia.
  - intro Hc. eexists. split; [apply DockerProofs.cold_start_runs, Hc|].
    cbn [container whisperIdleTimeout now calls].
    split; [reflexivity|]. split; [reflexivity|].
    apply DockerProofs.nth_last.
Qed.

Lemma idle_timer_runs_from_the_last_request_witness :
  run long_request_schedule init = Some (outcome long_request_schedule) /\
  container (outcome long_request_schedule) = Absent /\
  Forall reset_on_post (calls (outcome long_request_schedule)) /\
  exists st',
    run (cold_start (List.length (calls (outcome long_request_schedule))))
        (outcome long_request_schedule) = Some st' /\
    container st' = Up true.
Proof.
  assert (E : run long_request_schedule init = Some (outcome long_request_schedule))
    by (vm_compute; reflexivity).
  assert (A : container (outcome long_request_schedule) = Absent)
    by (vm_compute; reflexivity).
  split; [exact E|]. split; [exact A|].
  destruct (@idle_timer_runs_from_the_last_request
              long_request_schedule (outcome long_request_schedule) E)
    as (H1 & _ & H3).
  split; [exact H1|].
  destruct (H3 A) as (st' & Hrun & Hup & _).
  exists st'. split; [exact Hrun | exact Hup].
Defined.

(* ===================================================================== *)
(** * Further properties of the code *)
(* ===================================================================== *)

(** ** The Job Record Store: [create], [findById], [delete], [findByStatus] *)





Lemma find_filter_out {A} (f g : A -> bool) (l : list A) :
  (forall a, f a = true -> g a = false) ->
  find f (filter g l) = None.
Proof.
  intro H. induction l as [|a l IH]; simpl; [reflexivity|].
  destruct (g a) eqn:Eg; [|exact IH]. simpl.
  destruct (f a) eqn:Ef; [|exact IH].
  rewrite (H a Ef) in Eg. discriminate.
Qed.

Lemma find_filter_keep {A} (f g : A -> bool) (l : list A) :
  (forall a, f a = true -> g a = true) ->
  find f (filter g l) = find f l.
Proof.
  intro H. induction l as [|a l IH]; simpl; [reflexivity|].
  destruct (f a) eqn:Ef.
  - rewrite (H a Ef). simpl. now rewrite Ef.
  - destruct (g a); simpl; [now rewrite Ef | exact IH].
Qed.

Lemma has_id_other (i k : string) (r : Row) :
  k <> i -> has_id k r = true -> negb (has_id i r) = true.
Proof.
  unfold has_id. intros Hk E. apply String.eqb_eq in E.
  apply negb_true_iff, String.eqb_neq. congruence.
Qed.

Lemma delete_eval (i : string) (w : World) :
  let t' := filter (fun r => negb (has_id i r)) (jobs w) in
  JobRepository.delete i w =
    (inl (match record_of i (jobs w) with Some _ => true | None => false end),
     push_journal t' (set_jobs t' w)).
Proof.
  unfold JobRepository.delete, try_catch, bind, pool_query, ret, record_of.
  cbn [exec_query is_write rowCount]. rewrite <- filter_head_find.
  destruct (filter (has_id i) (jobs w)); reflexivity.
Qed.


Lemma insert_sorted_perm (le : Row -> Row -> bool) (x : Row) (l : list Row) :
  Permutation (insert_sorted le x l) (x :: l).
Proof.
  induction l as [|y r IH]; simpl; [apply Permutation_refl|].
  destruct (le x y); [apply Permutation_refl|].
  eapply Permutation_trans; [apply perm_skip, IH | apply perm_swap].
Qed.

Lemma order_by_perm (c : Column) (d : Direction) (t : list Row) :
  Permutation (order_by c d t) t.
Proof.
  unfold order_by. induction t as [|r t IH]; simpl; [apply Permutation_refl|].
  eapply Permutation_trans; [apply insert_sorted_perm | apply perm_skip, IH].
Qed.

Lemma chain_order_by_created_at_asc (t : Table) :
  chain (fun a b => order_leb c_created_at ASC a b = true)
        (order_by c_created_at ASC t).
Proof.
  unfold order_by. induction t as [|r t IH]; simpl; [exact I|].
  apply chain_insert_sorted; [|exact IH].
  intros a b. unfold order_leb, column_value, sql_leb. rewrite !Z.leb_gt, Z.leb_le. lia.
Qed.

Lemma has_status_value (s : JobStatus) (r : Row) :
  has_status (Some (JobStatus_value s)) r = JobStatus_eqb (row_status r) s.
Proof. unfold has_status. destruct (row_status r), s; reflexivity. Qed.

Lemma filter_has_status_value (s : JobStatus) (t : Table) :
  filter (has_status (Some (JobStatus_value s))) t = with_status s t.
Proof.
  unfold with_status. induction t as [|r t IH]; cbn [filter]; [reflexivity|].
  rewrite has_status_value, IH. reflexivity.
Qed.

Lemma findByStatus_eval (s : JobStatus) (w : World) :
  JobRepository.findByStatus s w =
    (inl (map JobRepository.mapRowToJob
            (order_by c_created_at ASC (with_status s (jobs w)))), w).
Proof.
  unfold JobRepository.findByStatus, try_catch, bind, pool_query, ret.
  cbn [exec_query is_write]. rewrite created_at_is_a_column.
  simpl parse_direction. cbn [negative limit_rows offset_rows rows].
  rewrite filter_has_status_value. reflexivity.
Qed.

(** X3. [findByStatus], and [getJobsByStatus] of the facade with it,
    returns exactly the stored jobs that have the status, each once,
    oldest first, and changes nothing; the facade's internal server error
    for this call is never raised. *)
Theorem getJobsByStatus_selects_and_sorts (s : JobStatus) (w : World) :
  exists js,
    JobRepository.findByStatus s w = (inl js, w) /\
    JobService.getJobsByStatus s w = (inl js, w) /\
    Permutation js (map JobRepository.mapRowToJob (with_status s (jobs w))) /\
    Forall (fun j => status j = s) js /\
    chain (fun a b => createdAt a <= createdAt b) js.
Proof.
  eexists. split; [apply findByStatus_eval|]. split.
  { unfold JobService.getJobsByStatus, try_catch. rewrite findByStatus_eval.
    reflexivity. }
  assert (HP : Permutation
                 (map JobRepository.mapRowToJob
                      (order_by c_created_at ASC (with_status s (jobs w))))
                 (map JobRepository.mapRowToJob (with_status s (jobs w))))
    by apply Permutation_map, order_by_perm.
  split; [exact HP|]. split.
  - eapply Permutation_Forall; [apply Permutation_sym, HP|].
    apply Forall_map. unfold with_status. apply Forall_forall.
    intros r Hr. apply filter_In in Hr. destruct Hr as [_ Hr].
    cbn [status JobRepository.mapRowToJob].
    destruct (row_status r), s; try discriminate; reflexivity.
  - apply chain_map with (R := fun a b => order_leb c_created_at ASC a b = true).
    + intros a b. unfold order_leb, column_value, sql_leb. simpl. apply Z.leb_le.
    + apply chain_order_by_created_at_asc.
Qed.

Lemma updatedAt_is_no_column : resolve_column (OrderByField_text by_updatedAt) = None.
Proof. reflexivity. Qed.

(** X4. [findAll] cannot succeed, whatever options it is given: both
    values the type of [orderBy] allows are field names of the job object
    and not columns of the table, so the driver rejects the paginated
    statement in every case (the count statement before it succeeded); the
    store is left as it was, and [getAllJobs] of the facade answers with
    its internal server error for every call. *)
Theorem findAll_throws_for_every_option (o : FindAllOptions.t) (w : World) :
  exists e,
    JobRepository.findAll o w = (inr e, w) /\
    cls e = DatabaseError /\
    JobService.getAllJobs o w =
      (inr (InternalServerError "Failed to retrieve jobs"), w).
Proof.
  destruct o as [page limit st ob od].
  unfold JobService.getAllJobs, JobRepository.findAll, bind, try_catch, pool_query, throw.
  cbn [FindAllOptions.page FindAllOptions.limit FindAllOptions.status
       FindAllOptions.orderBy FindAllOptions.orderDirection].
  cbn [exec_query is_write].
  destruct ob as [[|]|]; cbn [default_to];
    rewrite ?createdAt_is_no_column, ?updatedAt_is_no_column;
    eexists; (split; [reflexivity|]); split; reflexivity.
Qed.

(** ** The static model: [JobModel] beside [JobRepository] *)





Lemma UpdateJobData_empty_dec (d : UpdateJobData.t) :
  d = UpdateJobData.empty \/ d <> UpdateJobData.empty.
Proof.
  destruct d as [[s|] [t|] [f|] [e|] [c|]];
    try (right; discriminate). left; reflexivity.
Qed.

(** X6. The worker writes through [JobModel] and the facade through
    [JobRepository]: for [update], [findById], [delete] and [create] the two
    leave the same world behind, table and journal included, and they
    succeed or throw together; on success the repository returns the
    model's result with empty texts read as undefined. *)
Theorem model_and_repository_agree
    (i : string) (d : UpdateJobData.t) (c : CreateJobData.t) (w : World) :
  (snd (JobModel.update i d w) = snd (JobRepository.update i d w) /\
   agree (option_map blank_to_undefined)
         (fst (JobModel.update i d w)) (fst (JobRepository.update i d w))) /\
  (snd (JobModel.findById i w) = snd (JobRepository.findById i w) /\
   agree (option_map blank_to_undefined)
         (fst (JobModel.findById i w)) (fst (JobRepository.findById i w))) /\
  (snd (JobModel.delete i w) = snd (JobRepository.delete i w) /\
   agree (fun b : bool => b)
         (fst (JobModel.delete i w)) (fst (JobRepository.delete i w))) /\
  (snd (JobModel.create c w) = snd (JobRepository.create c w) /\
   agree blank_to_undefined
         (fst (JobModel.create c w)) (fst (JobRepository.create c w))).
Proof.
  split; [|split; [|split]].
  - destruct (UpdateJobData_empty_dec d) as [->|Hd].
    + split; reflexivity.
    + rewrite (JobModel_update_eval i w Hd), (JobRepository_update_eval i w Hd).
      cbn [fst snd agree]. split; [reflexivity|].
      destruct (record_of i _); reflexivity.
  - unfold JobModel.findById, JobRepository.findById, try_catch, bind, pool_query.
    cbn [exec_query is_write rows].
    destruct (filter (has_id i) (jobs w)); split; reflexivity.
  - unfold JobModel.delete, JobRepository.delete, try_catch, bind, pool_query.
    cbn [exec_query is_write rows]. split; reflexivity.
  - unfold JobModel.create, JobRepository.create, try_catch, bind, uuidv4, new_Date,
      pool_query.
    cbn [exec_query jobs set_drawn clock row_id].
    destruct (existsb (has_id (uuid w (drawn w))) (jobs w)); split; reflexivity.
Qed.

(** ** The facade: [deleteJob], [updateJob], [getJobStatistics], [createJob] *)

Lemma removed_shrinks (p q : string) (f : string -> bool) :
  removed p f q = true -> f q = true.
Proof. unfold removed. destruct (String.eqb q p); [discriminate | trivial]. Qed.

Lemma removed_other (p q : string) (f : string -> bool) :
  q <> p -> removed p f q = f q.
Proof.
  intro H. unfold removed. apply String.eqb_neq in H. now rewrite H.
Qed.

Lemma removed_self (p : string) (f : string -> bool) : removed p f p = false.
Proof. unfold removed. now rewrite String.eqb_refl. Qed.

Lemma removed_false (p q : string) (f : string -> bool) :
  f q = false -> removed p f q = false.
Proof. intro H. unfold removed. destruct (String.eqb q p); [reflexivity | exact H]. Qed.

(** The three ways the removal of one file ends. *)
Lemma unlink_if_exists_cases (denied : string -> bool) (o : option string) (w : World) :
  (exists p e, o = Some p /\ p <> "" /\ files w p = true /\ denied p = true /\
               JobService.unlink_if_exists denied o w = (inr e, w)) \/
  (exists p, o = Some p /\ p <> "" /\ files w p = true /\ denied p = false /\
             JobService.unlink_if_exists denied o w =
               (inl tt, set_files (removed p (files w)) w)) \/
  ((forall p, o = Some p -> p <> "" -> files w p = false) /\
   JobService.unlink_if_exists denied o w = (inl tt, w)).
Proof.
  unfold JobService.unlink_if_exists.
  destruct o as [p|]; [|right; right; split; [discriminate | reflexivity]].
  unfold truthy_str. destruct (String.eqb_spec p "") as [->|Hp]; cbn [negb].
  { right; right. split; [|reflexivity]. intros q [= <-] H. now destruct H. }
  unfold bind, fs_existsSync, fs_unlinkSync.
  destruct (files w p) eqn:Ef; cbn [negb].
  - destruct (denied p) eqn:Ed.
    + left. exists p. eexists. repeat split; trivial. rewrite Ef. reflexivity.
    + right; left. exists p. repeat split; trivial. rewrite Ef. reflexivity.
  - right; right. split; [|reflexivity]. intros q [= <-] _. exact Ef.
Qed.

(** The removal of the files of a job: it never fails, and it leaves all
    but the file system as it was. *)
Lemma unlink_files_eval (denied : string -> bool) (fp : string) (tp : option string)
      (w : World) :
  exists w1,
    try_catch
      (JobService.unlink_if_exists denied (Some fp) ;;;
       JobService.unlink_if_exists denied tp)
      (fun _ => ret tt) w = (inl tt, w1) /\
    (jobs w1, journal w1, queue w1, clock w1, invocations w1) =
      (jobs w, journal w, queue w, clock w, invocations w) /\
    (forall p, files w1 p = true -> files w p = true) /\
    (forall p, p <> fp -> tp <> Some p -> files w1 p = files w p) /\
    (fp <> "" -> files w fp = true -> denied fp = true ->
       forall p, files w1 p = files w p) /\
    ((forall p, denied p = false) ->
       (fp <> "" -> files w1 fp = false) /\
       (forall p, tp = Some p -> p <> "" -> files w1 p = false)).
Proof.
  unfold try_catch, bind.
  destruct (unlink_if_exists_cases denied (Some fp) w)
    as [(p & e & [= <-] & Hp & Hf & Hd & ->)
       |[(p & [= <-] & Hp & Hf & Hd & ->)|(Hno & ->)]].
  - (* the upload cannot be removed: the transcription is not tried *)
    exists w. split; [reflexivity|]. split; [reflexivity|].
    split; [trivial|]. split; [trivial|]. split; [trivial|].
    intro Hall. rewrite Hall in Hd. discriminate.
  - (* the upload is removed *)
    set (w0 := set_files (removed fp (files w)) w).
    destruct (unlink_if_exists_cases denied tp w0)
      as [(p & e & -> & Hp' & Hf' & Hd' & ->)
         |[(p & -> & Hp' & Hf' & Hd' & ->)|(Hno' & ->)]].
    + exists w0. split; [reflexivity|]. split; [reflexivity|].
      cbn [files w0 set_files].
      split; [intros q; apply removed_shrinks|].
      split; [intros q Hq _; apply removed_other, Hq|].
      split; [intros _ _ E; rewrite E in Hd; discriminate|].
      intro Hall. rewrite Hall in Hd'. discriminate.
    + exists (set_files (removed p (files w0)) w0).
      split; [reflexivity|]. split; [reflexivity|].
      cbn [files w0 set_files].
      split; [intros q Hq; apply removed_shrinks in Hq; apply removed_shrinks in Hq;
              exact Hq|].
      split.
      { intros q Hq Hq'. rewrite removed_other by congruence.
        apply removed_other, Hq. }
      split; [intros _ _ E; rewrite E in Hd; discriminate|].
      intros _. split.
      * intros _. apply removed_false, removed_self.
      * intros q [= <-] _. apply removed_self.
    + exists w0. split; [reflexivity|]. split; [reflexivity|].
      cbn [files w0 set_files].
      split; [intros q; apply removed_shrinks|].
      split; [intros q Hq _; apply removed_other, Hq|].
      split; [intros _ _ E; rewrite E in Hd; discriminate|].
      intros _. split.
      * intros _. apply removed_self.
      * intros q Hq Hq'. exact (Hno' q Hq Hq').
  - (* there is no upload to remove *)
    destruct (unlink_if_exists_cases denied tp w)
      as [(p & e & -> & Hp' & Hf' & Hd' & ->)
         |[(p & -> & Hp' & Hf' & Hd' & ->)|(Hno' & ->)]].
    + exists w. split; [reflexivity|]. split; [reflexivity|].
      split; [trivial|]. split; [trivial|]. split; [trivial|].
      intro Hall. rewrite Hall in Hd'. discriminate.
    + exists (set_files (removed p (files w)) w).
      split; [reflexivity|]. split; [reflexivity|].
      cbn [files set_files].
      split; [intros q; apply removed_shrinks|].
      split; [intros q _ Hq; apply removed_other; congruence|].
      split.
      { intros H1 H2 _. rewrite (Hno fp eq_refl H1) in H2. discriminate. }
      intros _. split.
      * intro H1. apply removed_false, (Hno fp eq_refl H1).
      * intros q [= <-] _. apply removed_self.
    + exists w. split; [reflexivity|]. split; [reflexivity|].
      split; [trivial|]. split; [trivial|]. split; [trivial|].
      intros _. split.
      * intro H1. exact (Hno fp eq_refl H1).
      * intros q Hq Hq'. exact (Hno' q Hq Hq').
Qed.

(** X7. Deleting a stored job through the facade always succeeds: the
    record is removed and every other record is kept; the queue is not
    touched, so an entry enqueued for the job stays in it. Files are only
    ever removed, and only the upload and the transcription of the job;
    when the upload exists and cannot be removed, the transcription is not
    removed either; when nothing is refused, both are gone afterwards. *)
Theorem deleteJob_removes_record_and_files
    (denied : string -> bool) (i : string) (r : Row) (w : World) :
  i <> "" ->
  record_of i (jobs w) = Some r ->
  exists w',
    JobService.deleteJob denied i w = (inl tt, w') /\
    record_of i (jobs w') = None /\
    (forall k, k <> i -> record_of k (jobs w') = record_of k (jobs w)) /\
    queue w' = queue w /\
    (forall p, files w' p = true -> files w p = true) /\
    (forall p, p <> file_path r -> transcription_file_path r <> Some p ->
       files w' p = files w p) /\
    (file_path r <> "" -> files w (file_path r) = true ->
     denied (file_path r) = true -> forall p, files w' p = files w p) /\
    ((forall p, denied p = false) ->
       (file_path r <> "" -> files w' (file_path r) = false) /\
       (forall p, transcription_file_path r = Some p -> p <> "" ->
          files w' p = false)).
Proof.
  intros Hi Hr.
  unfold JobService.deleteJob. apply String.eqb_neq in Hi.
  unfold truthy_str. rewrite Hi. cbn [negb].
  unfold bind at 1. rewrite findById_eval, Hr. cbn [option_map].
  unfold bind at 1.
  destruct (unlink_files_eval denied
              (filePath (JobRepository.mapRowToJob r))
              (transcriptionFilePath (JobRepository.mapRowToJob r)) w)
    as (w1 & -> & Hsame & HA & HB & HC & HD).
  injection Hsame as Hj _ Hq _ _.
  unfold bind. rewrite delete_eval, Hj, Hr. cbn [negb].
  eexists. split; [reflexivity|].
  cbn [jobs files queue push_journal set_jobs].
  cbn [filePath transcriptionFilePath JobRepository.mapRowToJob] in HB, HC, HD.
  split.
  { unfold record_of. apply find_filter_out. intros a Ha. now rewrite Ha. }
  split.
  { intros k Hk. unfold record_of. apply find_filter_keep.
    intros a Ha. exact (@has_id_other i k a Hk Ha). }
  split; [exact Hq|]. split; [exact HA|]. split.
  { intros p H1 H2. apply HB; [exact H1|].
    intro E. apply or_undefined_some in E. destruct E as [E _]. exact (H2 E). }
  split; [exact HC|].
  intro Hall. destruct (HD Hall) as [H1 H2]. split; [exact H1|].
  intros p Hp Hne. apply H2; [|exact Hne].
  apply or_undefined_some. split; [exact Hp | exact Hne].
Qed.

Lemma deleteJob_removes_record_and_files_witness :
  exists w',
    JobService.deleteJob (fun _ => false) "job-1" completed_world = (inl tt, w') /\
    record_of "job-1" (jobs w') = None /\
    files w' "/app/uploads/talk.mp3" = false /\
    files w' "/app/temp/job-1.txt" = false.
Proof.
  destruct (@deleteJob_removes_record_and_files (fun _ => false) "job-1"
              completed_row completed_world)
    as (w' & H1 & H2 & _ & _ & _ & _ & _ & H3).
  - discriminate.
  - reflexivity.
  - exists w'. split; [exact H1|]. split; [exact H2|].
    destruct (H3 (fun _ => eq_refl)) as [H4 H5]. split.
    + apply H4. discriminate.
    + apply (H5 "/app/temp/job-1.txt"); [reflexivity | discriminate].
Defined.

Lemma findAll_default_rejected (w : World) :
  JobRepository.findAll FindAllOptions.default w =
    (inr (db_error "column createdat does not exist"), w).
Proof.
  unfold JobRepository.findAll, FindAllOptions.default, bind, try_catch, pool_query, throw.
  cbn [FindAllOptions.page FindAllOptions.limit FindAllOptions.status
       FindAllOptions.orderBy FindAllOptions.orderDirection default_to].
  cbn [exec_query is_write].
  rewrite createdAt_is_no_column. reflexivity.
Qed.

(** X8. [getJobStatistics] never returns statistics: the total is asked of
    [findAll] with no options, which always throws, so [Promise.all]
    rejects although the four counts by status succeed; the facade answers
    with its internal server error in every world, and the world is left
    as it was. *)
Theorem getJobStatistics_always_throws (w : World) :
  JobService.getJobStatistics w =
    (inr (InternalServerError "Failed to retrieve job statistics"), w) /\
  forall s, exists n,
    JobService.then_ (JobRepository.findByStatus s) JobService.count_of w =
      (inl n, w) /\
    n = Z.of_nat (List.length (with_status s (jobs w))).
Proof.
  split.
  - unfold JobService.getJobStatistics, try_catch, bind.
    cbn [JobService.Promise_all]. unfold JobService.then_ at 1. unfold bind at 1.
    rewrite findAll_default_rejected.
    unfold JobService.then_, bind. rewrite !findByStatus_eval. reflexivity.
  - intro s. eexists. split.
    + unfold JobService.then_, bind. rewrite findByStatus_eval. reflexivity.
    + unfold JobService.count_of. rewrite length_map.
      rewrite (Permutation_length (order_by_perm c_created_at ASC _)). reflexivity.
Qed.





(** ** The worker: what one attempt writes *)

Lemma map_row_id_update_table (sets : list SetPart) (i : string) (t : Table) :
  map row_id (update_table sets i t) = map row_id t.
Proof.
  unfold update_table. rewrite map_map. apply map_ext.
  intro r. destruct (has_id i r); [apply apply_sets_id | reflexivity].
Qed.

Lemma update_table_absent (sets : list SetPart) (i : string) (t : Table) :
  record_of i t = None -> update_table sets i t = t.
Proof.
  unfold record_of, update_table.
  induction t as [|a t IH]; simpl; [reflexivity|].
  destruct (has_id i a); [discriminate|]. intro H. now rewrite (IH H).
Qed.

Section AnyAttempt.
Context {svc : IWhisperService} {frame : GatewayFrame svc}.

(** The world after one attempt of the entry [j], stored job or not. *)
Lemma attempt_world (j : BullJob) (w : World) :
  jobs (Bull.attempt j w) =
    update_table
      (set_parts (final_write (gateway_outcome j w) (clock (after_gateway j w)))
       ++ [set_updated_at (clock (after_gateway j w))]) (job_of j)
      (update_table (set_parts d_processing ++ [set_updated_at (clock w)])
                    (job_of j) (jobs w)) /\
  invocations (Bull.attempt j w) = (request_of j, gateway_outcome j w) :: invocations w /\
  files (Bull.attempt j w) = files w /\
  network (Bull.attempt j w) = network w /\
  clock (Bull.attempt j w) = clock (after_gateway j w) /\
  queue (Bull.attempt j w) =
    match failure_of (gateway_outcome j w) with
    | None => Bull.moveToCompleted j (queue w)
    | Some e => Bull.moveToFailed j e (clock (after_gateway j w)) (queue w)
    end.
Proof.
  assert (Hfr : forall d q,
             let w3 := set_queue q (mark (job_of j) d (after_gateway j w)) in
             jobs w3 =
               update_table (set_parts d ++ [set_updated_at (clock (after_gateway j w))])
                 (job_of j)
                 (update_table (set_parts d_processing ++ [set_updated_at (clock w)])
                               (job_of j) (jobs w)) /\
             invocations w3 = (request_of j, gateway_outcome j w) :: invocations w /\
             files w3 = files w /\ network w3 = network w /\
             clock w3 = clock (after_gateway j w) /\ queue w3 = q).
  { intros d q. cbv zeta. unfold mark at 1 2 3 4 5.
    cbn [invocations files network journal jobs queue clock set_queue
         push_journal set_jobs].
    rewrite after_gateway_files, after_gateway_network, after_gateway_invocations,
      after_gateway_jobs.
    repeat split; reflexivity. }
  assert (Hq : forall d, queue (mark (job_of j) d (after_gateway j w)) = queue w).
  { intro d. unfold mark. cbn [queue push_journal set_jobs].
    apply after_gateway_queue. }
  unfold Bull.attempt. rewrite process_eval. unfold failure_of, final_write.
  destruct (gateway_outcome j w) as [result|e].
  - destruct (delivered result).
    + rewrite Hq. apply Hfr.
    + rewrite Hq. apply Hfr.
  - rewrite Hq. apply Hfr.
Qed.

Lemma attempt_record (j : BullJob) (w : World) :
  record_of (job_of j) (jobs (Bull.attempt j w)) =
    option_map (attempted (gateway_outcome j w) (clock w) (clock (Bull.attempt j w)))
               (record_of (job_of j) (jobs w)).
Proof.
  destruct (attempt_world j w) as (Hj & _ & _ & _ & Hc & _).
  rewrite Hc, Hj, !record_of_update_table.
  destruct (record_of (job_of j) (jobs w)); reflexivity.
Qed.

Lemma attempt_other (j : BullJob) (w : World) (k : string) :
  k <> job_of j ->
  record_of k (jobs (Bull.attempt j w)) = record_of k (jobs w).
Proof.
  intro Hk. destruct (attempt_world j w) as (Hj & _).
  rewrite Hj, !record_of_update_other by exact Hk. reflexivity.
Qed.

Lemma attempt_absent (j : BullJob) (w : World) :
  record_of (job_of j) (jobs w) = None -> jobs (Bull.attempt j w) = jobs w.
Proof.
  intro Hn. destruct (attempt_world j w) as (Hj & _).
  rewrite Hj. rewrite (@update_table_absent _ (job_of j) (jobs w) Hn).
  apply update_table_absent, Hn.
Qed.

End AnyAttempt.

(** What an attempt leaves of a record: the fields of the submission. *)
Lemma attempted_keeps_submission
      (out : WhisperServiceResponse + Error) (t1 t2 : Z) (r : Row) :
  submission (attempted out t1 t2 r) = submission r.
Proof.
  unfold attempted, submission.
  destruct (apply_sets_updated_as (final_write out t2) t2
              (apply_sets (set_parts d_processing ++ [set_updated_at t1]) r))
    as (A1 & A2 & A3 & A4 & A5 & A6 & A7 & A8 & _).
  destruct (apply_sets_updated_as d_processing t1 r)
    as (B1 & B2 & B3 & B4 & B5 & B6 & B7 & B8 & _).
  rewrite A1, A2, A3, A4, A5, A6, A7, A8, B1, B2, B3, B4, B5, B6, B7, B8.
  reflexivity.
Qed.

(** X11. An attempt of the worker writes the record of its own job only,
    whatever the gateway answers: no record is added or removed, the record
    of every other job is as before, and of the job's own record the fields
    of the submission (identifier, file name, path, type, size, language,
    model, creation time) are kept; the files are untouched and the gateway
    is called exactly once, with the request of the entry. *)
Theorem attempt_writes_own_record_only
    {svc : IWhisperService} {frame : GatewayFrame svc} (j : BullJob) (w : World) :
  map row_id (jobs (Bull.attempt j w)) = map row_id (jobs w) /\
  (forall k, k <> job_of j ->
     record_of k (jobs (Bull.attempt j w)) = record_of k (jobs w)) /\
  option_map submission (record_of (job_of j) (jobs (Bull.attempt j w))) =
    option_map submission (record_of (job_of j) (jobs w)) /\
  files (Bull.attempt j w) = files w /\
  exists out,
    invocations (Bull.attempt j w) = (request_of j, out) :: invocations w.
Proof.
  destruct (attempt_world j w) as (Hj & Hi & Hf & _).
  split; [rewrite Hj, !map_row_id_update_table; reflexivity|].
  split; [intros k Hk; apply attempt_other, Hk|].
  split.
  { rewrite attempt_record.
    destruct (record_of (job_of j) (jobs w)) as [r|]; [|reflexivity].
    cbn [option_map]. now rewrite attempted_keeps_submission. }
  split; [exact Hf|]. eexists. exact Hi.
Qed.

Lemma attempt_writes_own_record_only_witness :
  map row_id (jobs (Bull.attempt demo_entry working_world)) = ["job-1"] /\
  List.length (invocations (Bull.attempt demo_entry working_world)) = 1%nat.
Proof.
  destruct (@attempt_writes_own_record_only _ WhisperService_frame
              demo_entry working_world) as (H1 & _ & _ & _ & out & H2).
  rewrite H1, H2. split; reflexivity.
Defined.

Lemma deleteJob_world (denied : string -> bool) (i : string) (r : Row) (w : World) :
  i <> "" ->
  record_of i (jobs w) = Some r ->
  exists w1,
    JobService.deleteJob denied i w = (inl tt, w1) /\
    jobs w1 = filter (fun a => negb (has_id i a)) (jobs w) /\
    queue w1 = queue w /\ invocations w1 = invocations w.
Proof.
  intros Hi Hr.
  unfold JobService.deleteJob. apply String.eqb_neq in Hi.
  unfold truthy_str. rewrite Hi. cbn [negb].
  unfold bind at 1. rewrite findById_eval, Hr. cbn [option_map].
  unfold bind at 1.
  destruct (unlink_files_eval denied
              (filePath (JobRepository.mapRowToJob r))
              (transcriptionFilePath (JobRepository.mapRowToJob r)) w)
    as (w1 & -> & Hsame & _).
  injection Hsame as Hj _ Hq _ Hv.
  unfold bind. rewrite delete_eval, Hj, Hr. cbn [negb].
  eexists. split; [reflexivity|].
  cbn [jobs queue invocations push_journal set_jobs].
  split; [reflexivity|]. split; [exact Hq | exact Hv].
Qed.

Lemma Next_queue (j : BullJob) (w w' : World) :
  queue w' = queue w -> Next j w -> Next j w'.
Proof. unfold Next. intros ->. trivial. Qed.

Lemma attempted_delivered (result : WhisperServiceResponse) (t1 t2 : Z) (r : Row) :
  delivered result = true ->
  row_status (attempted (inl result) t1 t2 r) = COMPLETED /\
  transcription_text (attempted (inl result) t1 t2 r) = transcription result /\
  transcription_file_path (attempted (inl result) t1 t2 r) =
    supplied_or (transcriptionFile result) (transcription_file_path r) /\
  completed_at (attempted (inl result) t1 t2 r) = Some t2 /\
  updated_at (attempted (inl result) t1 t2 r) = t2 /\
  error_message (attempted (inl result) t1 t2 r) = error_message r.
Proof.
  intro Hd. unfold attempted, final_write. rewrite Hd.
  destruct (apply_sets_updated_as (d_completed result t2) t2
              (apply_sets (set_parts d_processing ++ [set_updated_at t1]) r))
    as (_ & _ & _ & _ & _ & _ & _ & _ & A9 & A10 & A11 & A12 & A13 & A14).
  destruct (apply_sets_updated_as d_processing t1 r)
    as (_ & _ & _ & _ & _ & _ & _ & _ & _ & B10 & B11 & B12 & B13 & _).
  rewrite A9, A10, A11, A12, A13, A14, B11, B12.
  cbn [d_completed d_processing UpdateJobData.status UpdateJobData.transcriptionText
       UpdateJobData.transcriptionFilePath UpdateJobData.errorMessage
       UpdateJobData.completedAt default_to supplied_or].
  repeat split; try reflexivity.
  unfold delivered, truthy in Hd. apply andb_true_iff in Hd. destruct Hd as [_ Hd].
  destruct (transcription result); [reflexivity | discriminate].
Qed.

Lemma attempted_failed (out : WhisperServiceResponse + Error) (e : Error)
      (t1 t2 : Z) (r : Row) :
  failure_of out = Some e ->
  row_status (attempted out t1 t2 r) = FAILED /\
  error_message (attempted out t1 t2 r) = Some (stored_message e) /\
  transcription_text (attempted out t1 t2 r) = transcription_text r /\
  transcription_file_path (attempted out t1 t2 r) = transcription_file_path r /\
  completed_at (attempted out t1 t2 r) = completed_at r /\
  updated_at (attempted out t1 t2 r) = t2.
Proof.
  intro Hf.
  assert (Hw : final_write out t2 = d_failed e).
  { unfold failure_of in Hf. unfold final_write. destruct out as [result|e'].
    - destruct (delivered result); [discriminate|]. now injection Hf as <-.
    - now injection Hf as <-. }
  unfold attempted. rewrite Hw.
  destruct (apply_sets_updated_as (d_failed e) t2
              (apply_sets (set_parts d_processing ++ [set_updated_at t1]) r))
    as (_ & _ & _ & _ & _ & _ & _ & _ & A9 & A10 & A11 & A12 & A13 & A14).
  destruct (apply_sets_updated_as d_processing t1 r)
    as (_ & _ & _ & _ & _ & _ & _ & _ & _ & B10 & B11 & B12 & B13 & _).
  rewrite A9, A10, A11, A12, A13, A14, B10, B11, B13.
  repeat split; reflexivity.
Qed.

Section AnyEntry.
Context {svc : IWhisperService} {frame : GatewayFrame svc}.

(** X12. Deleting a job does not withdraw its queue entry. When the job of
    the only entry to take is deleted through the facade, the deletion
    succeeds and the entry stays; at its next turn the worker calls the
    gateway for the deleted job all the same, and nothing of the outcome is
    stored: the table is as the deletion left it. If the gateway delivers,
    the queue counts the entry as completed. *)
Theorem deleted_job_is_still_processed
    (denied : string -> bool) (j : BullJob) (r : Row) (w : World) :
  job_of j <> "" ->
  record_of (job_of j) (jobs w) = Some r ->
  Next j w ->
  exists w1 w2 out,
    JobService.deleteJob denied (job_of j) w = (inl tt, w1) /\
    Next j w1 /\
    Bull.worker_step w1 = Some w2 /\
    invocations w2 = (request_of j, out) :: invocations w /\
    jobs w2 = jobs w1 /\
    record_of (job_of j) (jobs w2) = None /\
    (failure_of out = None ->
       Drained w2 /\
       completed (queue w2) = firstn removeOnComplete (j :: completed (queue w))).
Proof.
  intros Hi Hr Hn.
  destruct (@deleteJob_world denied (job_of j) r w Hi Hr) as (w1 & Hdel & Hj1 & Hq1 & Hv1).
  pose proof (@Next_queue j w w1 Hq1 Hn) as Hn1.
  destruct (take_Next Hn1)
    as (wa & Ht & Hjobs & _ & Hinv & _ & _ & Hw & Hd & Hc & _).
  assert (Hgone : record_of (job_of j) (jobs w1) = None).
  { rewrite Hj1. unfold record_of. apply find_filter_out.
    intros a Ha. now rewrite Ha. }
  destruct (attempt_world j wa) as (_ & Ai & _ & _ & _ & Aq).
  exists w1, (Bull.attempt j wa), (gateway_outcome j wa).
  split; [exact Hdel|]. split; [exact Hn1|].
  split; [unfold Bull.worker_step; now rewrite Ht|].
  split; [rewrite Ai, Hinv, Hv1; reflexivity|].
  assert (Hsame : jobs (Bull.attempt j wa) = jobs w1).
  { rewrite <- Hjobs. apply attempt_absent. rewrite Hjobs. exact Hgone. }
  split; [exact Hsame|]. split; [rewrite Hsame; exact Hgone|].
  intro Hok. rewrite Hok in Aq. unfold Drained. rewrite Aq.
  unfold Bull.moveToCompleted. cbn [waiting delayed completed].
  rewrite Hw, Hd, Hc, Hq1. repeat split; reflexivity.
Qed.


(** X14. The worker does not look at the stored status. An attempt on a
    job that is already Completed (a second entry for it, say) stores
    Processing and then what the gateway call gives; when that call fails
    the job ends Failed with the reason, while the transcription text, the
    transcription file path and the completion time of the earlier success
    stay in the record. *)
Theorem failed_attempt_overwrites_completed
    (j : BullJob) (r : Row) (w : World) (e : Error) :
  record_of (job_of j) (jobs w) = Some r ->
  row_status r = COMPLETED ->
  failure_of (gateway_outcome j w) = Some e ->
  exists r',
    record_of (job_of j) (jobs (Bull.attempt j w)) = Some r' /\
    map (status_of (job_of j)) (journal (Bull.attempt j w)) =
      Some FAILED :: Some PROCESSING :: map (status_of (job_of j)) (journal w) /\
    row_status r' = FAILED /\
    error_message r' = Some (stored_message e) /\
    transcription_text r' = transcription_text r /\
    transcription_file_path r' = transcription_file_path r /\
    completed_at r' = completed_at r.
Proof.
  intros Hr Hs Hf.
  assert (Hst : status_of (job_of j) (jobs w) = Some COMPLETED)
    by (unfold status_of; rewrite Hr; cbn [option_map]; now rewrite Hs).
  destruct (attempt_facts j w Hst) as (_ & _ & _ & A4).
  rewrite Hf in A4. destruct A4 as (B1 & _).
  pose proof (attempt_record j w) as Ar. rewrite Hr in Ar. cbn [option_map] in Ar.
  destruct (@attempted_failed (gateway_outcome j w) e (clock w)
              (clock (Bull.attempt j w)) r Hf) as (E1 & E2 & E3 & E4 & E5 & _).
  eexists. split; [exact Ar|]. split; [exact B1|].
  split; [exact E1|]. split; [exact E2|]. split; [exact E3|].
  split; [exact E4 | exact E5].
Qed.

End AnyEntry.

Lemma deleted_job_is_still_processed_witness :
  exists w1 w2,
    JobService.deleteJob (fun _ => false) "job-1" working_world = (inl tt, w1) /\
    Bull.worker_step w1 = Some w2 /\
    List.length (invocations w2) = 1%nat /\
    jobs w2 = [].
Proof.
  assert (Hi : job_of demo_entry <> "") by discriminate.
  assert (Hr : record_of (job_of demo_entry) (jobs working_world) = Some demo_row)
    by reflexivity.
  assert (Hn : Next demo_entry working_world) by (left; split; reflexivity).
  destruct (@deleted_job_is_still_processed _ WhisperService_frame (fun _ => false)
              demo_entry demo_row working_world Hi Hr Hn)
    as (w1 & w2 & out & H1 & _ & H2 & H3 & H4 & _).
  exists w1, w2. split; [exact H1|]. split; [exact H2|].
  split; [rewrite H3; reflexivity|].
  rewrite H4.
  change (job_of demo_entry) with "job-1" in H1.
  assert (E : w1 = snd (JobService.deleteJob (fun _ => false) "job-1" working_world))
    by (rewrite H1; reflexivity).
  rewrite E. vm_compute. reflexivity.
Defined.

Lemma failed_attempt_overwrites_completed_witness :
  exists r',
    record_of "job-1" (jobs (Bull.attempt demo_entry redone_world)) = Some r' /\
    row_status r' = FAILED /\
    transcription_text r' = Some "hello world" /\
    completed_at r' = Some 60.
Proof.
  destruct (@failed_attempt_overwrites_completed _ WhisperService_frame
              demo_entry completed_row redone_world
              (new_Error "File not found: /app/uploads/talk.mp3")
              eq_refl eq_refl eq_refl)
    as (r' & H1 & _ & H2 & _ & H3 & _ & H4).
  exists r'. split; [exact H1|]. split; [exact H2|].
  split; [exact H3 | exact H4].
Defined.

(** ** The persistent gateway, and the worker with it *)

(** Served: the service answers with [success: true]. *)
Lemma transcribeStatic_served (r : WhisperServiceRequest) (w : World)
      (t f e : option string) :
  files w (req_filePath r) = true ->
  network w (posts w) = Responded true t f e ->
  WhisperService.transcribeStatic r w =
    (inl (mkResponse true t f None), set_posts (S (posts w)) w).
Proof.
  intros Hf Hn.
  unfold WhisperService.transcribeStatic, try_catch, bind, fs_existsSync, axios_post.
  rewrite Hf. cbn [negb]. rewrite Hn. reflexivity.
Qed.

(** X15. The persistent gateway always answers and never throws. It sends
    one request to the service when the file exists and none when it does
    not, and touches nothing else; it reports success exactly when the
    file exists and the service answered with [success: true]; a success
    carries no error, and every failure is a result with a reason and
    without a transcription. *)
Theorem transcribeStatic_always_answers (r : WhisperServiceRequest) (w : World) :
  exists result,
    WhisperService.transcribeStatic r w =
      (inl result,
       if files w (req_filePath r) then set_posts (S (posts w)) w else w) /\
    (success result = true <->
       files w (req_filePath r) = true /\
       exists t f e, network w (posts w) = Responded true t f e) /\
    (success result = true -> error result = None) /\
    (success result = false -> exists reason, result = failure reason).
Proof.
  unfold WhisperService.transcribeStatic, try_catch, bind, fs_existsSync, axios_post.
  destruct (files w (req_filePath r)) eqn:Ef; cbn [negb].
  - destruct (network w (posts w)) as [ok t f e|c [[[st de] stx]|] m|[m|]] eqn:En;
      cbn -[String.append show_Z].
    + destruct ok; eexists; (split; [reflexivity|]); cbn [success error].
      * split; [split; [intros _; split; [reflexivity | eauto] | reflexivity]|].
        split; [reflexivity | discriminate].
      * split; [split; [discriminate | intros [_ (t' & f' & e' & H)]; discriminate]|].
        split; [discriminate | eauto].
    + destruct (code_is _ _); eexists; (split; [reflexivity|]); cbn [success error failure];
        (split; [split; [discriminate | intros [_ (t' & f' & e' & H)]; discriminate]|]);
        (split; [discriminate | unfold failure; eauto]).
    + destruct (code_is _ _); [|destruct (code_is _ _)];
        eexists; (split; [reflexivity|]); cbn [success error failure];
        (split; [split; [discriminate | intros [_ (t' & f' & e' & H)]; discriminate]|]);
        (split; [discriminate | unfold failure; eauto]).
    + eexists; (split; [reflexivity|]); cbn [success error failure];
        (split; [split; [discriminate | intros [_ (t' & f' & e' & H)]; discriminate]|]);
        (split; [discriminate | unfold failure; eauto]).
    + eexists; (split; [reflexivity|]); cbn [success error failure];
        (split; [split; [discriminate | intros [_ (t' & f' & e' & H)]; discriminate]|]);
        (split; [discriminate | unfold failure; eauto]).
  - eexists; (split; [reflexivity|]); cbn [success error failure].
    split; [split; [discriminate | intros [H _]; discriminate]|].
    split; [discriminate | unfold failure; eauto].
Qed.


(** X16. An answer of the service that reports success but carries no
    transcription, or an empty one, is a failure for the worker: with the
    persistent gateway every such attempt stores Failed with the reason
    'Transcription failed' and is retried like any other failure, so the
    gateway is called three times and the job stays Failed with that
    reason. *)
Theorem empty_transcription_is_a_failure (j : BullJob) (w : World) (s : JobStatus) :
  fresh_entry j s w ->
  files w (TranscriptionJobData.filePath (data j)) = true ->
  (forall k, exists t f e, network w k = Responded true t f e /\ truthy t = false) ->
  exists r1 r2 r3,
    (blank_success r1 /\ blank_success r2 /\ blank_success r3) /\
    exhausts_attempts j w r1 r2 r3.
Proof.
  intros (Hs & Hw & Hd & Ha) Hf Hn.
  apply (@failing_lifecycle _ WhisperService_frame blank_success j w s); try assumption.
  intros wg Hfg Hng. cbn [transcribe WhisperService_instance].
  destruct (Hn (posts wg)) as (t & f & e & Hk & Ht).
  eexists. rewrite (@transcribeStatic_served (request_of j) wg t f e).
  - assert (Hdl : delivered (mkResponse true t f None) = false)
      by (unfold delivered; cbn [success transcription andb]; exact Ht).
    split; [reflexivity|]. split; [exact Hdl|].
    split; [reflexivity|]. split; [exact Hdl | reflexivity].
  - rewrite Hfg. exact Hf.
  - rewrite Hng. exact Hk.
Qed.

Lemma empty_transcription_is_a_failure_witness :
  fresh_entry demo_entry PENDING blank_world /\
  List.length (invocations (Bull.run 3 blank_world)) = 3%nat /\
  option_map error_message
             (record_of (job_of demo_entry) (jobs (Bull.run 3 blank_world))) =
    Some (Some "Transcription failed").
Proof.
  assert (Hf : fresh_entry demo_entry PENDING blank_world)
    by (repeat split; reflexivity).
  split; [exact Hf|].
  destruct (@empty_transcription_is_a_failure demo_entry blank_world PENDING Hf eq_refl
              (fun k => ex_intro _ (Some "")
                 (ex_intro _ None (ex_intro _ None (conj eq_refl eq_refl)))))
    as (r1 & r2 & r3 & (_ & _ & (_ & _ & B3)) & _ & _ & H).
  destruct (H 3%nat (le_n 3)) as (I3 & _ & _ & E3 & _).
  split; [rewrite I3; reflexivity|].
  rewrite E3, B3. reflexivity.
Defined.

Lemma take_posts (w wa : World) (j : BullJob) :
  Bull.take w = Some (j, wa) -> posts wa = posts w.
Proof.
  unfold Bull.take. destruct (waiting (queue w)) as [|j' rest].
  - destruct (Bull.earliest (delayed (queue w))) as [[t j']|]; [|discriminate].
    intros [= _ <-]. reflexivity.
  - intros [= _ <-]. reflexivity.
Qed.

(** The clock and the requests sent, after an attempt with the persistent
    gateway. *)
Lemma whisper_attempt_clock_posts (j : BullJob) (w : World) :
  clock (Bull.attempt j w) = clock w /\
  posts (Bull.attempt j w) =
    posts (snd (WhisperService.transcribeStatic (request_of j)
                  (mark (job_of j) d_processing w))).
Proof.
  split.
  - destruct (@attempt_world _ WhisperService_frame j w) as (_ & _ & _ & _ & Hc & _).
    rewrite Hc. unfold after_gateway. cbn [clock set_invocations transcribe
                                           WhisperService_instance].
    destruct (transcribeStatic_world (request_of j) (mark (job_of j) d_processing w))
      as [-> | ->]; reflexivity.
  - unfold Bull.attempt. rewrite process_eval.
    destruct (gateway_outcome j w) as [result|e]; [destruct (delivered result)|];
      reflexivity.
Qed.

(** X17. A retry that succeeds. With the persistent gateway, when the
    first request for a fresh entry is refused by the service and the
    second one is answered with a transcription, two turns of the worker
    call the gateway twice and send two requests; the job goes Processing,
    Failed, Processing, Completed; the retry runs no earlier than the first
    backoff after the failure; the queue is then drained. The Completed
    record has the text, and still carries the error message of the failed
    attempt. *)
Theorem retry_recovers_and_keeps_the_error
    (j : BullJob) (w : World) (s : JobStatus)
    (resp : option (Z * option string * string)) (msg text : string)
    (file err : option string) (n : nat) :
  fresh_entry j s w ->
  files w (TranscriptionJobData.filePath (data j)) = true ->
  network w (posts w) = AxiosError (Some "ECONNREFUSED") resp msg ->
  network w (S (posts w)) = Responded true (Some text) file err ->
  text <> "" ->
  (2 <= n)%nat ->
  invocations (Bull.run n w) =
    (request_of j, inl (mkResponse true (Some text) file None))
      :: (request_of j, inl (failure "WhisperX service is not available"))
      :: invocations w /\
  posts (Bull.run n w) = S (S (posts w)) /\
  map (status_of (job_of j)) (journal (Bull.run n w)) =
    Some COMPLETED :: Some PROCESSING :: Some FAILED :: Some PROCESSING
      :: map (status_of (job_of j)) (journal w) /\
  clock w + exponential_backoff 1 <= clock (Bull.run n w) /\
  Drained (Bull.run n w) /\
  exists r',
    record_of (job_of j) (jobs (Bull.run n w)) = Some r' /\
    row_status r' = COMPLETED /\
    transcription_text r' = Some text /\
    error_message r' = Some "WhisperX service is not available".
Proof.
  intros (Hs & Hw & Hd & Ha) Hf Hn1 Hn2 Htext Hle.
  set (unavailable := failure "WhisperX service is not available").
  set (served := mkResponse true (Some text) file None).
  (* the first turn *)
  assert (N1 : Next j w) by (left; split; assumption).
  destruct (take_Next N1)
    as (wa & Ht & Hjobs & Hjour & Hinv & Hfiles & Hnet & Hwa & Hda & _ & _ & Hclk).
  rewrite Hd in Hclk. pose proof (take_posts _ Ht) as Hp.
  assert (O1 : WhisperService.transcribeStatic (request_of j)
                 (mark (job_of j) d_processing wa) =
               (inl unavailable,
                set_posts (S (posts (mark (job_of j) d_processing wa)))
                          (mark (job_of j) d_processing wa))).
  { apply transcribeStatic_refused with (resp := resp) (msg := msg).
    - change (files (mark (job_of j) d_processing wa)) with (files wa).
      rewrite Hfiles. exact Hf.
    - change (network (mark (job_of j) d_processing wa)
                      (posts (mark (job_of j) d_processing wa)))
        with (network wa (posts wa)).
      rewrite Hnet, Hp. exact Hn1. }
  assert (G1 : gateway_outcome j wa = inl unavailable).
  { unfold gateway_outcome. cbn [transcribe WhisperService_instance].
    rewrite O1. reflexivity. }
  rewrite <- Hjobs in Hs.
  destruct (@attempt_facts _ WhisperService_frame j wa s Hs) as (A1 & A2 & A3 & A4).
  destruct (whisper_attempt_clock_posts j wa) as (C1 & P1).
  rewrite O1 in P1. cbn [snd posts set_posts] in P1.
  change (posts (mark (job_of j) d_processing wa)) with (posts wa) in P1.
  rewrite G1 in A1, A4. cbn [failure_of] in A4.
  change (delivered unavailable) with false in A4. cbn iota in A4.
  destruct A4 as (B1 & B2 & B3 & B4).
  set (w1 := Bull.attempt j wa) in *.
  assert (S1 : Bull.worker_step w = Some w1)
    by (unfold Bull.worker_step; now rewrite Ht).
  set (e1 := new_Error (reason_of unavailable)) in *.
  set (j1 := retried 1 e1 j).
  assert (Q1 : waiting (queue w1) = [] /\
               delayed (queue w1) = [(clock w1 + exponential_backoff 1, j1)]).
  { rewrite B4. unfold Bull.moveToFailed. cbn [attemptsMade]. rewrite Ha.
    cbn [Nat.ltb Nat.leb attempts waiting delayed]. rewrite Hwa, Hda.
    split; reflexivity. }
  destruct Q1 as (Q1w & Q1d).
  (* the second turn *)
  pose proof (@Next_delayed j1 _ w1 Q1w Q1d) as N2.
  destruct (take_Next N2)
    as (wb & Ht2 & Hjobs2 & Hjour2 & Hinv2 & Hfiles2 & Hnet2 & Hwb & Hdb & _ & _ & Hclk2).
  rewrite Q1d in Hclk2. pose proof (take_posts _ Ht2) as Hp2.
  assert (O2 : WhisperService.transcribeStatic (request_of j1)
                 (mark (job_of j1) d_processing wb) =
               (inl served,
                set_posts (S (posts (mark (job_of j1) d_processing wb)))
                          (mark (job_of j1) d_processing wb))).
  { apply transcribeStatic_served with (e := err).
    - change (files (mark (job_of j1) d_processing wb)) with (files wb).
      rewrite Hfiles2, A2, Hfiles. exact Hf.
    - change (network (mark (job_of j1) d_processing wb)
                      (posts (mark (job_of j1) d_processing wb)))
        with (network wb (posts wb)).
      rewrite Hnet2, A3, Hnet, Hp2, P1, Hp. exact Hn2. }
  assert (G2 : gateway_outcome j1 wb = inl served).
  { unfold gateway_outcome. cbn [transcribe WhisperService_instance].
    rewrite O2. reflexivity. }
  assert (Dv : delivered served = true).
  { unfold delivered, served, truthy. cbn [success transcription andb].
    apply String.eqb_neq in Htext. now rewrite Htext. }
  change (job_of j1) with (job_of j) in *.
  change (request_of j1) with (request_of j) in *.
  assert (Hs2 : status_of (job_of j) (jobs wb) = Some FAILED)
    by (rewrite Hjobs2; exact B2).
  destruct (@attempt_facts _ WhisperService_frame j1 wb FAILED Hs2)
    as (A1' & A2' & A3' & A4').
  change (job_of j1) with (job_of j) in *.
  change (request_of j1) with (request_of j) in *.
  destruct (whisper_attempt_clock_posts j1 wb) as (C2 & P2).
  change (job_of j1) with (job_of j) in P2.
  change (request_of j1) with (request_of j) in P2.
  rewrite O2 in P2. cbn [snd posts set_posts] in P2.
  change (posts (mark (job_of j) d_processing wb)) with (posts wb) in P2.
  pose proof (@attempt_record _ WhisperService_frame j1 wb) as Ar.
  change (job_of j1) with (job_of j) in Ar.
  rewrite G2 in A1', A4', Ar. unfold failure_of in A4'. rewrite Dv in A4'.
  destruct A4' as (B1' & B2' & B4').
  set (w2 := Bull.attempt j1 wb) in *.
  assert (S2 : Bull.worker_step w1 = Some w2)
    by (unfold Bull.worker_step; now rewrite Ht2).
  assert (Dr : Drained w2).
  { unfold Drained. rewrite B4'. unfold Bull.moveToCompleted.
    cbn [waiting delayed]. now rewrite Hwb, Hdb. }
  assert (Hrun : Bull.run n w = w2).
  { destruct n as [|[|n]]; try lia.
    rewrite (@run_step _ (S n) w w1 S1), (@run_step _ n w1 w2 S2).
    apply run_Drained, Dr. }
  rewrite Hrun.
  split; [rewrite A1', Hinv2, A1, Hinv; reflexivity|].
  split; [rewrite P2, Hp2, P1, Hp; reflexivity|].
  split; [rewrite B1', Hjour2, B1, Hjour; reflexivity|].
  split.
  { rewrite C2, Hclk2, C1, Hclk. apply Z.le_max_r. }
  split; [exact Dr|].
  rewrite Hjobs2 in Ar.
  destruct (record_of (job_of j) (jobs w1)) as [r1|] eqn:Er1; [|discriminate].
  cbn [option_map] in B3, Ar. injection B3 as B3.
  destruct (@attempted_delivered served (clock wb) (clock w2) r1 Dv)
    as (E1 & E2 & _ & _ & _ & E6).
  eexists. split; [exact Ar|]. split; [exact E1|]. split; [exact E2|].
  rewrite E6, B3. reflexivity.
Qed.

Lemma retry_recovers_and_keeps_the_error_witness :
  fresh_entry demo_entry PENDING recovering_world /\
  posts (Bull.run 2 recovering_world) = 2%nat /\
  exists r',
    record_of "job-1" (jobs (Bull.run 2 recovering_world)) = Some r' /\
    row_status r' = COMPLETED /\
    error_message r' = Some "WhisperX service is not available".
Proof.
  assert (Hf : fresh_entry demo_entry PENDING recovering_world)
    by (repeat split; reflexivity).
  split; [exact Hf|].
  assert (Ht : "hello world" <> "") by discriminate.
  destruct (@retry_recovers_and_keeps_the_error demo_entry recovering_world PENDING
              None "connect ECONNREFUSED 127.0.0.1:8000" "hello world"
              (Some "/app/temp/job-1.txt") None 2
              Hf eq_refl eq_refl eq_refl Ht (le_n 2))
    as (_ & H2 & _ & _ & _ & r' & H6 & H7 & _ & H9).
  split; [exact H2|]. exists r'. split; [exact H6|]. split; [exact H7 | exact H9].
Defined.

(** ** The HTTP layer: the error middleware and the handlers *)

(** X18. What the error middleware answers. It never reports success and
    never sends data or field errors. A Multer error is answered 413 when
    the file is too large and 400 otherwise. An application error is
    answered with its own status and message, in production as well. Any
    other error is answered 400 with its message when the message mentions
    an unsupported file type, 409 'Resource already exists' when it
    mentions a duplicate key, and otherwise 500, with the message replaced
    by 'Internal server error' in production; the fallback for errors named
    ValidationError is met by none of the errors the code raises. *)
Theorem errorHandler_answers (production : bool) (x : Raised) (r : ApiResponse) :
  errorHandler production x = Some r ->
  api_success r = false /\ api_data r = data_absent /\ api_errors r = None /\
  (forall c m, x = raised_by_multer c m ->
     http_status r = if String.eqb c "LIMIT_FILE_SIZE" then 413 else 400) /\
  (forall e, x = raised e -> instanceof_AppError e = true ->
     http_status r = default_to (statusCode e) 500 /\ api_message r = message e) /\
  (forall e, x = raised e -> instanceof_AppError e = false ->
     (http_status r = 400 /\ api_message r = message e /\
      includes (message e) "Unsupported file type" = true) \/
     (http_status r = 409 /\ api_message r = "Resource already exists" /\
      includes (message e) "duplicate key" = true) \/
     (http_status r = 500 /\
      api_message r = if production then "Internal server error" else message e)).
Proof.
  intro H. destruct x as [e|c m]; cbn [errorHandler] in H.
  - destruct (instanceof_AppError e) eqn:Ea.
    + injection H as <-. cbn.
      split; [reflexivity|]. split; [reflexivity|]. split; [reflexivity|].
      split; [discriminate|]. split.
      * intros e' [= <-] _. split; reflexivity.
      * intros e' [= <-] Hn. congruence.
    + assert (Hname : String.eqb (error_name e) "ValidationError" = false)
        by (unfold error_name; destruct (cls e); reflexivity).
      rewrite Hname in H.
      assert (Hr : Some r =
                if includes (message e) "Unsupported file type"
                then Some (ResponseWrapper.badRequest (message e) None)
                else if includes (message e) "duplicate key"
                then Some (ResponseWrapper.conflict "Resource already exists")
                else Some (ResponseWrapper.error
                             (if production then "Internal server error" else message e)
                             (Some 500) None)).
      { destruct (cls e); try (symmetry; exact H). discriminate. }
      clear H.
      destruct (includes (message e) "Unsupported file type") eqn:E1;
        [|destruct (includes (message e) "duplicate key") eqn:E2];
        injection Hr as ->; cbn;
        (split; [reflexivity|]); (split; [reflexivity|]); (split; [reflexivity|]);
        (split; [discriminate|]);
        (split; [intros e' [= <-] Hn; congruence|]);
        intros e' [= <-] _.
      * left. repeat split; trivial.
      * right; left. repeat split; trivial.
      * right; right. split; reflexivity.
  - assert (Hr : exists msg,
               r = ResponseWrapper.error msg
                     (Some (if String.eqb c "LIMIT_FILE_SIZE" then 413 else 400)) None).
    { destruct (String.eqb c "LIMIT_FILE_SIZE");
        [|destruct (String.eqb c "LIMIT_FILE_COUNT");
          [|destruct (String.eqb c "LIMIT_UNEXPECTED_FILE")]];
        injection H as <-; eexists; reflexivity. }
    destruct Hr as (msg & ->). cbn.
    split; [reflexivity|]. split; [reflexivity|]. split; [reflexivity|].
    split; [intros c' m' [= <- _]; reflexivity|].
    split; intros e' [=].
Qed.

Lemma errorHandler_answers_witness :
  errorHandler true (raised (db_error "duplicate key value violates unique constraint")) =
    Some (ResponseWrapper.conflict "Resource already exists") /\
  http_status (ResponseWrapper.conflict "Resource already exists") = 409.
Proof.
  assert (H : errorHandler true
                (raised (db_error "duplicate key value violates unique constraint")) =
              Some (ResponseWrapper.conflict "Resource already exists"))
    by reflexivity.
  split; [exact H|].
  destruct (@errorHandler_answers true _ _ H) as (_ & _ & _ & _ & _ & H6).
  destruct (H6 _ eq_refl eq_refl) as [(E & _)|[(E & _)|(E & _)]];
    first [exact E | reflexivity].
Defined.



(** X20. [GET /jobs] cannot succeed: whatever page, limit and status the
    request carries and whatever is stored, the handler hands the facade's
    error to the error middleware, which answers 500 'Failed to retrieve
    jobs', in production and outside it; the world is left as it was. *)
Theorem getAllJobs_always_answers_500 (production : bool) (req : Request.t) (w : World) :
  answered production (JobController.getAllJobs req) w =
    (Some (json (mkApiResponse 500 false data_absent "Failed to retrieve jobs" None)), w).
Proof.
  unfold answered, JobController.getAllJobs, or_next, bind.
  rewrite getAllJobs_default_order_throws. reflexivity.
Qed.




Lemma existsb_incl {A} (f : A -> bool) (l1 l2 : list A) :
  incl l1 l2 -> existsb f l1 = true -> existsb f l2 = true.
Proof.
  intros Hi H. apply existsb_exists in H. destruct H as (x & Hx & Hf).
  apply existsb_exists. exists x. split; [apply Hi, Hx | exact Hf].
Qed.

Lemma allowedMimeTypes_incl : incl allowedMimeTypes allowedMimes.
Proof.
  intros x Hx. unfold allowedMimeTypes in Hx. unfold allowedMimes.
  repeat (destruct Hx as [<-|Hx]; [simpl; tauto|]). destruct Hx.
Qed.

Lemma includes_prefix (s sub : string) :
  String.prefix sub s = true -> includes s sub = true.
Proof. intro H. destruct s; cbn [includes]; rewrite H; reflexivity. Qed.

(** X22. The two checks of the type of an upload disagree. Whatever the
    validation of the route admits, the filter of the upload middleware
    admits; but four types the filter admits (WebM audio and video, M4A,
    WMV) are refused by the validation with 400 'Invalid file type', before
    the handler runs and with the world unchanged. A file the filter
    refuses is answered 400 by the error middleware, with a message that
    names its type. *)
Theorem upload_type_checks_disagree
    (production : bool) (req : Request.t) (f : MulterFile.t) (w : World) :
  Request.file req = Some f ->
  (validateFileUpload req = None -> fileFilter f = inl true) /\
  (In (MulterFile.mimetype f) ["audio/webm"; "audio/x-m4a"; "video/webm"; "video/x-ms-wmv"] ->
   MulterFile.size f <= maxSize ->
     fileFilter f = inl true /\
     upload_route production req w =
       (Some (json (mkApiResponse 400 false data_absent
                      "Invalid file type. Supported formats: MP3, WAV, MP4, MOV, AVI, OGG"
                      None)), w)) /\
  (forall e, fileFilter f = inr e ->
     errorHandler production (raised e) =
       Some (mkApiResponse 400 false data_absent
                           ("Unsupported file type: " ++ MulterFile.mimetype f) None)).
Proof.
  intro Hfile. split; [|split].
  - unfold validateFileUpload, fileFilter. rewrite Hfile.
    destruct (Z.ltb maxSize (MulterFile.size f)); [discriminate|].
    destruct (list_includes allowedMimeTypes (MulterFile.mimetype f)) eqn:E;
      [|discriminate].
    intros _. unfold list_includes in *.
    now rewrite (existsb_incl _ allowedMimeTypes_incl E).
  - intros Hin Hsize.
    unfold upload_route, validateFileUpload, fileFilter. rewrite Hfile.
    destruct (Z.ltb_spec maxSize (MulterFile.size f)) as [Hbig|_]; [lia|].
    simpl in Hin.
    destruct Hin as [<-|[<-|[<-|[<-|[]]]]]; split; reflexivity.
  - intros e. unfold fileFilter.
    destruct (list_includes allowedMimes (MulterFile.mimetype f)); [discriminate|].
    intros [= <-]. cbn [errorHandler instanceof_AppError cls new_Error message].
    rewrite includes_prefix; [reflexivity|]. reflexivity.
Qed.

Lemma upload_type_checks_disagree_witness :
  fileFilter webm_file = inl true /\
  upload_route true (Request.mk (Some webm_file) None None "" None None None)
               working_world =
    (Some (json (ResponseWrapper.badRequest
                   "Invalid file type. Supported formats: MP3, WAV, MP4, MOV, AVI, OGG"
                   None)), working_world).
Proof.
  destruct (@upload_type_checks_disagree true
              (Request.mk (Some webm_file) None None "" None None None)
              webm_file working_world eq_refl) as (_ & H & _).
  assert (Hs : MulterFile.size webm_file <= maxSize) by (vm_compute; discriminate).
  exact (H (or_introl eq_refl) Hs).
Defined.







(** ** The on-demand container: its books and the calls without a file *)

Import DockerBooks.

Lemma books_inv_init : books_inv init.
Proof.
  unfold books_inv, containers_up. cbn.
  split; [lia|]. split; [lia|]. split; [discriminate|]. split; constructor.
Qed.

Lemma accepted_by_later (t t' : Z) (l : list Call) :
  t <= t' -> Forall (accepted_by t) l -> Forall (accepted_by t') l.
Proof.
  intros Hle H. eapply Forall_impl; [|exact H].
  intros c Hc. unfold accepted_by in *. lia.
Qed.

(** Replacing the call [i] by one with the same file flag and entry time. *)
Lemma books_replace (i : nat) (c c' : Call) (l : list Call) (t : Z) :
  nth_error l i = Some c ->
  acceptedAt c' = acceptedAt c ->
  unsent_without_file c' ->
  Forall unsent_without_file l /\ Forall (accepted_by t) l ->
  Forall unsent_without_file (replace_at i c' l) /\
  Forall (accepted_by t) (replace_at i c' l).
Proof.
  intros En Ha Hu [H1 H2]. split.
  - apply DockerProofs.Forall_replace; assumption.
  - apply DockerProofs.Forall_replace; [exact H2|].
    unfold accepted_by. rewrite Ha.
    exact (DockerProofs.Forall_nth (accepted_by t) H2 En).
Qed.

Ltac replaced i c En H45 :=
  apply (@books_replace i c _ _ _ En);
  [ reflexivity
  | unfold unsent_without_file; DockerProofs.norm;
    first [ exact (fun _ => I)
          | let Hx := fresh "Hx" in intro Hx; rewrite Hx; exact I
          | let Hx := fresh "Hx" in intro Hx; congruence ]
  | exact H45 ].

Lemma books_inv_exec (e : Event) (st st' : State) :
  exec e st = Some st' -> books_inv st -> books_inv st'.
Proof.
  intros He (H1 & H2 & H3 & H4 & H5).
  pose proof (conj H4 H5) as H45.
  unfold books_inv, containers_up in *.
  destruct e as [f|i|i|i|i ok|i ok| |d|];
    unfold exec, stopContainer, isContainerRunning in He; simpl in He.
  - (* Invoke *)
    injection He as <-. DockerProofs.norm.
    split; [exact H1|]. split; [exact H2|]. split; [exact H3|]. split.
    + apply Forall_app. split; [exact H4|]. constructor; [|constructor].
      intros _. exact I.
    + apply Forall_app. split; [exact H5|]. constructor; [|constructor].
      unfold accepted_by. cbn. lia.
  - (* IsRunningResolved *)
    destruct (nth_error (calls st) i) as [c|] eqn:En; [|discriminate].
    destruct (pc c) eqn:Ep; try discriminate.
    destruct (running (container st)) eqn:Er; injection He as <-; DockerProofs.norm;
      rewrite ?Er;
      (split; [exact H1|]); (split; [exact H2|]); (split; [exact H3|]);
      replaced i c En H45.
  - (* RemoveResolved *)
    destruct (nth_error (calls st) i) as [c|] eqn:En; [|discriminate].
    destruct (pc c) eqn:Ep; try discriminate.
    injection He as <-. DockerProofs.norm. cbn [running].
    split; [destruct (running (container st)); lia|]. split; [exact H2|].
    split; [discriminate|]. replaced i c En H45.
  - (* RunResolved *)
    destruct (nth_error (calls st) i) as [c|] eqn:En; [|discriminate].
    destruct (pc c) eqn:Ep; try discriminate.
    destruct (container st) eqn:Ec; injection He as <-; DockerProofs.norm;
      rewrite ?Ec; cbn [running] in *.
    + split; [lia|]. split; [exact H2|].
      split; [intros _; exists (now st); split; [reflexivity | lia]|].
      replaced i c En H45.
    + split; [exact H1|]. split; [exact H2|]. split; [exact H3|].
      replaced i c En H45.
  - (* HealthyResolved *)
    destruct (nth_error (calls st) i) as [c|] eqn:En; [|discriminate].
    destruct (pc c) eqn:Ep; try discriminate.
    destruct ok.
    + destruct (container st) as [|[|]] eqn:Ec; try discriminate.
      injection He as <-. DockerProofs.norm. rewrite ?Ec. cbn [running] in *.
      split; [exact H1|]. split; [exact H2|]. split; [exact H3|].
      replaced i c En H45.
    + destruct (Z.leb STARTUP_TIMEOUT (now st - since)); [|discriminate].
      injection He as <-. DockerProofs.norm.
      split; [exact H1|]. split; [exact H2|]. split; [exact H3|].
      replaced i c En H45.
  - (* PostResolved *)
    destruct (nth_error (calls st) i) as [c|] eqn:En; [|discriminate].
    destruct (pc c) eqn:Ep; try discriminate.
    destruct (andb ok (Z.ltb REQUEST_TIMEOUT (now st - since))); [discriminate|].
    injection He as <-. DockerProofs.norm.
    split; [exact H1|]. split; [exact H2|]. split; [exact H3|].
    pose proof (DockerProofs.Forall_nth unsent_without_file H4 En) as Hc.
    unfold unsent_without_file in Hc. rewrite Ep in Hc.
    apply (@books_replace i c _ _ _ En); [reflexivity | | exact H45].
    unfold unsent_without_file. DockerProofs.norm. intro Hx. destruct (Hc Hx).
  - (* ServiceUp *)
    destruct (container st) eqn:Ec; [discriminate|]. injection He as <-.
    cbn [running container launched idleStops now containerStartTime calls] in *.
    repeat split; assumption.
  - (* Elapse *)
    destruct (Z.ltb_spec d 0) as [|Hd]; [discriminate|]. injection He as <-.
    cbn [running container launched idleStops now containerStartTime calls] in *.
    split; [exact H1|]. split; [lia|]. split.
    + intro Hr. destruct (H3 Hr) as (t & Et & Ht). exists t. split; [exact Et | lia].
    + split; [exact H4|]. apply accepted_by_later with (t := now st); [lia | exact H5].
  - (* IdleTimerFires *)
    destruct (whisperIdleTimeout st) as [due|]; [|discriminate].
    destruct (Z.leb due (now st)); [|discriminate].
    destruct (container st) eqn:Ec; injection He as <-;
      cbn [running container launched idleStops now containerStartTime calls] in *.
    + rewrite ?Ec. cbn [running]. repeat split; try assumption; discriminate.
    + split; [lia|]. split; [exact H2|]. split; [discriminate|].
      split; assumption.
Qed.

Lemma books_inv_run (evs : list Event) (st st' : State) :
  run evs st = Some st' -> books_inv st -> books_inv st'.
Proof.
  revert st. induction evs as [|e evs IH]; intros st Hr Hi; simpl in Hr.
  - injection Hr as <-. exact Hi.
  - destruct (exec e st) as [st1|] eqn:Ee; [|discriminate].
    apply (IH st1 Hr). exact (@books_inv_exec e st st1 Ee Hi).
Qed.

(** X26. The books of the on-demand container, whatever the interleaving
    of the calls, the timer and the passing of time: the idle timer has
    stopped no more containers than were launched, and a container that
    runs was launched and not yet stopped; a running container has a start
    time, which is not in the future; a call for a file that does not exist
    has sent no request and has not been served; and every call was
    entered at a time that has come. *)
Theorem container_books_balance (evs : list Event) (st : State) :
  run evs init = Some st ->
  (idleStops st + containers_up st <= launched st)%nat /\
  (running (container st) = true ->
     exists t, containerStartTime st = Some t /\ 0 <= t <= now st) /\
  Forall unsent_without_file (calls st) /\
  Forall (accepted_by (now st)) (calls st).
Proof.
  intro Hr.
  destruct (@books_inv_run evs init st Hr books_inv_init) as (H1 & _ & H3 & H4 & H5).
  split; [exact H1|]. split; [exact H3|]. split; [exact H4 | exact H5].
Qed.

Lemma container_books_balance_witness :
  run long_request_schedule init = Some (outcome long_request_schedule) /\
  (idleStops (outcome long_request_schedule)
   + containers_up (outcome long_request_schedule)
   <= launched (outcome long_request_schedule))%nat /\
  idleStops (outcome long_request_schedule) = 1%nat.
Proof.
  assert (E : run long_request_schedule init = Some (outcome long_request_schedule))
    by (vm_compute; reflexivity).
  split; [exact E|].
  destruct (@container_books_balance long_request_schedule
              (outcome long_request_schedule) E) as (H1 & _).
  split; [exact H1|]. vm_compute. reflexivity.
Defined.

(** X27. The on-demand gateway looks for the file only after it has
    ensured the container. A call for a file that does not exist, arriving
    alone while the container is stopped, still removes what is left of the
    container, launches it, waits for the service and restarts the idle
    timer; only then does it fail, without sending a request. The container
    is left running for the idle timeout. *)
Theorem missing_file_still_starts_the_container (st : State) :
  container st = Absent ->
  run (cold_start_without_file (List.length (calls st))) st =
    Some (mkState (Up true) (Some (now st)) (Some (now st + IDLE_TIMEOUT)) (now st)
                  (calls st ++ [refused_call (now st)])
                  (S (starts st)) (S (launched st)) (idleStops st)).
Proof.
  intro Hc. unfold cold_start_without_file.
  DockerProofs.step. rewrite Hc. do 6 DockerProofs.step.
  unfold proceed, set_call, scheduleIdleStop. DockerProofs.step. reflexivity.
Qed.

Lemma missing_file_still_starts_the_container_witness :
  exists st',
    run (cold_start_without_file 0) init = Some st' /\
    container st' = Up true /\ launched st' = 1%nat /\
    map pc (calls st') = [Returned false].
Proof.
  eexists. split; [exact (@missing_file_still_starts_the_container init eq_refl)|].
  repeat split; reflexivity.
Defined.

(** ** From the upload to the answer *)



